(** * Audio-reactive music-video generator: the caption timeline and the
      rendering engine, embedded from [src/lib/srt-parser.ts],
      [src/lib/visualizations.ts] and the preview component.

    Conventions of the embedding.
    - A JavaScript string is the list of its code units; only code units
      below 256 are represented ([ascii]).
    - A JavaScript [number] that carries a fraction is an exact rational
      ([Q]); the rounding of binary64 arithmetic is not represented.  Numbers
      that only ever hold integers (array indices, the fractal depth, the
      parsed sequence id, animation-frame handles) are [Z] or [nat].
    - [NaN] results of [parseInt] are [None]. *)

From Stdlib Require Import List ZArith QArith Qround Bool Ascii String Lia Lqa.
From Stdlib Require Import Sorting.Sorted Sorting.Permutation DecimalString.
Import ListNotations.

Set Implicit Arguments.

(* ================================================================== *)
(** * Part I.  Definitions                                              *)
(* ================================================================== *)

(** ** Strings *)

Definition jsstring := list ascii.

Definition LF : ascii := ascii_of_nat 10.

Definition isLF (c : ascii) : bool := Ascii.eqb c LF.

(** [WhiteSpace] and [LineTerminator] code units below 256: TAB, LF, VT, FF,
    CR, SP and NBSP.  [String.prototype.trim], the regular-expression class
    [\s] and the prefix skipped by [parseInt] all use this set. *)
Definition isWhiteSpace (c : ascii) : bool :=
  let n := N_of_ascii c in
  ((9 <=? n) && (n <=? 13) || (n =? 32) || (n =? 160))%N.

(** The class [\d]. *)
Definition isDigit (c : ascii) : bool :=
  let n := N_of_ascii c in ((48 <=? n) && (n <=? 57))%N.

Fixpoint dropWhile (p : ascii -> bool) (s : jsstring) : jsstring :=
  match s with
  | [] => []
  | c :: r => if p c then dropWhile p r else s
  end.

Definition trimStart (s : jsstring) : jsstring := dropWhile isWhiteSpace s.

(** [s.trim()] *)
Definition trim (s : jsstring) : jsstring :=
  rev (trimStart (rev (trimStart s))).

(** [s.split('\n')]: the pieces between line feeds, [cur] being the piece
    under construction (reversed). *)
Fixpoint splitLF (cur : jsstring) (s : jsstring) : list jsstring :=
  match s with
  | [] => [rev cur]
  | c :: r => if isLF c then rev cur :: splitLF [] r else splitLF (c :: cur) r
  end.

Definition lines_of (s : jsstring) : list jsstring := splitLF [] s.

(** [parts.join('\n')] *)
Fixpoint joinLF (parts : list jsstring) : jsstring :=
  match parts with
  | [] => []
  | [p] => p
  | p :: rest => p ++ LF :: joinLF rest
  end.

(** The tail [\s*\n] of the block separator [/\n\s*\n/], matched at the head
    of [s] with the backtracking of a greedy star: first try to consume one
    more white-space code unit, and only when the rest then fails match the
    line feed here.  The result is the number of code units matched. *)
Fixpoint starSpaceLF (s : jsstring) : option nat :=
  match s with
  | [] => None
  | c :: r =>
      match (if isWhiteSpace c then starSpaceLF r else None) with
      | Some n => Some (S n)
      | None => if isLF c then Some 1%nat else None
      end
  end.

(** [/\n\s*\n/] matched at the head of [s]: the length of the match. *)
Definition matchSeparator (s : jsstring) : option nat :=
  match s with
  | c :: r => if isLF c then option_map S (starSpaceLF r) else None
  | [] => None
  end.

(** [s.split(/\n\s*\n/)].  The scan follows the index loop of
    [RegExp.prototype[Symbol.split]]: at each position the separator is tried;
    on a match the piece collected so far is emitted and the scan resumes past
    the match ([skip] counts the code units of the match still to pass). *)
Fixpoint splitSeparator (skip : nat) (cur : jsstring) (s : jsstring)
  : list jsstring :=
  match s with
  | [] => [rev cur]
  | c :: r =>
      match skip with
      | S k => splitSeparator k cur r
      | O =>
          match matchSeparator s with
          | Some n => rev cur :: splitSeparator (pred n) [] r
          | None => splitSeparator 0 (c :: cur) r
          end
      end
  end.

Definition blocks_of (content : jsstring) : list jsstring :=
  splitSeparator 0 [] (trim content).

(** ** [parseInt] *)

Definition digitValue (c : ascii) : option Z :=
  let n := Z.of_N (N_of_ascii c) in
  if ((48 <=? n) && (n <=? 57))%Z then Some (n - 48)%Z
  else if ((97 <=? n) && (n <=? 122))%Z then Some (n - 87)%Z
  else if ((65 <=? n) && (n <=? 90))%Z then Some (n - 55)%Z
  else None.

Definition radixDigit (radix : Z) (c : ascii) : option Z :=
  match digitValue c with
  | Some v => if (v <? radix)%Z then Some v else None
  | None => None
  end.

(** The value of the longest prefix of digits of [s] in [radix]; [acc] is the
    value read so far, [None] while no digit has been read. *)
Fixpoint parseDigits (radix : Z) (acc : option Z) (s : jsstring) : option Z :=
  match s with
  | [] => acc
  | c :: r =>
      match radixDigit radix c with
      | Some v =>
          parseDigits radix
            (Some (match acc with Some a => a * radix + v | None => v end)%Z) r
      | None => acc
      end
  end.

(** [parseInt(s)] with no radix argument, step by step as the language
    definition has it: skip leading white space, read a sign, recognise the
    prefix [0x] or [0X], then read digits in the radix.  [None] is [NaN]. *)
Definition parseInt (s : jsstring) : option Z :=
  let s1 := trimStart s in
  let negative :=
    match s1 with c :: _ => Ascii.eqb c "-" | [] => false end in
  let s2 :=
    match s1 with
    | c :: r => if Ascii.eqb c "-" || Ascii.eqb c "+" then r else s1
    | [] => s1
    end in
  let hex :=
    match s2 with
    | c0 :: c1 :: _ =>
        Ascii.eqb c0 "0" && (Ascii.eqb c1 "x" || Ascii.eqb c1 "X")
    | _ => false
    end in
  let radix := if hex then 16%Z else 10%Z in
  let s3 := if hex then skipn 2 s2 else s2 in
  option_map (fun v => if negative then (- v)%Z else v)
    (parseDigits radix None s3).

(** ** The time-range pattern *)

(** [\d{n}] at the head of [s]: the digits and the rest. *)
Fixpoint digits (n : nat) (s : jsstring) : option (jsstring * jsstring) :=
  match n with
  | O => Some ([], s)
  | S k =>
      match s with
      | c :: r =>
          if isDigit c then
            match digits k r with
            | Some (ds, rest) => Some (c :: ds, rest)
            | None => None
            end
          else None
      | [] => None
      end
  end.

(** A literal code unit at the head of [s]. *)
Definition lit (c : ascii) (s : jsstring) : option jsstring :=
  match s with
  | x :: r => if Ascii.eqb x c then Some r else None
  | [] => None
  end.

(** The four groups of one stamp. *)
Record Stamp := {
  hours : jsstring;
  minutes : jsstring;
  seconds : jsstring;
  milliseconds : jsstring
}.

(** [(\d{2}):(\d{2}):(\d{2}),(\d{3})] at the head of [s]. *)
Definition stamp (s : jsstring) : option (Stamp * jsstring) :=
  match digits 2 s with
  | Some (h, s1) =>
    match lit ":" s1 with
    | Some s2 =>
      match digits 2 s2 with
      | Some (m, s3) =>
        match lit ":" s3 with
        | Some s4 =>
          match digits 2 s4 with
          | Some (sec, s5) =>
            match lit "," s5 with
            | Some s6 =>
              match digits 3 s6 with
              | Some (ms, s7) =>
                  Some ({| hours := h; minutes := m; seconds := sec;
                           milliseconds := ms |}, s7)
              | None => None
              end
            | None => None
            end
          | None => None
          end
        | None => None
        end
      | None => None
      end
    | None => None
    end
  | None => None
  end.

(** The whole pattern at the head of [s].  Each [\s*] is followed by a code
    unit that is no white space, so the greedy star never has to give back. *)
Definition timeRangeAt (s : jsstring) : option (Stamp * Stamp) :=
  match stamp s with
  | Some (t1, s1) =>
    match lit "-" (dropWhile isWhiteSpace s1) with
    | Some s2 =>
      match lit "-" s2 with
      | Some s3 =>
        match lit ">" s3 with
        | Some s4 =>
          match stamp (dropWhile isWhiteSpace s4) with
          | Some (t2, _) => Some (t1, t2)
          | None => None
          end
        | None => None
        end
      | None => None
      end
    | None => None
    end
  | None => None
  end.

(** [line.match(/.../)]: the leftmost position at which the pattern matches. *)
Fixpoint timeMatch (line : jsstring) : option (Stamp * Stamp) :=
  match timeRangeAt line with
  | Some g => Some g
  | None =>
      match line with
      | [] => None
      | _ :: r => timeMatch r
      end
  end.

(** ** [replace(/<[^>]*>/g, '')] *)

Definition isLt (c : ascii) : bool := Ascii.eqb c "<".
Definition isGt (c : ascii) : bool := Ascii.eqb c ">".

(** [inTag] holds while the scan is inside a match, between a ["<"] and the
    first [">"] after it; a ["<"] opens a match only when some [">"] follows. *)
Fixpoint removeTags (inTag : bool) (s : jsstring) : jsstring :=
  match s with
  | [] => []
  | c :: r =>
      if inTag then removeTags (negb (isGt c)) r
      else if isLt c && existsb isGt r then removeTags true r
      else c :: removeTags false r
  end.

(** [/<[^>]*>/.test(s)] *)
Fixpoint hasTag (s : jsstring) : bool :=
  match s with
  | [] => false
  | c :: r => (isLt c && existsb isGt r) || hasTag r
  end.

(** ** [srt-parser.ts] *)

Record SRTEntry := {
  id : Z;
  startTime : Q;
  endTime : Q;
  text : string
}.

(** [parseTime]; [None] is [NaN]. *)
Definition parseTime (hours minutes seconds milliseconds : jsstring)
  : option Q :=
  match parseInt hours, parseInt minutes, parseInt seconds,
        parseInt milliseconds with
  | Some h, Some m, Some s, Some ms =>
      Some (inject_Z h * 3600 + inject_Z m * 60 + inject_Z s
            + inject_Z ms / 1000)
  | _, _, _, _ => None
  end.

Definition stampTime (t : Stamp) : option Q :=
  parseTime (hours t) (minutes t) (seconds t) (milliseconds t).

(** One iteration of the loop over the blocks: [None] is [continue]. *)
Definition parseBlock (block : jsstring) : option SRTEntry :=
  let lines := lines_of (trim block) in
  if (List.length lines <? 3)%nat then None else
  match parseInt (nth 0 lines []) with
  | None => None
  | Some i =>
      match timeMatch (nth 1 lines []) with
      | None => None
      | Some (t1, t2) =>
          match stampTime t1, stampTime t2 with
          | Some st, Some et =>
              Some {| id := i; startTime := st; endTime := et;
                      text := string_of_list_ascii
                                (removeTags false (joinLF (skipn 2 lines))) |}
          | _, _ => None
          end
      end
  end.

(** The entries pushed by the loop, in block order. *)
Fixpoint collectEntries (blocks : list jsstring) : list SRTEntry :=
  match blocks with
  | [] => []
  | b :: rest =>
      match parseBlock b with
      | Some e => e :: collectEntries rest
      | None => collectEntries rest
      end
  end.

(** [Array.prototype.sort(compare)] for a consistent comparator: the stable
    ordering, built by insertion.  [x] stood before every element of [l] in
    the array, so it goes before the first [y] with [compare x y <= 0]. *)
Fixpoint insertBy (A : Type) (compare : A -> A -> Q) (x : A) (l : list A)
  : list A :=
  match l with
  | [] => [x]
  | y :: r =>
      if Qle_bool (compare x y) 0 then x :: l
      else y :: insertBy compare x r
  end.

Fixpoint sortBy (A : Type) (compare : A -> A -> Q) (l : list A) : list A :=
  match l with
  | [] => []
  | x :: r => insertBy compare x (sortBy compare r)
  end.

Definition byStartTime (a b : SRTEntry) : Q := startTime a - startTime b.

Definition parseSRT (content : string) : list SRTEntry :=
  sortBy byStartTime
    (collectEntries (blocks_of (list_ascii_of_string content))).

(** [Array.prototype.find] followed by [|| null]: an entry object is truthy,
    so only [undefined] becomes [null]; both are [None]. *)
Definition getCurrentLyric (entries : list SRTEntry) (currentTime : Q)
  : option SRTEntry :=
  find (fun entry =>
          Qle_bool (startTime entry) currentTime
          && Qle_bool currentTime (endTime entry)) entries.

Definition getUpcomingLyric (entries : list SRTEntry) (currentTime : Q)
  : option SRTEntry :=
  find (fun entry => negb (Qle_bool (startTime entry) currentTime)) entries.

(** ** Numbers *)

(** [a > b] and [a < b] on numbers. *)
Definition Qgt_bool (a b : Q) : bool := negb (Qle_bool a b).
Definition Qlt_bool (a b : Q) : bool := negb (Qle_bool b a).

(** The integer part of a number, rounding towards zero. *)
Definition Qtruncate (q : Q) : Z := Z.quot (Qnum q) (Zpos (Qden q)).

(** [a % n]: the remainder has the sign of the dividend. *)
Definition jsRem (a n : Q) : Q := a - n * inject_Z (Qtruncate (a / n)).

(** The functions of [Math] are the host's: they are taken as given.
    [Math_random k] is the value returned by the call of [Math.random()]
    that follows [k] earlier calls. *)
Class JSMath := {
  Math_cos : Q -> Q;
  Math_sin : Q -> Q;
  Math_PI : Q;
  Math_random : nat -> Q
}.

(** ** The 2D context *)

(** Values assigned to [fillStyle] and [strokeStyle].  A template literal
    that interpolates numbers is kept structured.  A gradient is recorded
    where it is assigned: the one entry [fillStyle (linearGradient ...)]
    stands for the call of [createLinearGradient], the calls of
    [addColorStop] and the assignment together, so in a frame that uses
    gradients the length of the list of entries is not the number of calls
    the context receives. *)
Inductive style :=
| css (colour : string)
| rgba (r g b : Z) (a : Q)
| hsla (h : Q) (s l : Z) (a : Q)
| linearGradient (x0 y0 x1 y1 : Q) (stops : list (Q * string)).

(** The calls and assignments a context receives. *)
Inductive cmd :=
| fillStyle (s : style)
| strokeStyle (s : style)
| lineWidth (w : Q)
| shadowColor (colour : string)
| shadowBlur (b : Q)
| font (f : string)
| textAlign (a : string)
| fillRect (x y w h : Q)
| beginPath
| moveTo (x y : Q)
| lineTo (x y : Q)
| arc (x y radius startAngle endAngle : Q)
| fill
| stroke
| save
| restore
| translate (x y : Q)
| scale (x y : Q)
| fillText (t : string) (x y : Q).

Definition isStroke (c : cmd) : bool :=
  match c with stroke => true | _ => false end.

(** The line segments or polylines stroked by a list of calls. *)
Definition strokes (cs : list cmd) : nat := List.length (filter isStroke cs).

(** ** The host: canvas, analyser, clock, animation frames *)

Record VisualizationConfig := {
  sensitivity : Z;
  colorScheme : string;
  smoothing : Z;
  beatDetection : bool
}.

(** The closures handed to [requestAnimationFrame]: [animate] of
    [VisualizationEngine.start], which captures [type] and [config], and
    [animate] of [renderAIVisualsInternal], which captures [images],
    [isPlaying] and its own [dataArray]. *)
Inductive Callback :=
| EngineAnimate (type : string) (config : VisualizationConfig)
| AIAnimate (images : list string) (isPlaying : bool) (dataArray : list Z).

(** An [AnalyserNode]: its transform size and the byte data it would deliver
    now. *)
Record AnalyserNode := {
  fftSize : nat;
  byteFrequencyData : list Z;
  byteTimeDomainData : list Z
}.

Definition frequencyBinCount (a : AnalyserNode) : nat := (fftSize a / 2)%nat.

Record Host := {
  canvas_width : Z;
  canvas_height : Z;
  (** every call received by the canvas's 2D context, oldest first *)
  surface : list cmd;
  analyser : AnalyserNode;
  (** [Date.now()] *)
  clock : Z;
  (** calls of [Math.random()] made so far *)
  randomCalls : nat;
  (** the animation-frame callbacks waiting for the next frame *)
  frameRequests : list (Z * Callback);
  nextHandle : Z;
  (** the callbacks frames have run, oldest first *)
  executed : list (Z * Callback)
}.

Definition draw (cs : list cmd) (h : Host) : Host :=
  {| canvas_width := canvas_width h; canvas_height := canvas_height h;
     surface := surface h ++ cs; analyser := analyser h; clock := clock h;
     randomCalls := randomCalls h; frameRequests := frameRequests h;
     nextHandle := nextHandle h; executed := executed h |}.

Definition setRandomCalls (n : nat) (h : Host) : Host :=
  {| canvas_width := canvas_width h; canvas_height := canvas_height h;
     surface := surface h; analyser := analyser h; clock := clock h;
     randomCalls := n; frameRequests := frameRequests h;
     nextHandle := nextHandle h; executed := executed h |}.

Definition setAnalyser (a : AnalyserNode) (h : Host) : Host :=
  {| canvas_width := canvas_width h; canvas_height := canvas_height h;
     surface := surface h; analyser := a; clock := clock h;
     randomCalls := randomCalls h; frameRequests := frameRequests h;
     nextHandle := nextHandle h; executed := executed h |}.

Definition setClock (t : Z) (h : Host) : Host :=
  {| canvas_width := canvas_width h; canvas_height := canvas_height h;
     surface := surface h; analyser := analyser h; clock := t;
     randomCalls := randomCalls h; frameRequests := frameRequests h;
     nextHandle := nextHandle h; executed := executed h |}.

(** [requestAnimationFrame(cb)]: the handle returned and the host after. *)
Definition requestAnimationFrame (cb : Callback) (h : Host) : Z * Host :=
  (nextHandle h,
   {| canvas_width := canvas_width h; canvas_height := canvas_height h;
      surface := surface h; analyser := analyser h; clock := clock h;
      randomCalls := randomCalls h;
      frameRequests := frameRequests h ++ [(nextHandle h, cb)];
      nextHandle := (nextHandle h + 1)%Z; executed := executed h |}).

Definition otherHandle (handle : Z) (r : Z * Callback) : bool :=
  negb (fst r =? handle)%Z.

(** [cancelAnimationFrame(handle)] *)
Definition cancelAnimationFrame (handle : Z) (h : Host) : Host :=
  {| canvas_width := canvas_width h; canvas_height := canvas_height h;
     surface := surface h; analyser := analyser h; clock := clock h;
     randomCalls := randomCalls h;
     frameRequests := filter (otherHandle handle) (frameRequests h);
     nextHandle := nextHandle h; executed := executed h |}.

(** A frame takes [handle] off the list and runs its callback. *)
Definition takeRequest (handle : Z) (cb : Callback) (h : Host) : Host :=
  {| canvas_width := canvas_width h; canvas_height := canvas_height h;
     surface := surface h; analyser := analyser h; clock := clock h;
     randomCalls := randomCalls h;
     frameRequests := filter (otherHandle handle) (frameRequests h);
     nextHandle := nextHandle h; executed := executed h ++ [(handle, cb)] |}.

(** [analyser.getByteFrequencyData(array)] and
    [analyser.getByteTimeDomainData(array)]: the data overwrite the front of
    the array; an array longer than the data keeps its tail. *)
Definition copyInto (data array : list Z) : list Z :=
  firstn (List.length array) data ++ skipn (List.length data) array.

Definition getByteFrequencyData (a : AnalyserNode) (array : list Z)
  : list Z := copyInto (byteFrequencyData a) array.

Definition getByteTimeDomainData (a : AnalyserNode) (array : list Z)
  : list Z := copyInto (byteTimeDomainData a) array.

(** ** [visualizations.ts] *)

(** The fields of a [VisualizationEngine] that are its own; [canvas], [ctx]
    and [analyser] refer to the host's objects. *)
Record Engine := {
  dataArray : list Z;
  bufferLength : nat;
  animationId : option Z
}.

Definition setDataArray (a : list Z) (e : Engine) : Engine :=
  {| dataArray := a; bufferLength := bufferLength e;
     animationId := animationId e |}.

Definition setAnimationId (i : option Z) (e : Engine) : Engine :=
  {| dataArray := dataArray e; bufferLength := bufferLength e;
     animationId := i |}.

(** [array[i]] used as a number.  Every read in the engine is below the
    length of the array, so the value of an absent element is never used. *)
Definition byteAt (array : list Z) (i : nat) : Q := inject_Z (nth i array 0%Z).

(** [x > y] on array elements; a comparison with an absent element
    ([undefined]) is false. *)
Definition gtElement (x y : option Z) : bool :=
  match x, y with
  | Some a, Some b => (b <? a)%Z
  | _, _ => false
  end.

Record Peak := { index : nat; amplitude : Q }.

(** The test of the peak loop at bin [i]. *)
Definition isPeak (data : list Z) (i : nat) : bool :=
  gtElement (nth_error data i) (nth_error data (i - 1))
  && gtElement (nth_error data i) (nth_error data (i + 1))
  && gtElement (nth_error data i) (Some 100%Z).

(** The loop [for (let i = 1; i < bufferLength - 1; i++)] that fills
    [peaks]. *)
Definition findPeaks (data : list Z) (bufferLength : nat) : list Peak :=
  flat_map
    (fun i =>
       if isPeak data i
       then [ {| index := i; amplitude := byteAt data i / 255 |} ]
       else [])
    (seq 1 (bufferLength - 2)).

(** The frequency snapshot of the worked example. *)
Definition snapshot : list Z := [0; 50; 120; 40; 200; 190; 210; 30]%Z.

Section Rendering.

Context {M : JSMath}.

(** [Date.now() * 0.001] *)
Definition seconds_now (h : Host) : Q := inject_Z (clock h) * 0.001.

Definition renderMilkdrop (config : VisualizationConfig) (e : Engine)
  (h : Host) : list cmd :=
  let width := inject_Z (canvas_width h) in
  let height := inject_Z (canvas_height h) in
  let time := seconds_now h in
  let centerX := width / 2 in
  let centerY := height / 2 in
  let n := inject_Z (Z.of_nat (bufferLength e)) in
  [fillStyle (css "rgba(0, 0, 0, 0.1)"); fillRect 0 0 width height]
  ++ flat_map
       (fun i =>
          let amplitude := byteAt (dataArray e) i / 255 in
          let angle := (inject_Z (Z.of_nat i) / n) * Math_PI * 2 in
          let radius := 100 + amplitude * 150 in
          let x := centerX + Math_cos (angle + time) * radius in
          let y := centerY + Math_sin (angle + time) * radius in
          let hue := jsRem (inject_Z (Z.of_nat i) / n * 360 + time * 50) 360 in
          [fillStyle (hsla hue 70 60 amplitude); beginPath;
           arc x y (amplitude * 10) 0 (Math_PI * 2); fill])
       (seq 0 (bufferLength e)).

(** [drawFractalBranch].  [depth] only ever holds integers.  [frames] is the
    room left on the call stack, one unit per nested call; [None] is a call
    that does not return within it. *)
Fixpoint drawFractalBranch (frames : nat) (x y angle length : Q) (depth : Z)
  (amplitude : Q) : option (list cmd) :=
  match frames with
  | O => None
  | S f =>
      if (depth =? 0)%Z then Some []
      else
        let endX := x + Math_cos angle * length in
        let endY := y + Math_sin angle * length in
        let newLength := length * 0.7 in
        match drawFractalBranch f endX endY (angle - 0.5 - amplitude)
                newLength (depth - 1) amplitude with
        | None => None
        | Some minus =>
            match drawFractalBranch f endX endY (angle + 0.5 + amplitude)
                    newLength (depth - 1) amplitude with
            | None => None
            | Some plus =>
                Some ([beginPath; moveTo x y; lineTo endX endY; stroke]
                      ++ minus ++ plus)
            end
        end
  end.

(** The nesting of calls a non-negative [depth] needs. *)
Definition branchFrames (depth : Z) : nat := S (Z.to_nat depth).

(** The calls of one base angle of [renderFractals]. *)
Definition fractalArm (centerX centerY time avgAmplitude : Q) (i : nat)
  : list cmd :=
  let angle := (inject_Z (Z.of_nat i) / 8) * Math_PI * 2 + time in
  let length := 50 + avgAmplitude * 200 in
  match drawFractalBranch (branchFrames 4) centerX centerY angle length 4
          avgAmplitude with
  | Some calls => calls
  | None => []
  end.

Definition renderFractals (config : VisualizationConfig) (e : Engine)
  (h : Host) : list cmd :=
  let width := inject_Z (canvas_width h) in
  let height := inject_Z (canvas_height h) in
  let time := seconds_now h in
  let centerX := width / 2 in
  let centerY := height / 2 in
  let avgAmplitude :=
    inject_Z (fold_left Z.add (dataArray e) 0%Z)
    / inject_Z (Z.of_nat (bufferLength e)) / 255 in
  [fillStyle (css "rgba(0, 0, 0, 0.05)"); fillRect 0 0 width height;
   strokeStyle (hsla (jsRem (time * 50) 360) 70 60 0.8); lineWidth 2]
  ++ flat_map (fractalArm centerX centerY time avgAmplitude) (seq 0 8).

Definition renderFire (config : VisualizationConfig) (e : Engine) (h : Host)
  : list cmd :=
  let width := inject_Z (canvas_width h) in
  let height := inject_Z (canvas_height h) in
  let time := seconds_now h in
  let n := inject_Z (Z.of_nat (bufferLength e)) in
  [fillStyle (css "rgba(0, 0, 0, 0.1)"); fillRect 0 0 width height]
  ++ flat_map
       (fun i =>
          let amplitude := byteAt (dataArray e) i / 255 in
          let x := (inject_Z (Z.of_nat i) / n) * width in
          let flameHeight := amplitude * height * 0.8 in
          [fillStyle
             (linearGradient x height x (height - flameHeight)
                [(0, "#ff4500"%string); (0.5, "#ff8c00"%string);
                 (1, "#ffff00"%string)]);
           beginPath; moveTo x height]
          (* for (let y = 0; y < flameHeight; y += 5) *)
          ++ map
               (fun k =>
                  let y := inject_Z (Z.of_nat k) * 5 in
                  let noise :=
                    Math_sin (time * 5 + y * 0.1
                              + inject_Z (Z.of_nat i) * 0.1)
                    * 10 * (y / flameHeight) in
                  lineTo (x + noise) (height - y))
               (seq 0 (Z.to_nat (Qceiling (flameHeight / 5))))
          ++ [lineTo (x + 10) height; fill])
       (seq 0 (bufferLength e)).

(** [drawLightning], with [frames] as in [drawFractalBranch].  [calls] counts
    the calls of [Math.random()] made so far; the result carries the count
    after. *)
Fixpoint drawLightning (frames : nat) (x1 y1 x2 y2 segments : Q)
  (calls : nat) : option (list cmd * nat) :=
  match frames with
  | O => None
  | S f =>
      if Qle_bool segments 0 then Some ([], calls)
      else
        let midX := (x1 + x2) / 2 + (Math_random calls - 0.5) * 50 in
        let midY := (y1 + y2) / 2 + (Math_random (S calls) - 0.5) * 50 in
        let path :=
          [beginPath; moveTo x1 y1; lineTo midX midY; lineTo x2 y2; stroke] in
        if Qgt_bool segments 1 then
          match drawLightning f x1 y1 midX midY (segments - 1)
                  (S (S calls)) with
          | None => None
          | Some (front, calls1) =>
              match drawLightning f midX midY x2 y2 (segments - 1)
                      calls1 with
              | None => None
              | Some (back, calls2) =>
                  Some (path ++ front ++ back, calls2)
              end
          end
        else Some (path, S (S calls))
  end.

(** The nesting of calls a bolt of [segments] needs. *)
Definition boltFrames (segments : Q) : nat :=
  S (Z.to_nat (Qceiling segments)).

(** The last argument of the call of [drawLightning] for a peak. *)
Definition boltSegments (peak : Peak) : Q := amplitude peak * 5.

(** One iteration of [peaks.forEach]. *)
Definition drawBolt (width height : Q) (bufferLength : nat) (peak : Peak)
  (calls : nat) : list cmd * nat :=
  let startX :=
    (inject_Z (Z.of_nat (index peak)) / inject_Z (Z.of_nat bufferLength))
    * width in
  let startY := height / 2 in
  let endX := startX + (Math_random calls - 0.5) * 200 in
  let endY := startY + (Math_random (S calls) - 0.5) * 200 in
  match drawLightning (boltFrames (boltSegments peak)) startX startY endX endY
          (boltSegments peak) (S (S calls)) with
  | Some r => r
  | None => ([], S (S calls))
  end.

Fixpoint drawBolts (width height : Q) (bufferLength : nat)
  (peaks : list Peak) (calls : nat) : list cmd * nat :=
  match peaks with
  | [] => ([], calls)
  | peak :: rest =>
      let '(c1, calls1) := drawBolt width height bufferLength peak calls in
      let '(c2, calls2) := drawBolts width height bufferLength rest calls1 in
      (c1 ++ c2, calls2)
  end.

(** The renderers that call [Math.random()] return the calls of the context
    and the count of random calls after. *)
Definition renderElectricity (config : VisualizationConfig) (e : Engine)
  (h : Host) : list cmd * nat :=
  let width := inject_Z (canvas_width h) in
  let height := inject_Z (canvas_height h) in
  let peaks := findPeaks (dataArray e) (bufferLength e) in
  let '(bolts, calls) :=
    drawBolts width height (bufferLength e) peaks (randomCalls h) in
  ([fillStyle (css "rgba(0, 0, 20, 0.1)"); fillRect 0 0 width height;
    strokeStyle (css "#00ffff"); lineWidth 2; shadowColor "#00ffff";
    shadowBlur 10]
   ++ bolts ++ [shadowBlur 0],
   calls).

(** The inner loop [for (let p = 0; p < particleCount; p++)]. *)
Fixpoint drawParticles (count : nat) (width height amplitude hue : Q)
  (calls : nat) : list cmd * nat :=
  match count with
  | O => ([], calls)
  | S k =>
      let angle := Math_random calls * Math_PI * 2 in
      let distance := Math_random (S calls) * amplitude * 200 in
      let x := width / 2 + Math_cos angle * distance in
      let y := height / 2 + Math_sin angle * distance in
      let '(rest, calls') :=
        drawParticles k width height amplitude hue (S (S calls)) in
      ([fillStyle (hsla hue 70 60 amplitude); beginPath;
        arc x y (amplitude * 5) 0 (Math_PI * 2); fill] ++ rest,
       calls')
  end.

Fixpoint particleBins (width height time n : Q) (data : list Z)
  (bins : list nat) (calls : nat) : list cmd * nat :=
  match bins with
  | [] => ([], calls)
  | i :: rest =>
      let amplitude := byteAt data i / 255 in
      if Qlt_bool amplitude 0.1 then
        particleBins width height time n data rest calls
      else
        let particleCount := Z.to_nat (Qfloor (amplitude * 10)) in
        let hue :=
          jsRem (inject_Z (Z.of_nat i) / n * 360 + time * 100) 360 in
        let '(c1, calls1) :=
          drawParticles particleCount width height amplitude hue calls in
        let '(c2, calls2) :=
          particleBins width height time n data rest calls1 in
        (c1 ++ c2, calls2)
  end.

Definition renderParticles (config : VisualizationConfig) (e : Engine)
  (h : Host) : list cmd * nat :=
  let width := inject_Z (canvas_width h) in
  let height := inject_Z (canvas_height h) in
  let '(particles, calls) :=
    particleBins width height (seconds_now h)
      (inject_Z (Z.of_nat (bufferLength e))) (dataArray e)
      (seq 0 (bufferLength e)) (randomCalls h) in
  ([fillStyle (css "rgba(0, 0, 0, 0.05)"); fillRect 0 0 width height]
   ++ particles,
   calls).

(** The loop over [timeData], [x] being the running abscissa. *)
Fixpoint waveformPath (height sliceWidth x : Q) (first : bool)
  (timeData : list Z) : list cmd :=
  match timeData with
  | [] => []
  | sample :: rest =>
      let v := inject_Z sample / 128 in
      let y := v * height / 2 in
      (if first then moveTo x y else lineTo x y)
      :: waveformPath height sliceWidth (x + sliceWidth) false rest
  end.

Definition renderWaveform (config : VisualizationConfig) (e : Engine)
  (h : Host) : list cmd :=
  let width := inject_Z (canvas_width h) in
  let height := inject_Z (canvas_height h) in
  let timeData :=
    getByteTimeDomainData (analyser h)
      (repeat 0%Z (fftSize (analyser h))) in
  let sliceWidth := width / inject_Z (Z.of_nat (List.length timeData)) in
  [fillStyle (css "rgba(0, 0, 0, 0.1)"); fillRect 0 0 width height;
   strokeStyle (css "#8B5CF6"); lineWidth 3; beginPath]
  ++ waveformPath height sliceWidth 0 true timeData
  ++ [stroke].

Definition renderSpectrum (config : VisualizationConfig) (e : Engine)
  (h : Host) : list cmd :=
  let width := inject_Z (canvas_width h) in
  let height := inject_Z (canvas_height h) in
  let barWidth := width / inject_Z (Z.of_nat (bufferLength e)) in
  [fillStyle (css "rgba(15, 15, 35, 0.1)"); fillRect 0 0 width height]
  ++ flat_map
       (fun i =>
          let barHeight := (byteAt (dataArray e) i / 255) * height * 0.8 in
          let x := inject_Z (Z.of_nat i) * barWidth in
          [fillStyle
             (linearGradient 0 height 0 (height - barHeight)
                [(0, "#8B5CF6"%string); (1, "#F59E0B"%string)]);
           fillRect x (height - barHeight) (barWidth - 1) barHeight])
       (seq 0 (bufferLength e)).

(** The [switch (type)] of [animate]: the calls of one frame and the count
    of random calls after it. *)
Definition render (type : string) (config : VisualizationConfig)
  (e : Engine) (h : Host) : list cmd * nat :=
  if String.eqb type "milkdrop" then (renderMilkdrop config e h, randomCalls h)
  else if String.eqb type "fractals" then
    (renderFractals config e h, randomCalls h)
  else if String.eqb type "fire" then (renderFire config e h, randomCalls h)
  else if String.eqb type "electricity" then renderElectricity config e h
  else if String.eqb type "particles" then renderParticles config e h
  else if String.eqb type "waveform" then
    (renderWaveform config e h, randomCalls h)
  else (renderSpectrum config e h, randomCalls h).

(** The closure [animate] of [start]: re-arm, read the analyser, draw. *)
Definition animate (type : string) (config : VisualizationConfig)
  (s : Engine * Host) : Engine * Host :=
  let '(e, h) := s in
  let '(handle, h1) := requestAnimationFrame (EngineAnimate type config) h in
  let e1 := setAnimationId (Some handle) e in
  let e2 := setDataArray (getByteFrequencyData (analyser h1) (dataArray e1))
              e1 in
  let '(calls, randoms) := render type config e2 h1 in
  (e2, setRandomCalls randoms (draw calls h1)).

(** [stop()].  [if (this.animationId)] is false for [null] and for [0]. *)
Definition stop (s : Engine * Host) : Engine * Host :=
  let '(e, h) := s in
  match animationId e with
  | Some handle =>
      if (handle =? 0)%Z then s
      else (setAnimationId None e, cancelAnimationFrame handle h)
  | None => s
  end.

(** [start(type, config)] *)
Definition start (type : string) (config : VisualizationConfig)
  (s : Engine * Host) : Engine * Host :=
  animate type config (stop s).

(** [new VisualizationEngine(canvas, analyser)] *)
Definition newVisualizationEngine (h : Host) : Engine * Host :=
  let a := {| fftSize := 512;
              byteFrequencyData := byteFrequencyData (analyser h);
              byteTimeDomainData := byteTimeDomainData (analyser h) |} in
  ({| dataArray := repeat 0%Z (frequencyBinCount a);
      bufferLength := frequencyBinCount a;
      animationId := None |},
   setAnalyser a h).

(** ** The AI-image compositor of the preview component *)

(** The object literal passed to every [start] of the component. *)
Definition previewConfig : VisualizationConfig :=
  {| sensitivity := 75; colorScheme := "rainbow"; smoothing := 50;
     beatDetection := true |}.

Definition decimal (n : nat) : string :=
  NilEmpty.string_of_uint (Nat.to_uint n).

(** The closure [animate] of [renderAIVisualsInternal]. *)
Definition aiAnimate (images : list string) (isPlaying : bool)
  (dataArray : list Z) (h : Host) : Host :=
  if negb isPlaying then h
  else
    let data := getByteFrequencyData (analyser h) dataArray in
    let '(_, h1) := requestAnimationFrame (AIAnimate images isPlaying data) h in
    let width := inject_Z (canvas_width h1) in
    let height := inject_Z (canvas_height h1) in
    let count := Z.of_nat (List.length images) in
    let avgAmplitude :=
      inject_Z (fold_left Z.add data 0%Z)
      / inject_Z (Z.of_nat (List.length data)) / 255 in
    let imageIndex :=
      Z.to_nat (Z.rem (Qfloor (avgAmplitude * inject_Z count)) count) in
    let zoom := 1 + avgAmplitude * 0.1 in
    let loaded :=
      match nth_error images imageIndex with
      | Some url => negb (String.eqb url EmptyString)
      | None => false
      end in
    draw
      [fillStyle (rgba 0 0 0 (0.1 - avgAmplitude * 0.05));
       fillRect 0 0 width height;
       save; translate (width / 2) (height / 2); scale zoom zoom;
       translate (- (width / 2)) (- (height / 2));
       fillStyle (css "#8B5CF6"); font "16px Inter"; textAlign "center";
       fillText ("AI Image " ++ decimal (imageIndex + 1))%string
         (width / 2) (height / 2);
       fillText (if loaded then "Generated" else "Loading...")%string
         (width / 2) (height / 2 + 30);
       restore]
      h1.

(** The component's state the compositor touches: the engine reference,
    [null] until the first engine is made, and the page. *)
Record Preview := {
  visualizationEngineRef : option Engine;
  page : Host
}.

Definition renderAIVisualsInternal (isPlaying : bool) (images : list string)
  (p : Preview) : Preview :=
  if (List.length images =? 0)%nat then
    match visualizationEngineRef p with
    | Some e =>
        let '(e', h') := start "milkdrop" previewConfig (e, page p) in
        {| visualizationEngineRef := Some e'; page := h' |}
    | None => p
    end
  else
    {| visualizationEngineRef := visualizationEngineRef p;
       page :=
         aiAnimate images isPlaying
           (repeat 0%Z (frequencyBinCount (analyser (page p)))) (page p) |}.

(** ** Frames and runs *)

Definition invoke (cb : Callback) (s : Engine * Host) : Engine * Host :=
  match cb with
  | EngineAnimate type config => animate type config s
  | AIAnimate images isPlaying data =>
      (fst s, aiAnimate images isPlaying data (snd s))
  end.

(** The host runs the callbacks that were waiting when the frame began, in
    order, skipping one cancelled in the meantime; callbacks requested during
    the frame wait for the next. *)
Fixpoint runCallbacks (todo : list (Z * Callback)) (s : Engine * Host)
  : Engine * Host :=
  match todo with
  | [] => s
  | (handle, cb) :: rest =>
      if existsb (fun r => (fst r =? handle)%Z) (frameRequests (snd s))
      then runCallbacks rest
             (invoke cb (fst s, takeRequest handle cb (snd s)))
      else runCallbacks rest s
  end.

Definition frame (s : Engine * Host) : Engine * Host :=
  runCallbacks (frameRequests (snd s)) s.

(** What can happen to an engine: its two methods are called, a frame fires,
    or time passes and the audio changes. *)
Inductive Event :=
| CallStart (type : string) (config : VisualizationConfig)
| CallStop
| FrameFires
| Environment (clock : Z) (frequency timeDomain : list Z).

Definition step (s : Engine * Host) (ev : Event) : Engine * Host :=
  match ev with
  | CallStart type config => start type config s
  | CallStop => stop s
  | FrameFires => frame s
  | Environment t frequency timeDomain =>
      (fst s,
       setClock t
         (setAnalyser
            {| fftSize := fftSize (analyser (snd s));
               byteFrequencyData := frequency;
               byteTimeDomainData := timeDomain |} (snd s)))
  end.

Definition run (events : list Event) (s : Engine * Host) : Engine * Host :=
  fold_left step events s.

End Rendering.

(** A page with a canvas of the given size, silent audio and nothing
    scheduled; the first animation-frame handle is 1. *)
Definition freshHost (width height : Z) : Host :=
  {| canvas_width := width; canvas_height := height; surface := [];
     analyser := {| fftSize := 2048; byteFrequencyData := [];
                    byteTimeDomainData := [] |};
     clock := 0; randomCalls := 0; frameRequests := []; nextHandle := 1;
     executed := [] |}.

(** A host for the closed examples: the generator always returns 0.5 (no
    jitter) and the trigonometric functions are those of angle 0. *)
Definition stillMath : JSMath :=
  {| Math_cos := fun _ => 1; Math_sin := fun _ => 0; Math_PI := 355 # 113;
     Math_random := fun _ => 0.5 |}.

(** ** Sample caption inputs used by the examples below *)

Definition nl : string := String LF EmptyString.

(** Two blocks in reverse chronological order, the first with markup, and a
    third block that has only two lines. *)
Definition reversedSample : string :=
  ("2" ++ nl ++ "00:00:05,000 --> 00:00:07,500" ++ nl
   ++ "<i>Second</i> line" ++ nl ++ nl
   ++ "1" ++ nl ++ "00:00:01,000 --> 00:00:03,000" ++ nl ++ "First" ++ nl
   ++ nl
   ++ "3" ++ nl ++ "00:00:09,000 --> 00:00:10,000" ++ nl)%string.

(** One block whose first stamp is later than its second. *)
Definition backwardsSample : string :=
  ("1" ++ nl ++ "00:00:05,000 --> 00:00:01,000" ++ nl ++ "hi")%string.

(** The timeline [{0,2,"a"},{3,5,"b"}]. *)
Definition twoEntries : list SRTEntry :=
  [ {| id := 1; startTime := 0; endTime := 2; text := "a" |};
    {| id := 2; startTime := 3; endTime := 5; text := "b" |} ].

(** ** Predicates used in the statements *)

(** The order [sort] establishes. *)
Definition notLater (a b : SRTEntry) : Prop := startTime a <= startTime b.

(** The value of a decimal digit. *)
Definition digitOf (c : ascii) : Z := Z.of_N (N_of_ascii c) - 48.

(** The largest value a stamp can denote: 99:99:99,999. *)
Definition maxStampTime : Q := 362439999 # 1000.

Definition wellFormedStamp (t : Stamp) : Prop :=
  (List.length (hours t) = 2 /\ List.length (minutes t) = 2
   /\ List.length (seconds t) = 2 /\ List.length (milliseconds t) = 3)%nat
  /\ Forall (fun c => isDigit c = true)
       (hours t ++ minutes t ++ seconds t ++ milliseconds t).

(** The lines of a block, as the loop sees them. *)
Definition blockLines (block : jsstring) : list jsstring :=
  lines_of (trim block).

(** The state of the loop as seen from outside: [k] is a handle that is no
    longer in use.  Handles grow, every callback a frame has run had a handle
    below [nextHandle] and other than [k], and the engine either holds no
    handle and nothing is scheduled, or holds the handle of the one callback
    that is scheduled, its own [animate]. *)
Definition Inv (k : Z) (s : Engine * Host) : Prop :=
  (0 <= k < nextHandle (snd s))%Z
  /\ Forall (fun r => (fst r < nextHandle (snd s))%Z /\ fst r <> k)
       (executed (snd s))
  /\ match animationId (fst s) with
     | None => frameRequests (snd s) = []
     | Some handle =>
         (0 < handle < nextHandle (snd s))%Z /\ handle <> k
         /\ exists type config,
              frameRequests (snd s) = [(handle, EngineAnimate type config)]
     end.

(** Between the cancellation and the next request nothing is scheduled. *)
Definition Quiet (k : Z) (s : Engine * Host) : Prop :=
  (0 <= k < nextHandle (snd s))%Z
  /\ Forall (fun r => (fst r < nextHandle (snd s))%Z /\ fst r <> k)
       (executed (snd s))
  /\ frameRequests (snd s) = [].

(** A state with the configuration objects held by the scheduled and the
    executed callbacks replaced by one fixed object: what is left is all a
    renderer can depend on. *)
Definition eraseConfig (r : Z * Callback) : Z * Callback :=
  match snd r with
  | EngineAnimate type _ => (fst r, EngineAnimate type previewConfig)
  | AIAnimate _ _ _ => r
  end.

Definition forgetHost (h : Host) : Host :=
  {| canvas_width := canvas_width h; canvas_height := canvas_height h;
     surface := surface h; analyser := analyser h; clock := clock h;
     randomCalls := randomCalls h;
     frameRequests := map eraseConfig (frameRequests h);
     nextHandle := nextHandle h;
     executed := map eraseConfig (executed h) |}.

Definition forget (s : Engine * Host) : Engine * Host :=
  (fst s, forgetHost (snd s)).

Definition eraseEvent (ev : Event) : Event :=
  match ev with
  | CallStart type _ => CallStart type previewConfig
  | other => other
  end.

(** ** Line segments *)

(** A straight line segment on the canvas. *)
Record Segment := {
  x_from : Q;
  y_from : Q;
  x_to : Q;
  y_to : Q
}.

(** The four calls that draw one segment: a new path, its start, its end,
    and the stroke. *)
Definition segmentCalls (s : Segment) : list cmd :=
  [beginPath; moveTo (x_from s) (y_from s); lineTo (x_to s) (y_to s); stroke].

(** ** The arguments the recursive routines receive in the program *)



(** ** The lines of a caption block, described by their text *)

(** Following the claim's words, a numeric first line: a decimal numeral,
    one or more digits and nothing else. *)
Definition numericLine (line : jsstring) : bool :=
  negb (List.length line =? 0)%nat && forallb isDigit line.

(** Following the claim's words, a second line that is
    [HH:MM:SS,mmm --> HH:MM:SS,mmm]: a stamp, a space, the arrow, a space, a
    stamp, and nothing else. *)
Definition timeRangeLine (line : jsstring) : bool :=
  match stamp line with
  | Some (_, rest) =>
      match rest with
      | c1 :: c2 :: c3 :: c4 :: c5 :: rest' =>
          Ascii.eqb c1 " " && Ascii.eqb c2 "-" && Ascii.eqb c3 "-"
          && Ascii.eqb c4 ">" && Ascii.eqb c5 " "
          && match stamp rest' with
             | Some (_, []) => true
             | _ => false
             end
      | _ => false
      end
  | None => false
  end.

(** The digits [a] to [f] and [A] to [F] besides the decimal ones. *)
Definition isHexDigit (c : ascii) : bool :=
  let n := N_of_ascii c in
  ((48 <=? n) && (n <=? 57) || (97 <=? n) && (n <=? 102)
   || (65 <=? n) && (n <=? 70))%N.

(** A line from which an integer can be read: after any white space and at
    most one sign it goes on with [0x] or [0X] and a hexadecimal digit, or
    with a decimal digit that does not open such a prefix.  What follows the
    digits is free. *)
Definition beginsWithInteger (line : jsstring) : Prop :=
  exists space sign body,
    line = space ++ sign ++ body
    /\ Forall (fun c => isWhiteSpace c = true) space
    /\ (sign = [] \/ sign = ["+"%char] \/ sign = ["-"%char])
    /\ ((exists x d rest,
           body = "0"%char :: x :: d :: rest
           /\ (x = "x"%char \/ x = "X"%char) /\ isHexDigit d = true)
        \/ (exists d rest,
              body = d :: rest /\ isDigit d = true
              /\ ~ (d = "0"%char
                    /\ exists x rest', rest = x :: rest'
                                       /\ (x = "x"%char \/ x = "X"%char)))).

(** The text of a stamp. *)
Definition stampText (t : Stamp) : jsstring :=
  hours t ++ ":"%char :: minutes t ++ ":"%char :: seconds t
  ++ ","%char :: milliseconds t.

Definition arrow : jsstring := ["-"%char; "-"%char; ">"%char].

(** A line that holds a time range somewhere: a stamp, any white space, the
    arrow, any white space, a stamp.  What stands before and after is
    free. *)
Definition containsTimeRange (line : jsstring) : Prop :=
  exists before t1 space1 space2 t2 after,
    wellFormedStamp t1 /\ wellFormedStamp t2
    /\ Forall (fun c => isWhiteSpace c = true) space1
    /\ Forall (fun c => isWhiteSpace c = true) space2
    /\ line = before ++ stampText t1 ++ space1 ++ arrow ++ space2
              ++ stampText t2 ++ after.

(** Two blocks: the first line of the first only begins with a number, and
    the second line of the second only contains a time range. *)
Definition looseSample : string :=
  ("7 up" ++ nl ++ "00:00:01,000 --> 00:00:02,000" ++ nl ++ "hi" ++ nl
   ++ nl
   ++ "8" ++ nl ++ "at 100:00:03,250-->99:99:99,999 tail" ++ nl ++ "ho")%string.

(** ** Counting the calls of a frame *)

Definition isArc (c : cmd) : bool :=
  match c with arc _ _ _ _ _ => true | _ => false end.

Definition isFillRect (c : cmd) : bool :=
  match c with fillRect _ _ _ _ => true | _ => false end.

Definition isLineTo (c : cmd) : bool :=
  match c with lineTo _ _ => true | _ => false end.

Definition isMoveTo (c : cmd) : bool :=
  match c with moveTo _ _ => true | _ => false end.

Definition isFill (c : cmd) : bool :=
  match c with fill => true | _ => false end.

(** How many calls of a kind a list holds. *)
Definition count (kind : cmd -> bool) (cs : list cmd) : nat :=
  List.length (filter kind cs).

(** The particles a bin of value [byte] spawns, in integer arithmetic: none
    below 26, else the integer part of [byte * 10 / 255]. *)
Definition particlesOf (byte : Z) : nat :=
  if (byte * 10 <? 255)%Z then 0%nat else Z.to_nat (byte * 10 / 255).

(** A rectangle that stands on the bottom edge of a canvas of the given
    height and is at most [limit] high. *)
Definition standsWithin (limit height : Q) (c : cmd) : Prop :=
  match c with
  | fillRect _ y _ h => 0 <= h /\ h <= limit /\ y + h == height
  | _ => True
  end.

(** A path point that is not below the bottom edge. *)
Definition notBelow (height : Q) (c : cmd) : Prop :=
  match c with
  | moveTo _ y => y <= height
  | lineTo _ y => y <= height
  | _ => True
  end.

(** A path point between the top and the bottom edge. *)
Definition insideHeight (height : Q) (c : cmd) : Prop :=
  match c with
  | moveTo _ y => 0 <= y /\ y <= height
  | lineTo _ y => 0 <= y /\ y <= height
  | _ => True
  end.

(** ** Runs without a call of [start] *)

Definition isCallStart (ev : Event) : bool :=
  match ev with CallStart _ _ => true | _ => false end.

(** The loop of the engine is armed with handle [k] for [type] and
    [config]. *)
Definition Running (k : Z) (type : string) (config : VisualizationConfig)
  (s : Engine * Host) : Prop :=
  animationId (fst s) = Some k
  /\ frameRequests (snd s) = [(k, EngineAnimate type config)]
  /\ nextHandle (snd s) = (k + 1)%Z.

(** The compositor's own loop is the only thing scheduled. *)
Definition CompositorLoop (images : list string) (h : Host) : Prop :=
  exists handle data,
    frameRequests h = [(handle, AIAnimate images true data)].

(** Two loops of the compositor are scheduled. *)
Definition TwoCompositorLoops (images : list string) (h : Host) : Prop :=
  exists handle data1 data2,
    frameRequests h
    = [(handle, AIAnimate images true data1);
       ((handle + 1)%Z, AIAnimate images true data2)]
    /\ nextHandle h = (handle + 2)%Z.

(** ** The lyric lines of [renderLyricsVideoInternal] *)

Definition SPACE : ascii := ascii_of_nat 32.

Definition isSpace (c : ascii) : bool := Ascii.eqb c SPACE.

(** [text.split(' ')]: the pieces between spaces, [cur] being the piece
    under construction (reversed). *)
Fixpoint splitSpace (cur : jsstring) (s : jsstring) : list jsstring :=
  match s with
  | [] => [rev cur]
  | c :: r =>
      if isSpace c then rev cur :: splitSpace [] r else splitSpace (c :: cur) r
  end.

(** A string used as a condition: only the empty string is falsy. *)
Definition nonEmpty (s : jsstring) : bool :=
  match s with [] => false | _ => true end.

(** The loop [for (const word of words)] and the [if (currentLine)] after
    it.  [measureText testLine] is [ctx.measureText(testLine).width] under
    the font set before the loop, [limit] is [canvas.width * 0.8], and
    [lines.push] appends. *)
Fixpoint wrapWords (measureText : jsstring -> Q) (limit : Q)
  (lines : list jsstring) (currentLine : jsstring) (words : list jsstring)
  : list jsstring :=
  match words with
  | [] => if nonEmpty currentLine then lines ++ [currentLine] else lines
  | word :: rest =>
      let testLine :=
        currentLine ++ (if nonEmpty currentLine then [SPACE] else []) ++ word in
      if Qgt_bool (measureText testLine) limit && nonEmpty currentLine then
        wrapWords measureText limit (lines ++ [currentLine]) word rest
      else
        wrapWords measureText limit lines testLine rest
  end.

(** The [lines] drawn for a lyric. *)
Definition lyricLines (measureText : jsstring -> Q) (h : Host)
  (lyric : SRTEntry) : list jsstring :=
  wrapWords measureText (inject_Z (canvas_width h) * 0.8) [] []
    (splitSpace [] (list_ascii_of_string (text lyric))).

(** The words of a line: its pieces between spaces that are not empty. *)
Definition wordsOf (line : jsstring) : list jsstring :=
  filter nonEmpty (splitSpace [] line).

(** A line that starts with a code unit other than a space. *)
Definition startsWithWord (line : jsstring) : Prop :=
  match line with
  | [] => False
  | c :: _ => c <> SPACE
  end.

(* ================================================================== *)
(** * Part II.  Properties                                              *)
(* ================================================================== *)

(** ** Lists and rationals *)

Lemma find_first (A : Type) (p : A -> bool) (l : list A) :
  match find p l with
  | Some e =>
      exists before after,
        l = before ++ e :: after /\ p e = true
        /\ Forall (fun x => p x = false) before
  | None => Forall (fun x => p x = false) l
  end.
Proof.
  induction l as [|x l IH]; simpl.
  - constructor.
  - destruct (p x) eqn:Hx.
    + exists [], l. repeat split; auto.
    + destruct (find p l) as [e|].
      * destruct IH as (l1 & l2 & -> & He & Hall).
        exists (x :: l1), l2. repeat split; auto.
      * constructor; assumption.
Qed.

Lemma Qle_bool_false (a b : Q) : Qle_bool a b = false <-> b < a.
Proof.
  split; intro H.
  - apply Qnot_le_lt. intro Hle. apply Qle_bool_iff in Hle. congruence.
  - destruct (Qle_bool a b) eqn:E; [|reflexivity].
    apply Qle_bool_iff in E. exfalso. apply (Qlt_not_le _ _ H E).
Qed.

Lemma compare_le (a b : Q) : Qle_bool (a - b) 0 = true <-> a <= b.
Proof. rewrite Qle_bool_iff. split; intro H; lra. Qed.

Lemma compare_gt (a b : Q) : Qle_bool (a - b) 0 = false <-> b < a.
Proof. rewrite Qle_bool_false. split; intro H; lra. Qed.

(** ** [sort] *)


Lemma insertBy_perm (A : Type) (c : A -> A -> Q) (x : A) (l : list A) :
  Permutation (insertBy c x l) (x :: l).
Proof.
  induction l as [|y l IH]; simpl.
  - apply Permutation_refl.
  - destruct (Qle_bool (c x y) 0).
    + apply Permutation_refl.
    + apply Permutation_trans with (y :: x :: l).
      * apply perm_skip, IH.
      * apply perm_swap.
Qed.

Lemma sortBy_perm (A : Type) (c : A -> A -> Q) (l : list A) :
  Permutation (sortBy c l) l.
Proof.
  induction l as [|x l IH]; simpl.
  - constructor.
  - eapply Permutation_trans; [apply insertBy_perm|].
    apply perm_skip, IH.
Qed.

Lemma sortBy_Forall (A : Type) (c : A -> A -> Q) (P : A -> Prop) (l : list A) :
  Forall P l -> Forall P (sortBy c l).
Proof.
  intros H. rewrite Forall_forall in *. intros x Hx. apply H.
  eapply Permutation_in; [apply sortBy_perm|exact Hx].
Qed.

Lemma insertBy_sorted (x : SRTEntry) (l : list SRTEntry) :
  StronglySorted notLater l ->
  StronglySorted notLater (insertBy byStartTime x l).
Proof.
  induction 1 as [|y l Hs IH Hy]; simpl.
  - repeat constructor.
  - unfold byStartTime at 1.
    destruct (Qle_bool (startTime x - startTime y) 0) eqn:E.
    + apply compare_le in E.
      constructor; [constructor; assumption|].
      constructor; [exact E|].
      rewrite Forall_forall in *. intros z Hz.
      unfold notLater in *. eapply Qle_trans; [exact E|]. apply Hy, Hz.
    + apply compare_gt in E.
      constructor; [exact IH|].
      rewrite Forall_forall. intros z Hz.
      apply (Permutation_in _ (insertBy_perm byStartTime x l)) in Hz.
      destruct Hz as [<-|Hz].
      * unfold notLater. apply Qlt_le_weak, E.
      * rewrite Forall_forall in Hy. apply Hy, Hz.
Qed.

Lemma sortBy_sorted (l : list SRTEntry) :
  StronglySorted notLater (sortBy byStartTime l).
Proof.
  induction l as [|x l IH]; simpl.
  - constructor.
  - apply insertBy_sorted, IH.
Qed.

(** ** Tag removal *)

Lemma removeTags_In (c : ascii) (s : jsstring) (b : bool) :
  In c (removeTags b s) -> In c s.
Proof.
  revert b. induction s as [|x s IH]; intros b; simpl; [tauto|].
  destruct b.
  - intros H. right. eapply IH, H.
  - destruct (isLt x && existsb isGt s).
    + intros H. right. eapply IH, H.
    + intros [H|H]; [left; exact H|right; eapply IH, H].
Qed.

Lemma removeTags_no_gt (s : jsstring) (b : bool) :
  existsb isGt s = false -> existsb isGt (removeTags b s) = false.
Proof.
  intros H. destruct (existsb isGt (removeTags b s)) eqn:E; [|reflexivity].
  apply existsb_exists in E. destruct E as (c & Hin & Hc).
  apply removeTags_In in Hin.
  assert (existsb isGt s = true) by (apply existsb_exists; eauto).
  congruence.
Qed.

Lemma removeTags_clean (s : jsstring) (b : bool) :
  hasTag (removeTags b s) = false.
Proof.
  revert b. induction s as [|x s IH]; intros b; simpl; [reflexivity|].
  destruct b; [apply IH|].
  destruct (isLt x && existsb isGt s) eqn:E; [apply IH|].
  simpl. rewrite IH, orb_false_r.
  apply andb_false_iff in E. destruct E as [E|E].
  - rewrite E. reflexivity.
  - rewrite (removeTags_no_gt s false E). apply andb_false_r.
Qed.

(** ** Digits, [parseInt] and the stamps *)


Lemma isDigit_facts (c : ascii) :
  isDigit c = true ->
  isWhiteSpace c = false /\ Ascii.eqb c "-" = false
  /\ Ascii.eqb c "+" = false /\ Ascii.eqb c "x" = false
  /\ Ascii.eqb c "X" = false
  /\ radixDigit 10 c = Some (digitOf c)
  /\ ((0 <=? digitOf c) && (digitOf c <=? 9))%Z = true.
Proof.
  destruct c as [[] [] [] [] [] [] [] []]; intro H;
    try discriminate H; vm_compute; repeat split; reflexivity.
Qed.

Lemma digitOf_range (c : ascii) :
  isDigit c = true -> (0 <= digitOf c <= 9)%Z.
Proof.
  intros H. apply isDigit_facts in H.
  destruct H as (_ & _ & _ & _ & _ & _ & H).
  apply andb_true_iff in H. destruct H as [H1 H2].
  apply Z.leb_le in H1. apply Z.leb_le in H2. split; assumption.
Qed.

Lemma digits_spec (n : nat) (s ds rest : jsstring) :
  digits n s = Some (ds, rest) ->
  List.length ds = n /\ Forall (fun c => isDigit c = true) ds
  /\ s = ds ++ rest.
Proof.
  revert s ds rest. induction n as [|n IH]; intros s ds rest; simpl.
  - intros [= <- <-]. repeat split. constructor.
  - destruct s as [|c r]; [discriminate|].
    destruct (isDigit c) eqn:Hc; [|discriminate].
    destruct (digits n r) as [[ds' rest']|] eqn:Hd; [|discriminate].
    intros [= <- <-]. destruct (IH _ _ _ Hd) as (Hl & Hall & ->).
    repeat split; simpl; auto.
Qed.

(** On a run of decimal digits [parseInt] takes every branch for "no sign,
    no prefix, radix ten". *)
Lemma parseInt_all_digits (c : ascii) (r : jsstring) :
  Forall (fun c => isDigit c = true) (c :: r) ->
  parseInt (c :: r) = parseDigits 10 None (c :: r).
Proof.
  intros H. inversion H as [|? ? Hc Hr]; subst.
  destruct (isDigit_facts c Hc) as (Hw & Hm & Hp & _).
  unfold parseInt, trimStart. simpl dropWhile. rewrite Hw.
  cbv zeta. rewrite Hm, Hp. simpl orb. cbv iota.
  assert (Hhex : match c :: r with
                 | c0 :: c1 :: _ =>
                     Ascii.eqb c0 "0" && (Ascii.eqb c1 "x" || Ascii.eqb c1 "X")
                 | _ => false
                 end = false).
  { destruct r as [|c1 r']; [reflexivity|].
    inversion Hr as [|? ? Hc1 _]; subst.
    destruct (isDigit_facts c1 Hc1) as (_ & _ & _ & Hx & HX & _).
    rewrite Hx, HX. apply andb_false_r. }
  rewrite Hhex.
  destruct (parseDigits 10 None (c :: r)); reflexivity.
Qed.

Lemma parseInt_two_digits (ds : jsstring) :
  List.length ds = 2%nat -> Forall (fun c => isDigit c = true) ds ->
  exists v, parseInt ds = Some v /\ (0 <= v <= 99)%Z.
Proof.
  intros Hl H.
  destruct ds as [|c1 [|c2 [|? ?]]]; try discriminate Hl.
  rewrite (parseInt_all_digits H).
  inversion H as [|? ? H1 H']; subst. inversion H' as [|? ? H2 _]; subst.
  destruct (isDigit_facts c1 H1) as (_ & _ & _ & _ & _ & E1 & _).
  destruct (isDigit_facts c2 H2) as (_ & _ & _ & _ & _ & E2 & _).
  simpl. rewrite E1, E2.
  pose proof (digitOf_range c1 H1). pose proof (digitOf_range c2 H2).
  eexists; split; [reflexivity|lia].
Qed.

Lemma parseInt_three_digits (ds : jsstring) :
  List.length ds = 3%nat -> Forall (fun c => isDigit c = true) ds ->
  exists v, parseInt ds = Some v /\ (0 <= v <= 999)%Z.
Proof.
  intros Hl H.
  destruct ds as [|c1 [|c2 [|c3 [|? ?]]]]; try discriminate Hl.
  rewrite (parseInt_all_digits H).
  inversion H as [|? ? H1 H']; subst. inversion H' as [|? ? H2 H'']; subst.
  inversion H'' as [|? ? H3 _]; subst.
  destruct (isDigit_facts c1 H1) as (_ & _ & _ & _ & _ & E1 & _).
  destruct (isDigit_facts c2 H2) as (_ & _ & _ & _ & _ & E2 & _).
  destruct (isDigit_facts c3 H3) as (_ & _ & _ & _ & _ & E3 & _).
  simpl. rewrite E1, E2, E3.
  pose proof (digitOf_range c1 H1). pose proof (digitOf_range c2 H2).
  pose proof (digitOf_range c3 H3).
  eexists; split; [reflexivity|lia].
Qed.


Lemma stamp_wellFormed (s rest : jsstring) (t : Stamp) :
  stamp s = Some (t, rest) -> wellFormedStamp t.
Proof.
  unfold stamp. intros H.
  destruct (digits 2 s) as [[h s1]|] eqn:D1; [|discriminate].
  destruct (lit ":" s1) as [s2|]; [|discriminate].
  destruct (digits 2 s2) as [[m s3]|] eqn:D2; [|discriminate].
  destruct (lit ":" s3) as [s4|]; [|discriminate].
  destruct (digits 2 s4) as [[sec s5]|] eqn:D3; [|discriminate].
  destruct (lit "," s5) as [s6|]; [|discriminate].
  destruct (digits 3 s6) as [[ms s7]|] eqn:D4; [|discriminate].
  injection H as <- <-.
  apply digits_spec in D1, D2, D3, D4.
  destruct D1 as (L1 & F1 & _), D2 as (L2 & F2 & _),
           D3 as (L3 & F3 & _), D4 as (L4 & F4 & _).
  split; simpl; [tauto|].
  repeat (apply Forall_app; split); assumption.
Qed.

Lemma stampTime_wellFormed (t : Stamp) :
  wellFormedStamp t ->
  exists q, stampTime t = Some q /\ 0 <= q /\ q <= maxStampTime.
Proof.
  intros ((L1 & L2 & L3 & L4) & F).
  apply Forall_app in F. destruct F as [F1 F].
  apply Forall_app in F. destruct F as [F2 F].
  apply Forall_app in F. destruct F as [F3 F4].
  destruct (parseInt_two_digits L1 F1) as (h & Eh & Hh).
  destruct (parseInt_two_digits L2 F2) as (m & Em & Hm).
  destruct (parseInt_two_digits L3 F3) as (s & Es & Hs).
  destruct (parseInt_three_digits L4 F4) as (ms & Ems & Hms).
  unfold stampTime, parseTime. rewrite Eh, Em, Es, Ems.
  eexists; split; [reflexivity|].
  assert (B : forall z lo hi : Z, (lo <= z <= hi)%Z ->
              inject_Z lo <= inject_Z z /\ inject_Z z <= inject_Z hi).
  { intros z lo hi [? ?]. split; rewrite <- Zle_Qle; assumption. }
  apply B in Hh, Hm, Hs, Hms.
  unfold maxStampTime.
  change (inject_Z 0) with 0 in *.
  change (inject_Z 99) with 99 in *. change (inject_Z 999) with 999 in *.
  clear B. destruct Hh, Hm, Hs, Hms.
  generalize dependent (inject_Z h). generalize dependent (inject_Z m).
  generalize dependent (inject_Z s). generalize dependent (inject_Z ms).
  intros. unfold Qdiv. change (/ 1000) with (1 # 1000).
  split; lra.
Qed.

Lemma timeRangeAt_wellFormed (s : jsstring) (t1 t2 : Stamp) :
  timeRangeAt s = Some (t1, t2) -> wellFormedStamp t1 /\ wellFormedStamp t2.
Proof.
  unfold timeRangeAt. intros H.
  destruct (stamp s) as [[a s1]|] eqn:S1; [|discriminate].
  destruct (lit "-" (dropWhile isWhiteSpace s1)) as [s2|]; [|discriminate].
  destruct (lit "-" s2) as [s3|]; [|discriminate].
  destruct (lit ">" s3) as [s4|]; [|discriminate].
  destruct (stamp (dropWhile isWhiteSpace s4)) as [[b s5]|] eqn:S2;
    [|discriminate].
  injection H as <- <-.
  split; eapply stamp_wellFormed; eassumption.
Qed.

Lemma timeMatch_wellFormed (line : jsstring) (t1 t2 : Stamp) :
  timeMatch line = Some (t1, t2) -> wellFormedStamp t1 /\ wellFormedStamp t2.
Proof.
  induction line as [|c r IH]; simpl.
  - discriminate.
  - destruct (timeRangeAt (c :: r)) as [[a b]|] eqn:E.
    + intros [= <- <-]. eapply timeRangeAt_wellFormed, E.
    + exact IH.
Qed.

(** ** The loop over the blocks *)


Lemma parseBlock_None (block : jsstring) :
  parseBlock block = None <->
  (List.length (blockLines block) < 3)%nat
  \/ parseInt (nth 0 (blockLines block) []) = None
  \/ timeMatch (nth 1 (blockLines block) []) = None.
Proof.
  unfold parseBlock, blockLines.
  destruct (Nat.ltb_spec (List.length (lines_of (trim block))) 3) as [Hl|Hl].
  { split; auto. }
  destruct (parseInt (nth 0 (lines_of (trim block)) [])) as [i|].
  2:{ split; auto. }
  destruct (timeMatch (nth 1 (lines_of (trim block)) [])) as [[t1 t2]|] eqn:Ht.
  2:{ split; auto. }
  destruct (timeMatch_wellFormed _ Ht) as [W1 W2].
  destruct (stampTime_wellFormed W1) as (q1 & -> & _).
  destruct (stampTime_wellFormed W2) as (q2 & -> & _).
  split; [discriminate|].
  intros [H|[H|H]]; [lia|discriminate|discriminate].
Qed.

Lemma parseBlock_Some (block : jsstring) (e : SRTEntry) :
  parseBlock block = Some e ->
  exists t1 t2,
    parseInt (nth 0 (blockLines block) []) = Some (id e)
    /\ timeMatch (nth 1 (blockLines block) []) = Some (t1, t2)
    /\ stampTime t1 = Some (startTime e)
    /\ stampTime t2 = Some (endTime e)
    /\ text e = string_of_list_ascii
                  (removeTags false (joinLF (skipn 2 (blockLines block)))).
Proof.
  unfold parseBlock, blockLines.
  destruct (List.length (lines_of (trim block)) <? 3)%nat; [discriminate|].
  destruct (parseInt (nth 0 (lines_of (trim block)) [])) as [i|];
    [|discriminate].
  destruct (timeMatch (nth 1 (lines_of (trim block)) [])) as [[t1 t2]|];
    [|discriminate].
  destruct (stampTime t1) as [q1|] eqn:E1; [|discriminate].
  destruct (stampTime t2) as [q2|] eqn:E2; [|discriminate].
  intros [= <-]. exists t1, t2. simpl. auto.
Qed.

Lemma collectEntries_In (blocks : list jsstring) (e : SRTEntry) :
  In e (collectEntries blocks) <->
  exists block, In block blocks /\ parseBlock block = Some e.
Proof.
  induction blocks as [|b bs IH]; simpl.
  - split; [tauto|]. intros (? & [] & _).
  - destruct (parseBlock b) as [e'|] eqn:E; simpl; rewrite IH; split.
    + intros [<-|(b' & Hin & Hb')]; eauto.
    + intros (b' & [<-|Hin] & Hb'); [left; congruence|right; eauto].
    + intros (b' & Hin & Hb'); eauto.
    + intros (b' & [<-|Hin] & Hb'); [congruence|eauto].
Qed.

Lemma parseSRT_In (content : string) (e : SRTEntry) :
  In e (parseSRT content) <->
  exists block,
    In block (blocks_of (list_ascii_of_string content))
    /\ parseBlock block = Some e.
Proof.
  rewrite <- collectEntries_In. unfold parseSRT. split; intro H.
  - eapply Permutation_in; [apply sortBy_perm|exact H].
  - eapply Permutation_in; [apply Permutation_sym, sortBy_perm|exact H].
Qed.

(** ** The tests of the loop, read on the text of the lines *)

Lemma dropWhile_space_split (s : jsstring) :
  exists space,
    s = space ++ dropWhile isWhiteSpace s
    /\ Forall (fun c => isWhiteSpace c = true) space
    /\ match dropWhile isWhiteSpace s with
       | c :: _ => isWhiteSpace c = false
       | [] => True
       end.
Proof.
  induction s as [|c s (space & E & F & H)]; simpl.
  - exists []. repeat split. constructor.
  - destruct (isWhiteSpace c) eqn:Hc.
    + exists (c :: space). split; [simpl; f_equal; exact E|].
      split; [constructor; assumption|exact H].
    + exists []. split; [reflexivity|]. split; [constructor|exact Hc].
Qed.

Lemma dropWhile_space_padding (space s : jsstring) :
  Forall (fun c => isWhiteSpace c = true) space ->
  dropWhile isWhiteSpace (space ++ s) = dropWhile isWhiteSpace s.
Proof.
  induction 1 as [|c space Hc _ IH]; [reflexivity|].
  simpl. rewrite Hc. exact IH.
Qed.

Lemma dropWhile_space_head (c : ascii) (s : jsstring) :
  isWhiteSpace c = false -> dropWhile isWhiteSpace (c :: s) = c :: s.
Proof. intros H. simpl. rewrite H. reflexivity. Qed.

(** What the code units used below are and are not. *)
Lemma radixDigit_classes (c : ascii) :
  (isDigit c = true <-> exists v, radixDigit 10 c = Some v)
  /\ (isHexDigit c = true <-> exists v, radixDigit 16 c = Some v)
  /\ (isDigit c = true -> isWhiteSpace c = false)
  /\ (isDigit c = true -> Ascii.eqb c "-" = false /\ Ascii.eqb c "+" = false).
Proof.
  assert (N : forall o : option Z, (exists v, o = Some v) <-> o <> None).
  { intros [v|]; split; intros H; try congruence; eauto.
    destruct H as (v & H). discriminate. }
  rewrite !N.
  destruct c as [[] [] [] [] [] [] [] []]; vm_compute;
    repeat split; intros; congruence.
Qed.

Lemma parseDigits_started (radix a : Z) (s : jsstring) :
  exists v, parseDigits radix (Some a) s = Some v.
Proof.
  revert a. induction s as [|c s IH]; intros a; simpl; [eauto|].
  destruct (radixDigit radix c); [apply IH|eauto].
Qed.

Lemma parseDigits_Some (radix : Z) (s : jsstring) :
  (exists v, parseDigits radix None s = Some v) <->
  exists d rest v, s = d :: rest /\ radixDigit radix d = Some v.
Proof.
  destruct s as [|c s]; simpl.
  - split; [intros (v & H); discriminate|].
    intros (d & rest & v & H & _). discriminate.
  - destruct (radixDigit radix c) as [v|] eqn:E; split.
    + intros _. exists c, s, v. auto.
    + intros _. apply parseDigits_started.
    + intros (w & H). discriminate.
    + intros (d & rest & w & [= <- <-] & H). congruence.
Qed.

(** The part of [parseInt] after white space and sign. *)
Lemma parseInt_body (body : jsstring) :
  let hex :=
    match body with
    | c0 :: c1 :: _ =>
        Ascii.eqb c0 "0" && (Ascii.eqb c1 "x" || Ascii.eqb c1 "X")
    | _ => false
    end in
  (exists v,
      parseDigits (if hex then 16%Z else 10%Z) None
        (if hex then skipn 2 body else body) = Some v)
  <-> ((exists x d rest,
           body = "0"%char :: x :: d :: rest
           /\ (x = "x"%char \/ x = "X"%char) /\ isHexDigit d = true)
       \/ (exists d rest,
             body = d :: rest /\ isDigit d = true
             /\ ~ (d = "0"%char
                   /\ exists x rest', rest = x :: rest'
                                      /\ (x = "x"%char \/ x = "X"%char)))).
Proof.
  cbv zeta.
  assert (D : forall c, isDigit c = true <-> exists v, radixDigit 10 c = Some v)
    by (intros c; apply radixDigit_classes).
  assert (X : forall c,
             isHexDigit c = true <-> exists v, radixDigit 16 c = Some v)
    by (intros c; apply radixDigit_classes).
  destruct body as [|c0 [|c1 r]].
  - rewrite parseDigits_Some. split.
    + intros (d & rest & v & H & _). discriminate.
    + intros [(x & d & rest & H & _)|(d & rest & H & _)]; discriminate.
  - rewrite parseDigits_Some. split.
    + intros (d & rest & v & [= <- <-] & H). right. exists c0, [].
      split; [reflexivity|]. split; [apply D; eauto|].
      intros (_ & x & rest' & H' & _). discriminate.
    + intros [(x & d & rest & H & _)|(d & rest & [= <- <-] & H & _)];
        [discriminate|].
      apply D in H. destruct H as (v & H). exists c0, [], v. auto.
  - destruct (Ascii.eqb_spec c0 "0") as [E0|E0];
      [destruct (Ascii.eqb_spec c1 "x") as [E1|E1];
       [|destruct (Ascii.eqb_spec c1 "X") as [E2|E2]]|];
      cbn [andb orb skipn]; rewrite parseDigits_Some.
    + (* the prefix 0x *)
      subst. split.
      * intros (d & rest & v & -> & H). left. exists "x"%char, d, rest.
        split; [reflexivity|]. split; [auto|]. apply X. eauto.
      * intros [(x & d & rest & [= _ Hr] & _ & H)
               |(d & rest & [= <- <-] & _ & H)].
        -- apply X in H. destruct H as (v & H). exists d, rest, v. auto.
        -- exfalso. apply H. split; [reflexivity|]. eauto.
    + (* the prefix 0X *)
      subst. split.
      * intros (d & rest & v & -> & H). left. exists "X"%char, d, rest.
        split; [reflexivity|]. split; [auto|]. apply X. eauto.
      * intros [(x & d & rest & [= _ Hr] & _ & H)
               |(d & rest & [= <- <-] & _ & H)].
        -- apply X in H. destruct H as (v & H). exists d, rest, v. auto.
        -- exfalso. apply H. split; [reflexivity|]. eauto.
    + (* a zero that opens no prefix *)
      split.
      * intros (d & rest & v & [= <- <-] & H). right. exists c0, (c1 :: r).
        split; [reflexivity|]. split; [apply D; eauto|].
        intros (_ & x & rest' & [= <- <-] & [H'|H']); contradiction.
      * intros [(x & d & rest & [= _ <- _] & [H'|H'] & _)
               |(d & rest & [= <- <-] & H & _)]; try contradiction.
        apply D in H. destruct H as (v & H). exists c0, (c1 :: r), v. auto.
    + (* no zero *)
      split.
      * intros (d & rest & v & [= <- <-] & H). right. exists c0, (c1 :: r).
        split; [reflexivity|]. split; [apply D; eauto|].
        intros (H' & _). contradiction.
      * intros [(x & d & rest & [= H' _ _] & _)
               |(d & rest & [= <- <-] & H & _)]; [contradiction|].
        apply D in H. destruct H as (v & H). exists c0, (c1 :: r), v. auto.
Qed.

(** [parseInt] yields a number exactly on the lines that begin with an
    integer. *)
Lemma parseInt_reads (line : jsstring) :
  (exists v, parseInt line = Some v) <-> beginsWithInteger line.
Proof.
  assert (O : forall (o : option Z) (f : Z -> Z),
             (exists v, option_map f o = Some v) <-> exists v, o = Some v).
  { intros [w|] f; simpl; split; intros (v & H); try discriminate; eauto. }
  unfold parseInt, trimStart. cbv zeta. rewrite O.
  split.
  - destruct (dropWhile_space_split line) as (space & E & F & Hhead).
    destruct (dropWhile isWhiteSpace line) as [|c r] eqn:Es.
    + intros (v & H). discriminate.
    + destruct (Ascii.eqb_spec c "-") as [Em|Em];
        [|destruct (Ascii.eqb_spec c "+") as [Ep|Ep]]; cbn [orb];
        intros H.
      * pose proof (proj1 (parseInt_body r) H) as B.
        exists space, ["-"%char], r. subst c.
        split; [exact E|]. split; [exact F|]. split; [auto|exact B].
      * pose proof (proj1 (parseInt_body r) H) as B.
        exists space, ["+"%char], r. subst c.
        split; [exact E|]. split; [exact F|]. split; [auto|exact B].
      * pose proof (proj1 (parseInt_body (c :: r)) H) as B.
        exists space, [], (c :: r).
        split; [exact E|]. split; [exact F|]. split; [auto|exact B].
  - intros (space & sign & body & -> & F & Hsign & Hbody).
    rewrite (dropWhile_space_padding _ F).
    assert (Hd : exists d rest, body = d :: rest /\ isDigit d = true).
    { destruct Hbody as [(x & d & rest & -> & _)|(d & rest & -> & H & _)];
        eauto. }
    destruct Hd as (d & rest & Eb & Hd).
    destruct (radixDigit_classes d) as (_ & _ & W & Sg).
    specialize (W Hd). destruct (Sg Hd) as [Sm Sp].
    destruct Hsign as [-> | [-> | ->]].
    + subst body. cbn [app].
      rewrite (@dropWhile_space_head d rest W), Sm, Sp. cbn [orb].
      exact (proj2 (parseInt_body (d :: rest)) Hbody).
    + cbn [app]. rewrite dropWhile_space_head by reflexivity.
      exact (proj2 (parseInt_body body) Hbody).
    + cbn [app]. rewrite dropWhile_space_head by reflexivity.
      exact (proj2 (parseInt_body body) Hbody).
Qed.

Lemma lit_spec (c : ascii) (s rest : jsstring) :
  lit c s = Some rest <-> s = c :: rest.
Proof.
  destruct s as [|x r]; simpl; [split; discriminate|].
  destruct (Ascii.eqb_spec x c) as [->|N]; split; intros H.
  - injection H as ->. reflexivity.
  - injection H as ->. reflexivity.
  - discriminate.
  - injection H as E _. contradiction.
Qed.

Lemma digits_app (ds rest : jsstring) :
  Forall (fun c => isDigit c = true) ds ->
  digits (List.length ds) (ds ++ rest) = Some (ds, rest).
Proof.
  induction 1 as [|c ds Hc _ IH]; [reflexivity|].
  simpl. rewrite Hc, IH. reflexivity.
Qed.

Lemma stampText_app (t : Stamp) (rest : jsstring) :
  stampText t ++ rest
  = hours t ++ ":"%char :: minutes t ++ ":"%char :: seconds t
    ++ ","%char :: milliseconds t ++ rest.
Proof.
  unfold stampText.
  repeat (rewrite <- app_assoc; rewrite <- app_comm_cons).
  reflexivity.
Qed.

(** What [stamp] matches is the text of the stamp it returns. *)
Lemma stamp_text (s rest : jsstring) (t : Stamp) :
  stamp s = Some (t, rest) -> s = stampText t ++ rest.
Proof.
  unfold stamp. intros H.
  destruct (digits 2 s) as [[h s1]|] eqn:D1; [|discriminate].
  destruct (lit ":" s1) as [s2|] eqn:L1; [|discriminate].
  destruct (digits 2 s2) as [[m s3]|] eqn:D2; [|discriminate].
  destruct (lit ":" s3) as [s4|] eqn:L2; [|discriminate].
  destruct (digits 2 s4) as [[sec s5]|] eqn:D3; [|discriminate].
  destruct (lit "," s5) as [s6|] eqn:L3; [|discriminate].
  destruct (digits 3 s6) as [[ms s7]|] eqn:D4; [|discriminate].
  injection H as <- <-.
  apply digits_spec in D1, D2, D3, D4.
  apply lit_spec in L1, L2, L3.
  destruct D1 as (_ & _ & ->), D2 as (_ & _ & ->),
           D3 as (_ & _ & ->), D4 as (_ & _ & ->).
  rewrite stampText_app. simpl. congruence.
Qed.

(** The text of a well-formed stamp is matched as that stamp. *)
Lemma stamp_stampText (t : Stamp) (rest : jsstring) :
  wellFormedStamp t -> stamp (stampText t ++ rest) = Some (t, rest).
Proof.
  intros ((L1 & L2 & L3 & L4) & F).
  apply Forall_app in F. destruct F as [F1 F].
  apply Forall_app in F. destruct F as [F2 F].
  apply Forall_app in F. destruct F as [F3 F4].
  rewrite stampText_app. unfold stamp.
  rewrite <- L1 at 1. rewrite (digits_app _ F1). cbn [lit].
  rewrite Ascii.eqb_refl.
  rewrite <- L2 at 1. rewrite (digits_app _ F2). cbn [lit].
  rewrite Ascii.eqb_refl.
  rewrite <- L3 at 1. rewrite (digits_app _ F3). cbn [lit].
  rewrite Ascii.eqb_refl.
  rewrite <- L4 at 1. rewrite (digits_app _ F4).
  destruct t. reflexivity.
Qed.

Lemma stampText_head (t : Stamp) (rest : jsstring) :
  wellFormedStamp t ->
  exists d r, stampText t ++ rest = d :: r /\ isDigit d = true.
Proof.
  intros ((L1 & _) & F). rewrite stampText_app.
  destruct (hours t) as [|d r]; [discriminate|].
  inversion F; subst. simpl. eauto.
Qed.

(** What the pattern matches at the head of a text. *)
Lemma timeRangeAt_text (s : jsstring) (t1 t2 : Stamp) :
  timeRangeAt s = Some (t1, t2) ->
  exists space1 space2 after,
    Forall (fun c => isWhiteSpace c = true) space1
    /\ Forall (fun c => isWhiteSpace c = true) space2
    /\ s = stampText t1 ++ space1 ++ arrow ++ space2 ++ stampText t2 ++ after.
Proof.
  unfold timeRangeAt. intros H.
  destruct (stamp s) as [[a s1]|] eqn:S1; [|discriminate].
  destruct (dropWhile_space_split s1) as (space1 & E1 & F1 & _).
  destruct (lit "-" (dropWhile isWhiteSpace s1)) as [s2|] eqn:L1;
    [|discriminate].
  destruct (lit "-" s2) as [s3|] eqn:L2; [|discriminate].
  destruct (lit ">" s3) as [s4|] eqn:L3; [|discriminate].
  destruct (dropWhile_space_split s4) as (space2 & E2 & F2 & _).
  destruct (stamp (dropWhile isWhiteSpace s4)) as [[b s5]|] eqn:S2;
    [|discriminate].
  injection H as <- <-.
  apply stamp_text in S1, S2. apply lit_spec in L1, L2, L3.
  exists space1, space2, s5. split; [exact F1|]. split; [exact F2|].
  rewrite S1, E1, L1, L2, L3, E2, S2. reflexivity.
Qed.

Lemma timeRangeAt_stampText (t1 t2 : Stamp) (space1 space2 after : jsstring) :
  wellFormedStamp t1 -> wellFormedStamp t2 ->
  Forall (fun c => isWhiteSpace c = true) space1 ->
  Forall (fun c => isWhiteSpace c = true) space2 ->
  timeRangeAt (stampText t1 ++ space1 ++ arrow ++ space2 ++ stampText t2
               ++ after) = Some (t1, t2).
Proof.
  intros W1 W2 F1 F2. unfold timeRangeAt.
  rewrite (stamp_stampText _ W1), (dropWhile_space_padding _ F1).
  cbn [arrow app dropWhile]. change (isWhiteSpace "-") with false.
  repeat (cbn [lit]; rewrite Ascii.eqb_refl).
  rewrite (dropWhile_space_padding _ F2).
  destruct (stampText_head after W2) as (d & r & E & Hd).
  destruct (radixDigit_classes d) as (_ & _ & Hw & _).
  rewrite E, (@dropWhile_space_head d r (Hw Hd)), <- E.
  rewrite (stamp_stampText _ W2). reflexivity.
Qed.

(** [match] finds the pattern exactly in the lines that contain a time
    range. *)
Lemma timeMatch_finds (line : jsstring) :
  (exists g, timeMatch line = Some g) <-> containsTimeRange line.
Proof.
  split.
  - intros ([t1 t2] & H).
    assert (P : exists before s,
              line = before ++ s /\ timeRangeAt s = Some (t1, t2)).
    { induction line as [|c r IH]; simpl in H.
      - discriminate.
      - destruct (timeRangeAt (c :: r)) as [g|] eqn:E.
        + exists [], (c :: r). split; [reflexivity|congruence].
        + destruct (IH H) as (before & s & -> & Hs).
          exists (c :: before), s. auto. }
    destruct P as (before & s & -> & Hs).
    destruct (timeRangeAt_wellFormed _ Hs) as [W1 W2].
    destruct (timeRangeAt_text _ Hs) as (sp1 & sp2 & after & F1 & F2 & ->).
    exists before, t1, sp1, sp2, t2, after. auto 6.
  - intros (before & t1 & sp1 & sp2 & t2 & after & W1 & W2 & F1 & F2 & ->).
    pose proof (timeRangeAt_stampText after W1 W2 F1 F2) as H.
    induction before as [|c r IH].
    + destruct (stampText_head
                  (sp1 ++ arrow ++ sp2 ++ stampText t2 ++ after) W1)
        as (d & r & E & _).
      cbn [app]. rewrite E in *. simpl. rewrite H. eauto.
    + cbn [app]. simpl. destruct (timeRangeAt (c :: r ++ _)); eauto.
Qed.

(** ** The claims about the caption timeline *)

(** C4, amended.  For every input string, [parseSRT] returns its entries
    sorted ascending by [startTime] whatever the order of the blocks; the
    entries are exactly those of the blocks that pass the three tests of the
    loop, and no markup tag is left in the text of any entry.  A block is
    skipped exactly when it has fewer than three lines, or [parseInt] reads
    no number from its first line, or the pattern matches nowhere in its
    second line.  Read on the text: [parseInt] reads a number from exactly
    the lines that begin with an integer (after white space and a sign,
    whatever follows the digits), and the pattern matches in exactly the
    lines that contain a time range (whatever stands around it).  On the
    sample (two blocks in reverse order with [<i>] markup and a two-line
    block) the result is the two entries in chronological order. *)
Theorem parseSRT_sorted_skips_strips (content : string) :
  let blocks := blocks_of (list_ascii_of_string content) in
  StronglySorted (fun a b => startTime a <= startTime b) (parseSRT content)
  /\ Permutation (parseSRT content) (collectEntries blocks)
  /\ (forall e, In e (parseSRT content) <->
                exists block, In block blocks /\ parseBlock block = Some e)
  /\ (forall block,
        parseBlock block = None <->
        (List.length (lines_of (trim block)) < 3)%nat
        \/ parseInt (nth 0 (lines_of (trim block)) []) = None
        \/ timeMatch (nth 1 (lines_of (trim block)) []) = None)
  /\ (forall block,
        parseBlock block = None <->
        (List.length (lines_of (trim block)) < 3)%nat
        \/ ~ beginsWithInteger (nth 0 (lines_of (trim block)) [])
        \/ ~ containsTimeRange (nth 1 (lines_of (trim block)) []))
  /\ (forall line, parseInt line = None <-> ~ beginsWithInteger line)
  /\ (forall line, timeMatch line = None <-> ~ containsTimeRange line)
  /\ Forall (fun e => hasTag (list_ascii_of_string (text e)) = false)
       (parseSRT content)
  /\ parseSRT reversedSample =
       [ {| id := 1; startTime := 1.000; endTime := 3.000;
            text := "First" |};
         {| id := 2; startTime := 5.000; endTime := 7.500;
            text := "Second line" |} ].
Proof.
  cbv zeta.
  assert (N : forall (A : Type) (o : option A) (P : Prop),
             ((exists v, o = Some v) <-> P) -> (o = None <-> ~ P)).
  { intros A [v|] P [H1 H2]; split; intros H.
    - discriminate.
    - exfalso. apply H, H1. eauto.
    - intros HP. destruct (H2 HP) as (v & Hv). discriminate.
    - reflexivity. }
  assert (I : forall line, parseInt line = None <-> ~ beginsWithInteger line)
    by (intros line; apply N, parseInt_reads).
  assert (T : forall line, timeMatch line = None <-> ~ containsTimeRange line)
    by (intros line; apply N, timeMatch_finds).
  split; [|split; [|split; [|split; [|split; [|split; [|split; [|split]]]]]]].
  - apply sortBy_sorted.
  - apply sortBy_perm.
  - intros e. apply parseSRT_In.
  - intros block. apply parseBlock_None.
  - intros block. rewrite <- I, <- T. apply parseBlock_None.
  - exact I.
  - exact T.
  - rewrite Forall_forall. intros e He.
    apply parseSRT_In in He. destruct He as (block & _ & Hb).
    apply parseBlock_Some in Hb.
    destruct Hb as (t1 & t2 & _ & _ & _ & _ & ->).
    rewrite list_ascii_of_string_of_list_ascii. apply removeTags_clean.
  - vm_compute. reflexivity.
Qed.

(** C4, as the claim states it, fails.  In the sample the first line of the
    first block, [7 up], is not numeric, and the second line of the second
    block, [at 100:00:03,250-->99:99:99,999 tail], is not a line
    [HH:MM:SS,mmm --> HH:MM:SS,mmm]; yet neither block is skipped: the first
    gives the entry with id 7, the second the entry from 3.25 s to
    362439.999 s. *)
Lemma parseSRT_keeps_loose_lines :
  map blockLines (blocks_of (list_ascii_of_string looseSample))
  = [ [list_ascii_of_string "7 up";
       list_ascii_of_string "00:00:01,000 --> 00:00:02,000";
       list_ascii_of_string "hi"];
      [list_ascii_of_string "8";
       list_ascii_of_string "at 100:00:03,250-->99:99:99,999 tail";
       list_ascii_of_string "ho"] ]
  /\ numericLine (list_ascii_of_string "7 up") = false
  /\ numericLine (list_ascii_of_string "8") = true
  /\ timeRangeLine
       (list_ascii_of_string "at 100:00:03,250-->99:99:99,999 tail") = false
  /\ timeRangeLine (list_ascii_of_string "00:00:01,000 --> 00:00:02,000")
     = true
  /\ parseSRT looseSample =
       [ {| id := 7; startTime := 1.000; endTime := 2.000; text := "hi" |};
         {| id := 8; startTime := 3.250; endTime := 362439.999;
            text := "ho" |} ].
Proof. repeat split; vm_compute; reflexivity. Qed.

(** C6.  [getCurrentLyric] returns the first entry in list order with
    [startTime <= t <= endTime], and [getUpcomingLyric] the first with
    [startTime > t]; each returns nothing exactly when no entry qualifies.
    On the timeline [{0,2,"a"},{3,5,"b"}] the entry current at [t = 1] is
    "a", none is current at [t = 2.5], and the entry upcoming at [t = 2.5] is
    "b". *)
Theorem lyric_lookup_first_match (entries : list SRTEntry) (t : Q) :
  match getCurrentLyric entries t with
  | Some e =>
      exists before after,
        entries = before ++ e :: after
        /\ (startTime e <= t /\ t <= endTime e)
        /\ Forall (fun x => ~ (startTime x <= t /\ t <= endTime x)) before
  | None => Forall (fun x => ~ (startTime x <= t /\ t <= endTime x)) entries
  end
  /\ match getUpcomingLyric entries t with
     | Some e =>
         exists before after,
           entries = before ++ e :: after
           /\ t < startTime e
           /\ Forall (fun x => ~ t < startTime x) before
     | None => Forall (fun x => ~ t < startTime x) entries
     end
  /\ option_map text (getCurrentLyric twoEntries 1) = Some "a"%string
  /\ getCurrentLyric twoEntries 2.5 = None
  /\ option_map text (getUpcomingLyric twoEntries 2.5) = Some "b"%string.
Proof.
  assert (Hcur : forall x : SRTEntry,
            Qle_bool (startTime x) t && Qle_bool t (endTime x) = false ->
            ~ (startTime x <= t /\ t <= endTime x)).
  { intros x Hx [H1 H2]. apply Qle_bool_iff in H1, H2.
    rewrite H1, H2 in Hx. discriminate. }
  assert (Hup : forall x : SRTEntry,
            negb (Qle_bool (startTime x) t) = false -> ~ t < startTime x).
  { intros x Hx Hlt. apply negb_false_iff, Qle_bool_iff in Hx.
    apply (Qlt_not_le _ _ Hlt Hx). }
  split; [|split; [|repeat split]].
  - unfold getCurrentLyric.
    pose proof (find_first
      (fun entry => Qle_bool (startTime entry) t
                    && Qle_bool t (endTime entry)) entries) as H.
    destruct (find _ entries) as [e|].
    + destruct H as (l1 & l2 & -> & He & Hall). exists l1, l2.
      apply andb_true_iff in He. destruct He as [H1 H2].
      apply Qle_bool_iff in H1, H2. repeat split; auto.
      eapply Forall_impl; [|exact Hall]. exact Hcur.
    + eapply Forall_impl; [|exact H]. exact Hcur.
  - unfold getUpcomingLyric.
    pose proof (find_first
      (fun entry => negb (Qle_bool (startTime entry) t)) entries) as H.
    destruct (find _ entries) as [e|].
    + destruct H as (l1 & l2 & -> & He & Hall). exists l1, l2.
      apply negb_true_iff, Qle_bool_false in He. repeat split; auto.
      eapply Forall_impl; [|exact Hall]. exact Hup.
    + eapply Forall_impl; [|exact H]. exact Hup.
Qed.

(** C10, as the claim states it, fails: a block whose first stamp is the
    later one yields an entry with [startTime = 5] and [endTime = 1]. *)
Lemma parseSRT_backwards_entry :
  parseSRT backwardsSample =
    [ {| id := 1; startTime := 5.000; endTime := 1.000; text := "hi" |} ]
  /\ ~ Forall (fun e => startTime e <= endTime e) (parseSRT backwardsSample).
Proof.
  assert (E : parseSRT backwardsSample =
    [ {| id := 1; startTime := 5.000; endTime := 1.000; text := "hi" |} ])
    by (vm_compute; reflexivity).
  split; [exact E|].
  rewrite E. intros H. inversion H as [|? ? Hle _]; subst.
  simpl in Hle. revert Hle. apply Qlt_not_le. reflexivity.
Qed.

(** C10, amended.  For every input string, the [startTime] and [endTime] of
    every entry returned by [parseSRT] are the values of the first and of the
    second stamp matched in the second line of one of the blocks, each
    between 0 and 362439.999 seconds (99:99:99,999); the two are not compared
    with each other. *)
Theorem parseSRT_times_from_stamps (content : string) :
  Forall (fun e =>
            exists block t1 t2,
              In block (blocks_of (list_ascii_of_string content))
              /\ timeMatch (nth 1 (lines_of (trim block)) []) = Some (t1, t2)
              /\ stampTime t1 = Some (startTime e)
              /\ stampTime t2 = Some (endTime e)
              /\ (0 <= startTime e /\ startTime e <= maxStampTime)
              /\ (0 <= endTime e /\ endTime e <= maxStampTime))
    (parseSRT content).
Proof.
  rewrite Forall_forall. intros e He.
  apply parseSRT_In in He. destruct He as (block & Hin & Hb).
  apply parseBlock_Some in Hb.
  destruct Hb as (t1 & t2 & _ & Hm & H1 & H2 & _).
  exists block, t1, t2.
  destruct (timeMatch_wellFormed _ Hm) as [W1 W2].
  destruct (stampTime_wellFormed W1) as (q1 & E1 & B1).
  destruct (stampTime_wellFormed W2) as (q2 & E2 & B2).
  rewrite H1 in E1. rewrite H2 in E2. injection E1 as <-. injection E2 as <-.
  repeat split; tauto.
Qed.

(** ** Peak detection *)

Lemma gtElement_nth (data : list Z) (i j : nat) :
  (i < List.length data)%nat -> (j < List.length data)%nat ->
  gtElement (nth_error data i) (nth_error data j)
  = (nth j data 0 <? nth i data 0)%Z.
Proof.
  intros Hi Hj.
  rewrite (nth_error_nth' data 0%Z Hi), (nth_error_nth' data 0%Z Hj).
  reflexivity.
Qed.

Lemma findPeaks_In (data : list Z) (n : nat) (p : Peak) :
  In p (findPeaks data n) <->
  (1 <= index p /\ index p + 1 < n)%nat
  /\ isPeak data (index p) = true
  /\ amplitude p = byteAt data (index p) / 255.
Proof.
  unfold findPeaks. rewrite in_flat_map. split.
  - intros (i & Hi & Hp). apply in_seq in Hi.
    destruct (isPeak data i) eqn:E; [|contradiction].
    destruct Hp as [<-|[]]. simpl. repeat split; try lia. exact E.
  - intros (Hi & Hp & Ha). exists (index p). split.
    + apply in_seq. lia.
    + rewrite Hp. left. destruct p as [i a]. simpl in *. subst a. reflexivity.
Qed.

Lemma isPeak_rule (data : list Z) (i : nat) :
  (1 <= i /\ i + 1 < List.length data)%nat ->
  isPeak data i = true <->
  (nth (i - 1) data 0 < nth i data 0
   /\ nth (i + 1) data 0 < nth i data 0
   /\ 100 < nth i data 0)%Z.
Proof.
  intros Hi. unfold isPeak.
  rewrite !gtElement_nth by lia.
  rewrite (nth_error_nth' data 0%Z) by lia. simpl gtElement.
  rewrite !andb_true_iff, !Z.ltb_lt. tauto.
Qed.

(** C1, as the claim states it, fails: on the snapshot bin 6 is detected
    as well (210 exceeds 100 and both its neighbours 190 and 30), so the
    detected set is not [{2,4}]. *)
Lemma findPeaks_snapshot_detects_6 :
  In 6%nat (map index (findPeaks snapshot 8))
  /\ map index (findPeaks snapshot 8) <> [2; 4]%nat.
Proof.
  split.
  - vm_compute. tauto.
  - vm_compute. discriminate.
Qed.

(** C1, amended.  Peak detection scans only the interior bins and detects
    bin [i] exactly when its value is strictly greater than 100 and strictly
    greater than both neighbours (an equal neighbour disqualifies; bins 0 and
    N-1 are never peaks).  On the snapshot [0,50,120,40,200,190,210,30] it
    detects exactly the bins 2, 4 and 6. *)
Theorem findPeaks_rule (data : list Z) (i : nat) :
  (In i (map index (findPeaks data (List.length data))) <->
   (1 <= i /\ i + 1 < List.length data)%nat
   /\ (nth (i - 1) data 0 < nth i data 0
       /\ nth (i + 1) data 0 < nth i data 0
       /\ 100 < nth i data 0)%Z)
  /\ map index (findPeaks snapshot 8) = [2; 4; 6]%nat.
Proof.
  split; [|reflexivity].
  rewrite in_map_iff. split.
  - intros (p & <- & Hp). apply findPeaks_In in Hp.
    destruct Hp as (Hi & Hp & _). split; [exact Hi|].
    apply isPeak_rule; assumption.
  - intros (Hi & Hr).
    exists {| index := i; amplitude := byteAt data i / 255 |}.
    split; [reflexivity|]. apply findPeaks_In. simpl.
    repeat split; try lia. apply isPeak_rule; assumption.
Qed.

(** ** Counting strokes *)

Lemma strokes_app (a b : list cmd) :
  strokes (a ++ b) = (strokes a + strokes b)%nat.
Proof. unfold strokes. rewrite filter_app, length_app. reflexivity. Qed.

Lemma strokes_flat_map (A : Type) (f : A -> list cmd) (k : nat)
  (l : list A) :
  (forall i, strokes (f i) = k) ->
  strokes (flat_map f l) = (k * List.length l)%nat.
Proof.
  intros H. induction l as [|x l IH]; simpl.
  - rewrite Nat.mul_0_r. reflexivity.
  - rewrite strokes_app, H, IH. lia.
Qed.

(** ** Ceilings *)

Lemma Qceiling_unique (x : Q) (z : Z) :
  inject_Z z - 1 < x -> x <= inject_Z z -> Qceiling x = z.
Proof.
  intros Hlo Hhi.
  pose proof (Qle_ceiling x) as H1. pose proof (Qceiling_lt x) as H2.
  assert (A : (Qceiling x - 1 < z)%Z).
  { rewrite Zlt_Qlt. eapply Qlt_le_trans; eassumption. }
  assert (B : (z - 1 < Qceiling x)%Z).
  { rewrite Zlt_Qlt. unfold Z.sub. rewrite inject_Z_plus.
    eapply Qlt_le_trans; [exact Hlo|exact H1]. }
  lia.
Qed.

Lemma Qceiling_pred (s : Q) : Qceiling (s - 1) = (Qceiling s - 1)%Z.
Proof.
  pose proof (Qle_ceiling s) as H1. pose proof (Qceiling_lt s) as H2.
  unfold Z.sub in H2. rewrite inject_Z_plus in H2.
  apply Qceiling_unique; unfold Z.sub; rewrite inject_Z_plus;
    change (inject_Z (Z.opp 1)) with (-1 # 1) in *;
    generalize dependent (inject_Z (Qceiling s)); intros c H1 H2; lra.
Qed.

Lemma Qceiling_nonpos (s : Q) : s <= 0 -> Z.to_nat (Qceiling s) = 0%nat.
Proof.
  intros H. apply Qceiling_resp_le in H. change (Qceiling 0) with 0%Z in H.
  lia.
Qed.

Lemma Qceiling_unit (s : Q) : 0 < s -> s <= 1 -> Qceiling s = 1%Z.
Proof.
  intros H0 H1. apply Qceiling_unique; change (inject_Z 1) with 1; lra.
Qed.

Lemma Qceiling_above_one (s : Q) : 1 < s -> (2 <= Qceiling s)%Z.
Proof.
  intros H. pose proof (Qle_ceiling s) as H1.
  assert (A : (1 < Qceiling s)%Z).
  { rewrite Zlt_Qlt. eapply Qlt_le_trans; [exact H|exact H1]. }
  lia.
Qed.

Section RenderingFacts.

Context {M : JSMath}.

(** ** The fractal *)

Lemma drawFractalBranch_eq (f : nat) (x y angle length : Q) (depth : Z)
  (amplitude : Q) :
  drawFractalBranch (S f) x y angle length depth amplitude =
  if (depth =? 0)%Z then Some []
  else
    let endX := x + Math_cos angle * length in
    let endY := y + Math_sin angle * length in
    match drawFractalBranch f endX endY (angle - 0.5 - amplitude)
            (length * 0.7) (depth - 1) amplitude with
    | None => None
    | Some minus =>
        match drawFractalBranch f endX endY (angle + 0.5 + amplitude)
                (length * 0.7) (depth - 1) amplitude with
        | None => None
        | Some plus =>
            Some ([beginPath; moveTo x y; lineTo endX endY; stroke]
                  ++ minus ++ plus)
        end
    end.
Proof. reflexivity. Qed.

(** A call at depth [d >= 0] returns as soon as the stack has room for
    [d + 1] nested calls, after stroking [2^d - 1] segments. *)
Lemma drawFractalBranch_strokes (d frames : nat) (x y angle length : Q)
  (amplitude : Q) :
  exists calls,
    drawFractalBranch (S d + frames) x y angle length (Z.of_nat d) amplitude
    = Some calls
    /\ strokes calls = (2 ^ d - 1)%nat.
Proof.
  revert x y angle length.
  induction d as [|d IH]; intros x y angle length.
  - exists []. split; reflexivity.
  - change (S (S d) + frames)%nat with (S (S d + frames)).
    rewrite drawFractalBranch_eq.
    destruct (Z.eqb_spec (Z.of_nat (S d)) 0) as [E|_]; [lia|].
    replace (Z.of_nat (S d) - 1)%Z with (Z.of_nat d) by lia.
    cbv zeta.
    destruct (IH (x + Math_cos angle * length) (y + Math_sin angle * length)
                (angle - 0.5 - amplitude) (length * 0.7))
      as (c1 & -> & H1).
    destruct (IH (x + Math_cos angle * length) (y + Math_sin angle * length)
                (angle + 0.5 + amplitude) (length * 0.7))
      as (c2 & -> & H2).
    eexists. split; [reflexivity|].
    rewrite !strokes_app, H1, H2.
    change (strokes [beginPath; moveTo x y;
                     lineTo (x + Math_cos angle * length)
                       (y + Math_sin angle * length); stroke]) with 1%nat.
    pose proof (Nat.pow_nonzero 2 d). rewrite Nat.pow_succ_r'. lia.
Qed.

(** More room on the stack does not change what a call that returns draws. *)
Lemma drawFractalBranch_more_frames (f k : nat) :
  forall (x y angle length : Q) (depth : Z) (amplitude : Q) calls,
    drawFractalBranch f x y angle length depth amplitude = Some calls ->
    drawFractalBranch (f + k) x y angle length depth amplitude = Some calls.
Proof.
  induction f as [|f IH]; intros x y angle length depth amplitude calls;
    [discriminate|].
  change (S f + k)%nat with (S (f + k)). rewrite !drawFractalBranch_eq.
  destruct (depth =? 0)%Z; [auto|]. cbv zeta.
  destruct (drawFractalBranch f _ _ (angle - 0.5 - amplitude) _ _ _)
    as [c1|] eqn:E1; [|discriminate].
  destruct (drawFractalBranch f _ _ (angle + 0.5 + amplitude) _ _ _)
    as [c2|] eqn:E2; [|discriminate].
  rewrite (IH _ _ _ _ _ _ _ E1), (IH _ _ _ _ _ _ _ E2). auto.
Qed.

(** The call of [renderFractals] returns within the frames it is given, and
    with any larger number of frames draws the same. *)
Lemma fractalArm_returns (centerX centerY time avgAmplitude : Q) (i k : nat) :
  drawFractalBranch (branchFrames 4 + k) centerX centerY
    ((inject_Z (Z.of_nat i) / 8) * Math_PI * 2 + time)
    (50 + avgAmplitude * 200) 4 avgAmplitude
  = Some (fractalArm centerX centerY time avgAmplitude i).
Proof.
  apply drawFractalBranch_more_frames. unfold fractalArm.
  destruct (drawFractalBranch_strokes 4 0 centerX centerY
              ((inject_Z (Z.of_nat i) / 8) * Math_PI * 2 + time)
              (50 + avgAmplitude * 200) avgAmplitude) as (calls & E & _).
  change (S 4 + 0)%nat with (branchFrames 4) in E.
  change (Z.of_nat 4) with 4%Z in E.
  rewrite E. reflexivity.
Qed.

Lemma fractalArm_strokes (centerX centerY time avgAmplitude : Q) (i : nat) :
  strokes (fractalArm centerX centerY time avgAmplitude i) = 15%nat.
Proof.
  unfold fractalArm.
  destruct (drawFractalBranch_strokes 4 0 centerX centerY
              ((inject_Z (Z.of_nat i) / 8) * Math_PI * 2 + time)
              (50 + avgAmplitude * 200) avgAmplitude) as (calls & E & H).
  change (S 4 + 0)%nat with (branchFrames 4) in E.
  change (Z.of_nat 4) with 4%Z in E.
  rewrite E. exact H.
Qed.

(** A call at depth [d >= 0] draws [2^d - 1] segments, each by its own
    [beginPath], [moveTo], [lineTo] and [stroke]; the first runs from the
    point given to the call, in the direction of its angle. *)
Lemma drawFractalBranch_segments (d frames : nat) (x y angle length : Q)
  (amplitude : Q) :
  exists segments,
    drawFractalBranch (S d + frames) x y angle length (Z.of_nat d) amplitude
    = Some (flat_map segmentCalls segments)
    /\ List.length segments = (2 ^ d - 1)%nat
    /\ (d <> 0%nat ->
        hd_error segments
        = Some {| x_from := x; y_from := y;
                  x_to := x + Math_cos angle * length;
                  y_to := y + Math_sin angle * length |}).
Proof.
  revert x y angle length.
  induction d as [|d IH]; intros x y angle length.
  - exists []. repeat split. intros H. contradiction H. reflexivity.
  - change (S (S d) + frames)%nat with (S (S d + frames)).
    rewrite drawFractalBranch_eq.
    destruct (Z.eqb_spec (Z.of_nat (S d)) 0) as [E|_]; [lia|].
    replace (Z.of_nat (S d) - 1)%Z with (Z.of_nat d) by lia.
    cbv zeta.
    destruct (IH (x + Math_cos angle * length) (y + Math_sin angle * length)
                (angle - 0.5 - amplitude) (length * 0.7))
      as (s1 & -> & L1 & _).
    destruct (IH (x + Math_cos angle * length) (y + Math_sin angle * length)
                (angle + 0.5 + amplitude) (length * 0.7))
      as (s2 & -> & L2 & _).
    exists ({| x_from := x; y_from := y;
               x_to := x + Math_cos angle * length;
               y_to := y + Math_sin angle * length |} :: s1 ++ s2).
    split; [|split].
    + cbn [flat_map]. rewrite flat_map_app. reflexivity.
    + cbn [List.length]. rewrite length_app, L1, L2.
      pose proof (Nat.pow_nonzero 2 d). rewrite Nat.pow_succ_r'. lia.
    + reflexivity.
Qed.

Lemma fractalArm_segments (centerX centerY time avgAmplitude : Q) (i : nat) :
  exists segments,
    fractalArm centerX centerY time avgAmplitude i
    = flat_map segmentCalls segments
    /\ List.length segments = 15%nat
    /\ hd_error segments
       = Some {| x_from := centerX; y_from := centerY;
                 x_to := centerX
                         + Math_cos ((inject_Z (Z.of_nat i) / 8) * Math_PI * 2
                                     + time)
                           * (50 + avgAmplitude * 200);
                 y_to := centerY
                         + Math_sin ((inject_Z (Z.of_nat i) / 8) * Math_PI * 2
                                     + time)
                           * (50 + avgAmplitude * 200) |}.
Proof.
  unfold fractalArm.
  destruct (drawFractalBranch_segments 4 0 centerX centerY
              ((inject_Z (Z.of_nat i) / 8) * Math_PI * 2 + time)
              (50 + avgAmplitude * 200) avgAmplitude) as (segs & E & L & H).
  change (S 4 + 0)%nat with (branchFrames 4) in E.
  change (Z.of_nat 4) with 4%Z in E.
  rewrite E. exists segs. split; [reflexivity|]. split; [exact L|].
  apply H. discriminate.
Qed.

(** Arms that each draw [k] segments draw [k] segments per arm together. *)
Lemma arms_segments (arm : nat -> list cmd) (k : nat) (l : list nat) :
  (forall i, exists segments,
      arm i = flat_map segmentCalls segments
      /\ List.length segments = k) ->
  exists segments,
    flat_map arm l = flat_map segmentCalls segments
    /\ List.length segments = (k * List.length l)%nat.
Proof.
  intros H. induction l as [|i l (rest & E & L)].
  - exists []. split; [reflexivity|simpl; lia].
  - destruct (H i) as (segs & Ei & Li).
    exists (segs ++ rest). split.
    + cbn [flat_map]. rewrite flat_map_app, Ei, E. reflexivity.
    + rewrite length_app, Li, L. simpl. lia.
Qed.

Lemma strokes_segments (segments : list Segment) :
  strokes (flat_map segmentCalls segments) = List.length segments.
Proof.
  induction segments as [|s l IH]; [reflexivity|].
  cbn [flat_map]. rewrite strokes_app, IH. reflexivity.
Qed.

(** C2.  For every frequency snapshot and every configuration, one frame of
    the fractals algorithm is its four settings (the fade of the canvas, the
    stroke colour and the line width) followed by the calls of its 8 base
    angles, and the calls of each base angle draw exactly 15 line segments,
    each by a [beginPath], a [moveTo], a [lineTo] and a [stroke] of its own,
    the first of them leaving the centre of the canvas; so the frame draws
    exactly 120 segments and nothing else, whatever the amplitudes.  The
    reason is the recursion: a call of [drawFractalBranch] at depth [d]
    returns after drawing [2^d - 1] segments (one, then two branches at
    depth [d - 1]; at depth 0 it returns without drawing), and the frame
    starts each base angle at depth 4. *)
Theorem renderFractals_strokes (config : VisualizationConfig) (e : Engine)
  (h : Host) :
  let width := inject_Z (canvas_width h) in
  let height := inject_Z (canvas_height h) in
  let time := seconds_now h in
  let avgAmplitude :=
    inject_Z (fold_left Z.add (dataArray e) 0%Z)
    / inject_Z (Z.of_nat (bufferLength e)) / 255 in
  let settings :=
    [fillStyle (css "rgba(0, 0, 0, 0.05)"); fillRect 0 0 width height;
     strokeStyle (hsla (jsRem (time * 50) 360) 70 60 0.8); lineWidth 2] in
  renderFractals config e h
  = settings
    ++ flat_map (fractalArm (width / 2) (height / 2) time avgAmplitude)
         (seq 0 8)
  /\ (forall i,
        exists segments,
          fractalArm (width / 2) (height / 2) time avgAmplitude i
          = flat_map segmentCalls segments
          /\ List.length segments = 15%nat
          /\ hd_error segments
             = Some {| x_from := width / 2; y_from := height / 2;
                       x_to := width / 2
                               + Math_cos ((inject_Z (Z.of_nat i) / 8)
                                           * Math_PI * 2 + time)
                                 * (50 + avgAmplitude * 200);
                       y_to := height / 2
                               + Math_sin ((inject_Z (Z.of_nat i) / 8)
                                           * Math_PI * 2 + time)
                                 * (50 + avgAmplitude * 200) |})
  /\ (exists segments,
        renderFractals config e h = settings ++ flat_map segmentCalls segments
        /\ List.length segments = 120%nat)
  /\ strokes (renderFractals config e h) = 120%nat
  /\ (forall (d frames : nat) x y angle length amplitude,
        exists segments,
          drawFractalBranch (S d + frames) x y angle length (Z.of_nat d)
            amplitude = Some (flat_map segmentCalls segments)
          /\ List.length segments = (2 ^ d - 1)%nat)
  /\ (forall frames x y angle length amplitude,
        drawFractalBranch (S frames) x y angle length 0 amplitude = Some []).
Proof.
  cbv zeta.
  destruct (@arms_segments
              (fractalArm (inject_Z (canvas_width h) / 2)
                 (inject_Z (canvas_height h) / 2) (seconds_now h)
                 (inject_Z (fold_left Z.add (dataArray e) 0%Z)
                  / inject_Z (Z.of_nat (bufferLength e)) / 255))
              15 (seq 0 8)) as (all & Eall & Lall).
  { intros i. destruct (fractalArm_segments (inject_Z (canvas_width h) / 2)
                 (inject_Z (canvas_height h) / 2) (seconds_now h)
                 (inject_Z (fold_left Z.add (dataArray e) 0%Z)
                  / inject_Z (Z.of_nat (bufferLength e)) / 255) i)
      as (segs & E & L & _).
    exists segs. split; assumption. }
  split; [reflexivity|]. split; [|split; [|split; [|split]]].
  - intros i. apply fractalArm_segments.
  - exists all. split; [|exact Lall].
    unfold renderFractals. cbv zeta. rewrite Eall. reflexivity.
  - unfold renderFractals. cbv zeta. rewrite Eall, strokes_app.
    rewrite strokes_segments, Lall. reflexivity.
  - intros d frames x y angle length amplitude.
    destruct (drawFractalBranch_segments d frames x y angle length amplitude)
      as (segs & E & L & _).
    exists segs. split; assumption.
  - reflexivity.
Qed.



(** ** The lightning *)

Lemma drawLightning_eq (f : nat) (x1 y1 x2 y2 segments : Q) (calls : nat) :
  drawLightning (S f) x1 y1 x2 y2 segments calls =
  if Qle_bool segments 0 then Some ([], calls)
  else
    let midX := (x1 + x2) / 2 + (Math_random calls - 0.5) * 50 in
    let midY := (y1 + y2) / 2 + (Math_random (S calls) - 0.5) * 50 in
    let path :=
      [beginPath; moveTo x1 y1; lineTo midX midY; lineTo x2 y2; stroke] in
    if Qgt_bool segments 1 then
      match drawLightning f x1 y1 midX midY (segments - 1) (S (S calls)) with
      | None => None
      | Some (front, calls1) =>
          match drawLightning f midX midY x2 y2 (segments - 1) calls1 with
          | None => None
          | Some (back, calls2) => Some (path ++ front ++ back, calls2)
          end
      end
    else Some (path, S (S calls)).
Proof. reflexivity. Qed.

Lemma strokes_bolt_path (x1 y1 midX midY x2 y2 : Q) :
  strokes [beginPath; moveTo x1 y1; lineTo midX midY; lineTo x2 y2; stroke]
  = 1%nat.
Proof. reflexivity. Qed.

(** A bolt of [segments] returns as soon as the stack has room for one call
    per unit of [segments], rounded up; it strokes [2^n - 1] polylines, [n]
    being [segments] rounded up (none when [segments <= 0]), and calls
    [Math.random()] twice per polyline. *)
Lemma drawLightning_strokes (f : nat) :
  forall (x1 y1 x2 y2 segments : Q) (calls : nat),
    (Z.to_nat (Qceiling segments) <= f)%nat ->
    exists cs,
      drawLightning (S f) x1 y1 x2 y2 segments calls
      = Some (cs, (calls + 2 * strokes cs)%nat)
      /\ strokes cs = (2 ^ Z.to_nat (Qceiling segments) - 1)%nat.
Proof.
  induction f as [|f IH]; intros x1 y1 x2 y2 s calls Hf;
    rewrite drawLightning_eq.
  - destruct (Qle_bool s 0) eqn:E0.
    + exists []. rewrite Nat.add_0_r.
      apply Qle_bool_iff in E0. rewrite (Qceiling_nonpos E0).
      split; reflexivity.
    + apply Qle_bool_false in E0. exfalso.
      destruct (Qlt_le_dec 1 s) as [H1|H1].
      * pose proof (Qceiling_above_one H1). lia.
      * rewrite (Qceiling_unit E0 H1) in Hf. simpl in Hf. lia.
  - destruct (Qle_bool s 0) eqn:E0.
    + exists []. rewrite Nat.add_0_r.
      apply Qle_bool_iff in E0. rewrite (Qceiling_nonpos E0).
      split; reflexivity.
    + apply Qle_bool_false in E0. cbv zeta. unfold Qgt_bool.
      destruct (Qle_bool s 1) eqn:E1; simpl negb; cbv iota.
      * apply Qle_bool_iff in E1. rewrite (Qceiling_unit E0 E1).
        match goal with
        | |- context [Some (?path, S (S calls))] => exists path
        end.
        split; [|reflexivity].
        do 2 f_equal. unfold strokes. simpl. lia.
      * apply Qle_bool_false in E1.
        pose proof (Qceiling_above_one E1) as H2.
        assert (Hn : Z.to_nat (Qceiling (s - 1))
                     = (Z.to_nat (Qceiling s) - 1)%nat)
          by (rewrite Qceiling_pred; lia).
        assert (Hf' : (Z.to_nat (Qceiling (s - 1)) <= f)%nat) by lia.
        destruct (IH x1 y1 ((x1 + x2) / 2 + (Math_random calls - 0.5) * 50)
                    ((y1 + y2) / 2 + (Math_random (S calls) - 0.5) * 50)
                    (s - 1) (S (S calls)) Hf') as (c1 & -> & S1).
        destruct (IH ((x1 + x2) / 2 + (Math_random calls - 0.5) * 50)
                    ((y1 + y2) / 2 + (Math_random (S calls) - 0.5) * 50)
                    x2 y2 (s - 1) (S (S calls) + 2 * strokes c1)%nat Hf')
          as (c2 & -> & S2).
        eexists. split.
        -- do 2 f_equal. rewrite !strokes_app, strokes_bolt_path. lia.
        -- rewrite !strokes_app, strokes_bolt_path, S1, S2, Hn.
           assert (E : Z.to_nat (Qceiling s)
                       = S (Z.to_nat (Qceiling s) - 1)) by lia.
           rewrite E at 3. rewrite Nat.pow_succ_r'.
           pose proof (Nat.pow_nonzero 2 (Z.to_nat (Qceiling s) - 1)). lia.
Qed.

Lemma drawLightning_more_frames (f k : nat) :
  forall (x1 y1 x2 y2 segments : Q) (calls : nat) r,
    drawLightning f x1 y1 x2 y2 segments calls = Some r ->
    drawLightning (f + k) x1 y1 x2 y2 segments calls = Some r.
Proof.
  induction f as [|f IH]; intros x1 y1 x2 y2 segments calls r;
    [discriminate|].
  change (S f + k)%nat with (S (f + k)). rewrite !drawLightning_eq.
  destruct (Qle_bool segments 0); [auto|]. cbv zeta.
  destruct (Qgt_bool segments 1); [|auto].
  destruct (drawLightning f x1 y1 _ _ _ _) as [[c1 n1]|] eqn:E1;
    [|discriminate].
  destruct (drawLightning f _ _ x2 y2 _ _) as [[c2 n2]|] eqn:E2;
    [|discriminate].
  rewrite (IH _ _ _ _ _ _ _ E1), (IH _ _ _ _ _ _ _ E2). auto.
Qed.

(** The call of [renderElectricity] for a peak returns within the frames it
    is given, and with any larger number of frames draws the same. *)
Lemma drawBolt_returns (width height : Q) (n : nat) (peak : Peak)
  (calls k : nat) :
  let startX :=
    (inject_Z (Z.of_nat (index peak)) / inject_Z (Z.of_nat n)) * width in
  let startY := height / 2 in
  drawLightning (boltFrames (boltSegments peak) + k) startX startY
    (startX + (Math_random calls - 0.5) * 200)
    (startY + (Math_random (S calls) - 0.5) * 200)
    (boltSegments peak) (S (S calls))
  = Some (drawBolt width height n peak calls).
Proof.
  cbv zeta. apply drawLightning_more_frames. unfold drawBolt, boltFrames.
  cbv zeta.
  match goal with
  | |- context [drawLightning _ ?a ?b ?c ?d _ _] =>
      destruct (drawLightning_strokes a b c d (boltSegments peak)
                  (S (S calls)) (le_n _)) as (cs & -> & _)
  end.
  reflexivity.
Qed.

Lemma drawBolt_strokes (width height : Q) (n : nat) (peak : Peak)
  (calls : nat) :
  exists cs,
    drawBolt width height n peak calls
    = (cs, (calls + 2 + 2 * strokes cs)%nat)
    /\ strokes cs = (2 ^ Z.to_nat (Qceiling (boltSegments peak)) - 1)%nat.
Proof.
  unfold drawBolt, boltFrames. cbv zeta.
  match goal with
  | |- context [drawLightning _ ?a ?b ?c ?d _ _] =>
      destruct (drawLightning_strokes a b c d (boltSegments peak)
                  (S (S calls)) (le_n _)) as (cs & -> & Hs)
  end.
  exists cs. split; [|exact Hs]. f_equal. lia.
Qed.

Lemma peak_above_threshold (data : list Z) (n : nat) (peak : Peak) :
  In peak (findPeaks data n) ->
  boltSegments peak = byteAt data (index peak) / 255 * 5
  /\ 100 # 51 < boltSegments peak.
Proof.
  intros H. apply findPeaks_In in H. destruct H as (_ & Hp & Ha).
  unfold boltSegments. rewrite Ha. split; [reflexivity|].
  unfold isPeak in Hp. apply andb_true_iff in Hp. destruct Hp as [_ Hp].
  unfold byteAt.
  destruct (nth_error data (index peak)) as [d|] eqn:E; [|discriminate].
  rewrite (nth_error_nth _ _ 0%Z E).
  simpl in Hp. apply Z.ltb_lt in Hp. rewrite Zlt_Qlt in Hp.
  change (inject_Z 100) with 100 in Hp.
  generalize dependent (inject_Z d). intros q Hq.
  unfold Qdiv. change (/ 255) with (1 # 255). lra.
Qed.

(** C5, amended.  For every detected peak the bolt is drawn by
    [drawLightning] starting from [segments = amplitude * 5], the peak's byte
    value divided by 51: it depends on the amplitude and exceeds 100/51.
    Each level of the recursion draws one polyline and, only while
    [segments > 1], calls itself twice with [segments - 1]; so a bolt strokes
    [2^n - 1] polylines, [n] being its starting count rounded up. *)
Theorem bolt_segments_follow_amplitude (data : list Z) (n : nat) :
  Forall (fun peak =>
            boltSegments peak = byteAt data (index peak) / 255 * 5
            /\ 100 # 51 < boltSegments peak)
    (findPeaks data n)
  /\ (forall width height peak calls,
        exists cs,
          drawBolt width height n peak calls
          = (cs, (calls + 2 + 2 * strokes cs)%nat)
          /\ strokes cs
             = (2 ^ Z.to_nat (Qceiling (boltSegments peak)) - 1)%nat)
  /\ (forall f x1 y1 x2 y2 segments calls,
        drawLightning (S f) x1 y1 x2 y2 segments calls =
        if Qle_bool segments 0 then Some ([], calls)
        else
          let midX := (x1 + x2) / 2 + (Math_random calls - 0.5) * 50 in
          let midY := (y1 + y2) / 2 + (Math_random (S calls) - 0.5) * 50 in
          let path :=
            [beginPath; moveTo x1 y1; lineTo midX midY; lineTo x2 y2;
             stroke] in
          if Qgt_bool segments 1 then
            match drawLightning f x1 y1 midX midY (segments - 1)
                    (S (S calls)) with
            | None => None
            | Some (front, calls1) =>
                match drawLightning f midX midY x2 y2 (segments - 1)
                        calls1 with
                | None => None
                | Some (back, calls2) =>
                    Some (path ++ front ++ back, calls2)
                end
            end
          else Some (path, S (S calls))).
Proof.
  split; [|split].
  - rewrite Forall_forall. intros peak. apply peak_above_threshold.
  - intros. apply drawBolt_strokes.
  - intros. apply drawLightning_eq.
Qed.



End RenderingFacts.

(** C5, as the claim states it, fails.  On the snapshot the three bolts
    start from 600/255, 1000/255 and 1050/255 segments, not from 5, and
    stroke 7, 15 and 31 polylines; a bolt that does start from 5 strokes 31
    polylines, one per call at the counts 5, 4, 3, 2 and 1, which halving
    would not reach. *)
Lemma bolt_segments_not_fixed :
  map boltSegments (findPeaks snapshot 8)
  = [600 # 255; 1000 # 255; 1050 # 255]
  /\ ~ (600 # 255 == 5)
  /\ map (fun peak =>
            strokes (fst (drawBolt (M := stillMath) 800 450 8 peak 0)))
       (findPeaks snapshot 8) = [7; 15; 31]%nat
  /\ option_map (fun r => strokes (fst r))
       (drawLightning (M := stillMath) 6 0 0 10 10 5 0) = Some 31%nat.
Proof.
  split; [reflexivity|]. split; [discriminate|].
  split; vm_compute; reflexivity.
Qed.


(** ** The frame loop *)

Section EngineFacts.

Context {M : JSMath}.


Lemma otherHandle_self (handle : Z) (cb : Callback) :
  filter (otherHandle handle) [(handle, cb)] = [].
Proof. unfold otherHandle. simpl. rewrite Z.eqb_refl. reflexivity. Qed.

Lemma stop_fields (s : Engine * Host) :
  surface (snd (stop s)) = surface (snd s)
  /\ executed (snd (stop s)) = executed (snd s)
  /\ nextHandle (snd (stop s)) = nextHandle (snd s)
  /\ canvas_width (snd (stop s)) = canvas_width (snd s)
  /\ canvas_height (snd (stop s)) = canvas_height (snd s)
  /\ clock (snd (stop s)) = clock (snd s)
  /\ analyser (snd (stop s)) = analyser (snd s)
  /\ randomCalls (snd (stop s)) = randomCalls (snd s)
  /\ dataArray (fst (stop s)) = dataArray (fst s)
  /\ bufferLength (fst (stop s)) = bufferLength (fst s).
Proof.
  destruct s as [e h]. unfold stop.
  destruct (animationId e) as [handle|]; [|simpl; tauto].
  destruct (handle =? 0)%Z; simpl; tauto.
Qed.

Lemma stop_Quiet (k : Z) (s : Engine * Host) :
  Inv k s -> Quiet k (stop s) /\ animationId (fst (stop s)) = None.
Proof.
  destruct s as [e h]. unfold Inv, Quiet, stop. simpl.
  intros (Hk & Hex & Hreq).
  destruct (animationId e) as [handle|] eqn:E.
  - destruct Hreq as (Hh & _ & type & config & Hreq).
    destruct (Z.eqb_spec handle 0) as [->|_]; [lia|]. simpl.
    rewrite Hreq, otherHandle_self. auto.
  - simpl. rewrite E. auto.
Qed.

Lemma animate_fields (type : string) (config : VisualizationConfig)
  (e : Engine) (h : Host) :
  let s' := animate type config (e, h) in
  let e' := setDataArray (getByteFrequencyData (analyser h) (dataArray e))
              (setAnimationId (Some (nextHandle h)) e) in
  fst s' = e'
  /\ frameRequests (snd s')
     = frameRequests h ++ [(nextHandle h, EngineAnimate type config)]
  /\ nextHandle (snd s') = (nextHandle h + 1)%Z
  /\ executed (snd s') = executed h
  /\ surface (snd s') = surface h ++ fst (render type config e' h).
Proof.
  cbv zeta. unfold animate. unfold requestAnimationFrame.
  match goal with
  | |- context [render type config ?e2 ?h1] =>
      change (render type config e2 h1) with (render type config e2 h)
  end.
  destruct (render type config _ h) as [calls randoms]. simpl.
  repeat split; reflexivity.
Qed.

Lemma animate_Inv (k : Z) (type : string) (config : VisualizationConfig)
  (s : Engine * Host) :
  Quiet k s -> Inv k (animate type config s).
Proof.
  destruct s as [e h]. intros (Hk & Hex & Hreq). simpl in Hk, Hex, Hreq.
  destruct (animate_fields type config e h) as (E1 & E2 & E3 & E4 & _).
  unfold Inv. rewrite E1, E2, E3, E4, Hreq. simpl.
  split; [lia|]. split.
  - eapply Forall_impl; [|exact Hex]. simpl. intros r [? ?]. split; [lia|auto].
  - split; [lia|]. split; [lia|]. eauto.
Qed.

Lemma start_Inv (k : Z) (type : string) (config : VisualizationConfig)
  (s : Engine * Host) :
  Inv k s -> Inv k (start type config s).
Proof.
  intros H. unfold start. apply animate_Inv. apply stop_Quiet, H.
Qed.

Lemma stop_Inv (k : Z) (s : Engine * Host) : Inv k s -> Inv k (stop s).
Proof.
  intros H. destruct (stop_Quiet H) as ((Hk & Hex & Hreq) & Hid).
  unfold Inv. rewrite Hid. auto.
Qed.

(** A frame from a consistent state: nothing happens when nothing is
    scheduled; otherwise the one callback is taken off the list and run. *)
Lemma frame_cases (k : Z) (s : Engine * Host) :
  Inv k s ->
  (frameRequests (snd s) = [] /\ frame s = s)
  \/ exists handle type config,
       frameRequests (snd s) = [(handle, EngineAnimate type config)]
       /\ (handle < nextHandle (snd s))%Z /\ handle <> k
       /\ frame s
          = animate type config
              (fst s,
               takeRequest handle (EngineAnimate type config) (snd s)).
Proof.
  destruct s as [e h]. intros (Hk & Hex & Hreq). simpl in Hk, Hex, Hreq.
  cbn [snd fst].
  destruct (animationId e) as [handle|].
  - right. destruct Hreq as (Hh & Hne & type & config & Hreq).
    exists handle, type, config. repeat split; try lia; try assumption.
    unfold frame. cbn [snd fst]. rewrite Hreq.
    unfold runCallbacks. cbn [snd fst]. rewrite Hreq.
    cbn [existsb fst]. rewrite Z.eqb_refl. reflexivity.
  - left. split; [exact Hreq|]. unfold frame. cbn [snd]. rewrite Hreq.
    reflexivity.
Qed.

Lemma frame_Inv (k : Z) (s : Engine * Host) : Inv k s -> Inv k (frame s).
Proof.
  intros H. destruct (frame_cases H) as [[_ ->]|(handle & type & config
    & Hreq & Hlt & Hne & ->)]; [exact H|].
  apply animate_Inv. destruct s as [e h]. destruct H as (Hk & Hex & _).
  simpl in *. unfold Quiet. simpl. rewrite Hreq, otherHandle_self.
  repeat split; try lia.
  apply Forall_app. split; [exact Hex|]. repeat constructor; assumption.
Qed.

Lemma step_Inv (k : Z) (s : Engine * Host) (ev : Event) :
  Inv k s -> Inv k (step s ev).
Proof.
  destruct ev as [type config| | |t frequency timeDomain]; simpl.
  - apply start_Inv.
  - apply stop_Inv.
  - apply frame_Inv.
  - destruct s as [e h]. unfold Inv. simpl. tauto.
Qed.

Lemma run_Inv (k : Z) (events : list Event) (s : Engine * Host) :
  Inv k s -> Inv k (run events s).
Proof.
  unfold run. revert s. induction events as [|ev events IH]; intros s H.
  - exact H.
  - simpl. apply IH, step_Inv, H.
Qed.

Lemma new_Inv (h : Host) :
  (0 < nextHandle h)%Z -> frameRequests h = [] -> executed h = [] ->
  Inv 0 (newVisualizationEngine h).
Proof.
  intros H1 H2 H3. unfold Inv, newVisualizationEngine. simpl.
  rewrite H2, H3. repeat split; try lia. constructor.
Qed.

Lemma reachable_Inv (width height : Z) (events : list Event) :
  Inv 0 (run events (newVisualizationEngine (freshHost width height))).
Proof. apply run_Inv, new_Inv; simpl; auto; lia. Qed.

Lemma Inv_at_most_one (k : Z) (s : Engine * Host) :
  Inv k s -> (List.length (frameRequests (snd s)) <= 1)%nat.
Proof.
  intros (_ & _ & H). destruct (animationId (fst s)).
  - destruct H as (_ & _ & type & config & ->). simpl. lia.
  - rewrite H. simpl. lia.
Qed.

(** Every renderer begins by fading the whole canvas. *)
Lemma render_background (type : string) (config : VisualizationConfig)
  (e : Engine) (h : Host) :
  exists background rest,
    fst (render type config e h)
    = fillStyle (css background)
      :: fillRect 0 0 (inject_Z (canvas_width h))
           (inject_Z (canvas_height h))
      :: rest.
Proof.
  unfold render.
  repeat match goal with
         | |- context [if String.eqb type ?name then _ else _] =>
             destruct (String.eqb type name)
         end.
  - unfold renderMilkdrop. simpl. eauto.
  - unfold renderFractals. simpl. eauto.
  - unfold renderFire. simpl. eauto.
  - unfold renderElectricity.
    destruct (drawBolts _ _ _ _ _) as [bolts calls]. simpl. eauto.
  - unfold renderParticles.
    destruct (particleBins _ _ _ _ _ _ _) as [particles calls]. simpl. eauto.
  - unfold renderWaveform. simpl. eauto.
  - unfold renderSpectrum. simpl. eauto.
Qed.

(** A renderer reads the canvas size, the clock, the analyser and the count of
    random calls of the host, and nothing else of it. *)
Lemma render_host (type : string) (config : VisualizationConfig) (e : Engine)
  (h h' : Host) :
  canvas_width h = canvas_width h' -> canvas_height h = canvas_height h' ->
  clock h = clock h' -> analyser h = analyser h' ->
  randomCalls h = randomCalls h' ->
  render type config e h = render type config e h'.
Proof.
  intros H1 H2 H3 H4 H5.
  unfold render, renderMilkdrop, renderFractals, renderFire,
    renderElectricity, renderParticles, renderWaveform, renderSpectrum,
    seconds_now.
  rewrite H1, H2, H3, H4, H5. reflexivity.
Qed.

Lemma render_after_stop (type : string) (config : VisualizationConfig)
  (e : Engine) (s : Engine * Host) :
  render type config e (snd (stop s)) = render type config e (snd s).
Proof.
  destruct (stop_fields s) as (_ & _ & _ & H1 & H2 & H3 & H4 & H5 & _).
  apply render_host; assumption.
Qed.

Lemma start_fields (type : string) (config : VisualizationConfig)
  (s : Engine * Host) :
  let s' := start type config s in
  animationId (fst s') = Some (nextHandle (snd s))
  /\ frameRequests (snd s')
     = frameRequests (snd (stop s))
       ++ [(nextHandle (snd s), EngineAnimate type config)]
  /\ nextHandle (snd s') = (nextHandle (snd s) + 1)%Z
  /\ executed (snd s') = executed (snd s)
  /\ surface (snd s')
     = surface (snd s) ++ fst (render type config (fst s') (snd s)).
Proof.
  cbv zeta. unfold start.
  destruct (stop_fields s) as (F1 & F2 & F3 & _).
  pose proof (fun e => render_after_stop type config e s) as R.
  destruct (stop s) as [e1 h1]. simpl in F1, F2, F3, R.
  destruct (animate_fields type config e1 h1) as (E1 & E2 & E3 & E4 & E5).
  cbn [snd fst]. rewrite E2, E3, E4, E5, E1, F1, F2, F3, R.
  repeat split; reflexivity.
Qed.

Lemma frames_when_idle (n : nat) (s : Engine * Host) :
  frameRequests (snd s) = [] -> run (repeat FrameFires n) s = s.
Proof.
  intros H. induction n as [|n IH]; [reflexivity|].
  simpl. unfold run in IH.
  assert (E : frame s = s) by (unfold frame; rewrite H; reflexivity).
  rewrite E. exact IH.
Qed.

(** *** The configuration object is never read *)

Lemma eraseConfig_fst (r : Z * Callback) : fst (eraseConfig r) = fst r.
Proof. destruct r as [handle [type config|images playing data]]; reflexivity. Qed.

Lemma eraseConfig_filter (handle : Z) (l : list (Z * Callback)) :
  map eraseConfig (filter (otherHandle handle) l)
  = filter (otherHandle handle) (map eraseConfig l).
Proof.
  induction l as [|r l IH]; [reflexivity|]. cbn [map filter].
  assert (E : otherHandle handle (eraseConfig r) = otherHandle handle r)
    by (unfold otherHandle; rewrite eraseConfig_fst; reflexivity).
  rewrite E. destruct (otherHandle handle r); cbn [map]; rewrite IH;
    reflexivity.
Qed.

Lemma eraseConfig_exists (handle : Z) (l : list (Z * Callback)) :
  existsb (fun r => (fst r =? handle)%Z) (map eraseConfig l)
  = existsb (fun r => (fst r =? handle)%Z) l.
Proof.
  induction l as [|r l IH]; [reflexivity|]. cbn [map existsb].
  rewrite eraseConfig_fst, IH. reflexivity.
Qed.

Lemma forget_stop (s : Engine * Host) : forget (stop s) = stop (forget s).
Proof.
  destruct s as [e h]. unfold forget, stop. cbn [fst snd].
  destruct (animationId e) as [handle|]; [|reflexivity].
  destruct (handle =? 0)%Z; [reflexivity|].
  cbn [fst snd]. unfold forgetHost, cancelAnimationFrame. cbn.
  rewrite eraseConfig_filter. reflexivity.
Qed.

Lemma forget_animate (type : string) (config : VisualizationConfig)
  (s : Engine * Host) :
  forget (animate type config s) = animate type previewConfig (forget s).
Proof.
  destruct s as [e h]. unfold forget, animate, requestAnimationFrame.
  cbn [fst snd].
  match goal with
  | |- context [render type config ?e2 ?h1] =>
      change (render type config e2 h1) with (render type config e2 h);
      match goal with
      | |- context [render type previewConfig ?e3 ?h3] =>
          change (render type previewConfig e3 h3)
            with (render type config e2 h)
      end
  end.
  destruct (render type config _ h) as [calls randoms].
  cbn [fst snd]. unfold forgetHost, setRandomCalls, draw. cbn.
  rewrite map_app. reflexivity.
Qed.

Lemma forget_aiAnimate (images : list string) (isPlaying : bool)
  (data : list Z) (h : Host) :
  forgetHost (aiAnimate images isPlaying data h)
  = aiAnimate images isPlaying data (forgetHost h).
Proof.
  unfold aiAnimate. destruct isPlaying; [|reflexivity].
  cbn [negb]. unfold requestAnimationFrame, forgetHost, draw. cbn.
  rewrite map_app. reflexivity.
Qed.

Lemma forget_invoke (r : Z * Callback) (s : Engine * Host) :
  forget (invoke (snd r) s) = invoke (snd (eraseConfig r)) (forget s).
Proof.
  destruct r as [handle [type config|images playing data]]; cbn.
  - apply forget_animate.
  - unfold forget. cbn [fst snd]. rewrite forget_aiAnimate. reflexivity.
Qed.

Lemma forget_runCallbacks (todo : list (Z * Callback)) :
  forall s,
    forget (runCallbacks todo s)
    = runCallbacks (map eraseConfig todo) (forget s).
Proof.
  induction todo as [|[handle cb] todo IH]; intros s; [reflexivity|].
  cbn [map runCallbacks].
  destruct (eraseConfig (handle, cb)) as [handle' cb'] eqn:E.
  assert (Hh : handle' = handle).
  { pose proof (eraseConfig_fst (handle, cb)) as F. rewrite E in F.
    exact F. }
  subst handle'. cbn [runCallbacks].
  unfold forget at 2 3. cbn [fst snd]. unfold forgetHost at 1.
  cbn [frameRequests]. rewrite eraseConfig_exists.
  destruct (existsb _ (frameRequests (snd s))); [|apply IH].
  rewrite IH. f_equal.
  pose proof (forget_invoke (handle, cb)
                (fst s, takeRequest handle cb (snd s))) as F.
  rewrite E in F. cbn [snd] in F. rewrite F. f_equal.
  unfold forget. cbn [fst snd]. f_equal.
  unfold forgetHost, takeRequest. cbn.
  rewrite eraseConfig_filter, map_app. cbn [map]. rewrite E. reflexivity.
Qed.

Lemma forget_step (s : Engine * Host) (ev : Event) :
  forget (step s ev) = step (forget s) (eraseEvent ev).
Proof.
  destruct ev as [type config| | |t frequency timeDomain]; cbn [step eraseEvent].
  - unfold start. rewrite forget_animate, forget_stop. reflexivity.
  - apply forget_stop.
  - unfold frame. rewrite forget_runCallbacks. reflexivity.
  - reflexivity.
Qed.

Lemma forget_run (events : list Event) :
  forall s, forget (run events s) = run (map eraseEvent events) (forget s).
Proof.
  unfold run. induction events as [|ev events IH]; intros s; [reflexivity|].
  cbn [fold_left map]. rewrite IH, forget_step. reflexivity.
Qed.

(** Whatever configuration object [start] is given, and whatever happens
    afterwards, the surface receives the same calls. *)
Lemma surface_config_irrelevant (type : string)
  (config config' : VisualizationConfig) (later : list Event)
  (s : Engine * Host) :
  surface (snd (run later (start type config s)))
  = surface (snd (run later (start type config' s))).
Proof.
  assert (H : forall c,
            surface (snd (run later (start type c s)))
            = surface (snd (run (map eraseEvent later)
                             (start type previewConfig (forget s))))).
  { intros c.
    change (surface (snd (run later (start type c s))))
      with (surface (snd (forget (run later (start type c s))))).
    rewrite forget_run. unfold start at 1.
    rewrite forget_animate, forget_stop. reflexivity. }
  rewrite (H config), (H config'). reflexivity.
Qed.

(** C3, amended.  [start] draws the first frame itself, before any frame
    fires and before it returns.  After [start(algorithmId, config)] followed
    at once by [stop()], the surface has received exactly the calls of one
    frame of the selected algorithm, which begin with the fill of the whole
    canvas; no frame has fired, the engine holds no handle, nothing is left
    scheduled, and no frame that fires afterwards changes anything. *)
Theorem start_then_stop_draws_one_frame (width height : Z)
  (events : list Event) (type : string) (config : VisualizationConfig) :
  let s := run events (newVisualizationEngine (freshHost width height)) in
  let started := start type config s in
  let s' := stop started in
  surface (snd s')
  = surface (snd s) ++ fst (render type config (fst started) (snd s))
  /\ (exists background rest,
        fst (render type config (fst started) (snd s))
        = fillStyle (css background)
          :: fillRect 0 0 (inject_Z (canvas_width (snd s)))
               (inject_Z (canvas_height (snd s)))
          :: rest)
  /\ executed (snd s') = executed (snd s)
  /\ animationId (fst s') = None
  /\ frameRequests (snd s') = []
  /\ forall n, run (repeat FrameFires n) s' = s'.
Proof.
  cbv zeta.
  set (s := run events (newVisualizationEngine (freshHost width height))).
  assert (Hs : Inv 0 s) by apply reachable_Inv.
  pose proof (start_Inv type config Hs) as Hstarted.
  destruct (start_fields type config s) as (_ & _ & _ & E4 & E5).
  destruct (stop_fields (start type config s)) as (F1 & F2 & _).
  destruct (stop_Quiet Hstarted) as ((_ & _ & Hreq) & Hid).
  rewrite F1, F2, E4, E5.
  split; [reflexivity|]. split; [apply render_background|].
  split; [reflexivity|]. split; [exact Hid|]. split; [exact Hreq|].
  intros n. apply frames_when_idle, Hreq.
Qed.

(** C8, amended.  When [start] is called twice in succession on an
    engine, the second call cancels the callback the first had scheduled:
    that handle is never again among the callbacks a frame runs, whatever
    happens later.  From then on at most one callback is scheduled at any
    time, so a frame that fires runs nothing or runs the one scheduled
    [animate], and what it adds to the surface is the calls of one frame of
    one algorithm.  Each [start], however, draws its first frame itself
    before it returns: right after the two calls, with no frame fired in
    between, the surface has received one whole frame of the first
    algorithm followed by one whole frame of the second, each beginning with
    its fade of the canvas. *)
Theorem second_start_cancels_first (width height : Z)
  (before later : list Event) (typeA typeB : string)
  (configA configB : VisualizationConfig) :
  let s := run before (newVisualizationEngine (freshHost width height)) in
  let first := start typeA configA s in
  let second := start typeB configB first in
  let handleA := nextHandle (snd s) in
  let final := run later second in
  frameRequests (snd first) = [(handleA, EngineAnimate typeA configA)]
  /\ frameRequests (snd second)
     = [((handleA + 1)%Z, EngineAnimate typeB configB)]
  /\ executed (snd second) = executed (snd s)
  /\ surface (snd second)
     = surface (snd s)
       ++ fst (render typeA configA (fst first) (snd s))
       ++ fst (render typeB configB (fst second) (snd first))
  /\ (exists backgroundA restA backgroundB restB,
        fst (render typeA configA (fst first) (snd s))
        = fillStyle (css backgroundA)
          :: fillRect 0 0 (inject_Z (canvas_width (snd s)))
               (inject_Z (canvas_height (snd s)))
          :: restA
        /\ fst (render typeB configB (fst second) (snd first))
           = fillStyle (css backgroundB)
             :: fillRect 0 0 (inject_Z (canvas_width (snd first)))
                  (inject_Z (canvas_height (snd first)))
             :: restB)
  /\ ~ In handleA (map fst (executed (snd final)))
  /\ (List.length (frameRequests (snd final)) <= 1)%nat
  /\ ((frameRequests (snd final) = [] /\ frame final = final)
      \/ exists handle type config,
           frameRequests (snd final) = [(handle, EngineAnimate type config)]
           /\ handle <> handleA
           /\ frame final
              = animate type config
                  (fst final,
                   takeRequest handle (EngineAnimate type config)
                     (snd final))
           /\ surface (snd (frame final))
              = surface (snd final)
                ++ fst (render type config (fst (frame final)) (snd final))).
Proof.
  cbv zeta.
  set (s := run before (newVisualizationEngine (freshHost width height))).
  assert (Hs : Inv 0 s) by apply reachable_Inv.
  pose proof (start_Inv typeA configA Hs) as Hfirst.
  destruct (stop_Quiet Hs) as ((_ & _ & Hq) & _).
  destruct (start_fields typeA configA s) as (_ & A2 & A3 & A4 & _).
  rewrite Hq in A2. simpl in A2.
  destruct (stop_Quiet Hfirst) as ((_ & _ & Hq1) & Hid1).
  destruct (stop_fields (start typeA configA s)) as (_ & S2 & S3 & _).
  destruct (start_fields typeB configB (start typeA configA s))
    as (_ & B2 & B3 & B4 & B5).
  destruct (start_fields typeA configA s) as (_ & _ & _ & _ & A5).
  rewrite Hq1, A3 in B2. simpl in B2.
  assert (Hsecond : Inv (nextHandle (snd s))
                      (start typeB configB (start typeA configA s))).
  { unfold start at 1. apply animate_Inv. unfold Quiet.
    rewrite S2, S3, A3, A4, Hq1.
    destruct Hs as (H0 & Hex & _).
    split; [lia|]. split; [|reflexivity].
    eapply Forall_impl; [|exact Hex]. simpl. intros r [? _]. lia. }
  pose proof (run_Inv later Hsecond) as Hfinal.
  set (final := run later (start typeB configB (start typeA configA s)))
    in *.
  split; [exact A2|]. split; [exact B2|].
  split; [rewrite B4; exact A4|].
  split; [rewrite B5, A5, <- app_assoc; reflexivity|].
  split.
  { destruct (render_background typeA configA
                (fst (start typeA configA s)) (snd s)) as (bA & rA & EA).
    destruct (render_background typeB configB
                (fst (start typeB configB (start typeA configA s)))
                (snd (start typeA configA s))) as (bB & rB & EB).
    exists bA, rA, bB, rB. split; assumption. }
  split; [|split].
  - destruct Hfinal as (_ & Hex & _). rewrite Forall_forall in Hex.
    intros Hin. apply in_map_iff in Hin. destruct Hin as (r & Hr & Hin).
    destruct (Hex r Hin) as [_ Hne]. auto.
  - eapply Inv_at_most_one, Hfinal.
  - destruct (frame_cases Hfinal) as [H|(handle & type & config & H1 & _
      & H3 & H4)]; [left; exact H|right].
    exists handle, type, config.
    split; [exact H1|]. split; [exact H3|]. split; [exact H4|].
    rewrite H4.
    destruct (animate_fields type config (fst final)
                (takeRequest handle (EngineAnimate type config) (snd final)))
      as (E1 & _ & _ & _ & E5).
    rewrite E5, E1. reflexivity.
Qed.

(** C7.  When the AI-image compositor is invoked with an empty image
    sequence and the engine exists, what it does is the call
    [start('milkdrop', config)]: engine and page end up as that call leaves
    them, the surface receives the calls of one milkdrop frame (they begin
    with the fill of the whole canvas, so something is drawn), and milkdrop's
    [animate] is scheduled for the next frame.  No renderer reads the
    configuration object: whichever one an explicit [start('milkdrop', ...)]
    is given, and whatever starts, stops, frames and audio changes follow,
    the surface receives the same calls as after the compositor. *)
Theorem empty_images_delegate_to_milkdrop (isPlaying : bool) (e : Engine)
  (h : Host) :
  let p :=
    renderAIVisualsInternal isPlaying []
      {| visualizationEngineRef := Some e; page := h |} in
  let s := start "milkdrop" previewConfig (e, h) in
  visualizationEngineRef p = Some (fst s)
  /\ page p = snd s
  /\ surface (page p) = surface h ++ renderMilkdrop previewConfig (fst s) h
  /\ (exists rest,
        renderMilkdrop previewConfig (fst s) h
        = fillStyle (css "rgba(0, 0, 0, 0.1)")
          :: fillRect 0 0 (inject_Z (canvas_width h))
               (inject_Z (canvas_height h))
          :: rest)
  /\ (forall config later,
        surface (snd (run later (start "milkdrop" config (e, h))))
        = surface (snd (run later s)))
  /\ In (nextHandle h, EngineAnimate "milkdrop" previewConfig)
       (frameRequests (page p)).
Proof.
  cbv zeta. unfold renderAIVisualsInternal. cbn [List.length Nat.eqb].
  cbn [visualizationEngineRef page].
  assert (Hsurf : forall config,
            surface (snd (start "milkdrop" config (e, h)))
            = surface h
              ++ renderMilkdrop previewConfig
                   (fst (start "milkdrop" previewConfig (e, h))) h).
  { intros config.
    destruct (start_fields "milkdrop" config (e, h)) as (_ & _ & _ & _ & E).
    rewrite E. cbn [snd]. f_equal.
    unfold start, animate.
    destruct (stop (e, h)) as [e1 h1]. cbn [requestAnimationFrame].
    unfold requestAnimationFrame.
    destruct (render "milkdrop" config _ _) as [c1 r1].
    destruct (render "milkdrop" previewConfig _ _) as [c2 r2].
    reflexivity. }
  destruct (start_fields "milkdrop" previewConfig (e, h))
    as (_ & E2 & _ & _ & _).
  destruct (start "milkdrop" previewConfig (e, h)) as [e' h'] eqn:Es.
  cbn [visualizationEngineRef page fst snd] in *.
  pose proof (Hsurf previewConfig) as H0. rewrite Es in H0.
  cbn [snd] in H0.
  split; [reflexivity|]. split; [reflexivity|].
  split; [exact H0|].
  split; [unfold renderMilkdrop; simpl; eauto|].
  split; [intros config later; rewrite <- Es;
          apply surface_config_irrelevant|].
  rewrite E2. apply in_or_app. right. left. reflexivity.
Qed.

End EngineFacts.

(** C3, as the claim states it, fails: on a new engine over an untouched
    800 by 450 canvas, [start('spectrum', config)] followed at once by
    [stop()], with no frame fired, leaves 514 calls on the surface, beginning
    with the fill of the whole canvas. *)
Lemma start_then_stop_touches_surface :
  let s := newVisualizationEngine (freshHost 800 450) in
  let s' := stop (start (M := stillMath) "spectrum" previewConfig s) in
  surface (snd s) = []
  /\ executed (snd s') = []
  /\ List.length (surface (snd s')) = 514%nat
  /\ firstn 2 (surface (snd s'))
     = [fillStyle (css "rgba(15, 15, 35, 0.1)"); fillRect 0 0 800 450].
Proof. cbv zeta. repeat split; vm_compute; reflexivity. Qed.

(** C8, as the claim states it, fails: on a new engine over an untouched
    800 by 450 canvas, [start('spectrum', config)] followed at once by
    [start('fire', config)] leaves, with no frame fired, the 257 rectangles
    of a spectrum frame and after them the fade and the 256 filled paths of
    a fire frame on the surface: two algorithms have drawn before the first
    frame fires. *)
Lemma two_starts_both_draw :
  let s := newVisualizationEngine (freshHost 800 450) in
  let first := start (M := stillMath) "spectrum" previewConfig s in
  let second := start (M := stillMath) "fire" previewConfig first in
  surface (snd s) = []
  /\ executed (snd second) = []
  /\ surface (snd second)
     = surface (snd first)
       ++ renderFire (M := stillMath) previewConfig (fst second) (snd first)
  /\ surface (snd first)
     = renderSpectrum previewConfig (fst first) (snd s)
  /\ count isFillRect (surface (snd first)) = 257%nat
  /\ count isFill (surface (snd first)) = 0%nat
  /\ count isFillRect (surface (snd second)) = 258%nat
  /\ count isFill (surface (snd second)) = 256%nat
  /\ firstn 2 (surface (snd second))
     = [fillStyle (css "rgba(15, 15, 35, 0.1)"); fillRect 0 0 800 450]
  /\ firstn 2 (renderFire (M := stillMath) previewConfig (fst second)
                 (snd first))
     = [fillStyle (css "rgba(0, 0, 0, 0.1)"); fillRect 0 0 800 450].
Proof. cbv zeta. repeat split; vm_compute; reflexivity. Qed.

(* ================================================================== *)
(** * Part III.  Further properties of the code                         *)
(* ================================================================== *)

(** ** Counting *)

Lemma count_app (kind : cmd -> bool) (a b : list cmd) :
  count kind (a ++ b) = (count kind a + count kind b)%nat.
Proof. unfold count. rewrite filter_app, length_app. reflexivity. Qed.

Lemma count_flat_map (A : Type) (kind : cmd -> bool) (f : A -> list cmd)
  (k : nat) (l : list A) :
  (forall i, count kind (f i) = k) ->
  count kind (flat_map f l) = (k * List.length l)%nat.
Proof.
  intros H. induction l as [|x l IH]; simpl.
  - rewrite Nat.mul_0_r. reflexivity.
  - rewrite count_app, H, IH. lia.
Qed.

Lemma length_flat_map_const (A B : Type) (f : A -> list B) (k : nat)
  (l : list A) :
  (forall i, List.length (f i) = k) ->
  List.length (flat_map f l) = (k * List.length l)%nat.
Proof.
  intros H. induction l as [|x l IH]; simpl.
  - rewrite Nat.mul_0_r. reflexivity.
  - rewrite length_app, H, IH. lia.
Qed.

Lemma count_flat_map_ge (A : Type) (kind : cmd -> bool) (f : A -> list cmd)
  (k : nat) (l : list A) :
  (forall i, (k <= count kind (f i))%nat) ->
  (k * List.length l <= count kind (flat_map f l))%nat.
Proof.
  intros H. induction l as [|x l IH]; simpl.
  - lia.
  - rewrite count_app. specialize (H x). lia.
Qed.

Lemma count_map_none (A : Type) (kind : cmd -> bool) (f : A -> cmd)
  (l : list A) :
  (forall i, kind (f i) = false) -> count kind (map f l) = 0%nat.
Proof.
  intros H. unfold count. induction l as [|x l IH]; simpl; [reflexivity|].
  rewrite H. exact IH.
Qed.

Lemma count_map_all (A : Type) (kind : cmd -> bool) (f : A -> cmd)
  (l : list A) :
  (forall i, kind (f i) = true) -> count kind (map f l) = List.length l.
Proof.
  intros H. unfold count. induction l as [|x l IH]; simpl; [reflexivity|].
  rewrite H. simpl. rewrite IH. reflexivity.
Qed.

(** *** Peaks *)

Lemma gtElement_true (x y : option Z) :
  gtElement x y = true -> exists a b, x = Some a /\ y = Some b /\ (b < a)%Z.
Proof.
  destruct x as [a|], y as [b|]; simpl; try discriminate.
  intros H. apply Z.ltb_lt in H. eauto.
Qed.

Lemma peaks_from (data : list Z) (k : nat) :
  forall a,
    StronglySorted lt
      (map index
         (flat_map
            (fun i =>
               if isPeak data i
               then [ {| index := i; amplitude := byteAt data i / 255 |} ]
               else []) (seq a k)))
    /\ Forall (fun i => (a <= i)%nat)
         (map index
            (flat_map
               (fun i =>
                  if isPeak data i
                  then [ {| index := i; amplitude := byteAt data i / 255 |} ]
                  else []) (seq a k))).
Proof.
  induction k as [|k IH]; intros a; cbn [seq flat_map].
  - split; constructor.
  - destruct (IH (S a)) as [I1 I2].
    assert (I3 : Forall (fun i => (a <= i)%nat)
                   (map index
                      (flat_map
                         (fun i =>
                            if isPeak data i
                            then [ {| index := i;
                                      amplitude := byteAt data i / 255 |} ]
                            else []) (seq (S a) k))))
      by (eapply Forall_impl; [|exact I2]; simpl; intros; lia).
    destruct (isPeak data a); cbn [app map index].
    + split; constructor; auto.
    + split; assumption.
Qed.

(** X9.  The peaks of a frame are found in increasing order of bin, and two
    neighbouring bins are never both peaks, whatever the data. *)
Theorem findPeaks_apart (data : list Z) (n : nat) :
  StronglySorted lt (map index (findPeaks data n))
  /\ forall i,
       ~ (In i (map index (findPeaks data n))
          /\ In (S i) (map index (findPeaks data n))).
Proof.
  split; [apply peaks_from|].
  intros i [H1 H2].
  apply in_map_iff in H1, H2.
  destruct H1 as (p & <- & Hp), H2 as (q & Hq & Hq').
  apply findPeaks_In in Hp, Hq'.
  destruct Hp as (_ & Hp & _), Hq' as (_ & Hq' & _). rewrite Hq in Hq'.
  unfold isPeak in Hp, Hq'.
  apply andb_true_iff in Hp. destruct Hp as [Hp _].
  apply andb_true_iff in Hp. destruct Hp as [_ Hp].
  apply andb_true_iff in Hq'. destruct Hq' as [Hq' _].
  apply andb_true_iff in Hq'. destruct Hq' as [Hq' _].
  rewrite Nat.add_1_r in Hp.
  replace (S (index p) - 1)%nat with (index p) in Hq' by lia.
  apply gtElement_true in Hp, Hq'.
  destruct Hp as (a & b & Ea & Eb & Hab), Hq' as (b' & a' & Eb' & Ea' & Hba).
  rewrite Ea in Ea'. rewrite Eb in Eb'.
  injection Ea' as <-. injection Eb' as <-. lia.
Qed.

Section FrameFacts.

Context {M : JSMath}.

(** X1.  Whatever the data, a spectrum frame draws rectangles and nothing
    else: [bufferLength + 1] calls of [fillRect], the fade of the canvas and
    one bar per bin, and no path operation at all: no [moveTo], no
    [lineTo], no [arc], no [fill] and no [stroke]. *)
Theorem renderSpectrum_one_bar_per_bin (config : VisualizationConfig)
  (e : Engine) (h : Host) :
  count isFillRect (renderSpectrum config e h) = S (bufferLength e)
  /\ count isMoveTo (renderSpectrum config e h) = 0%nat
  /\ count isLineTo (renderSpectrum config e h) = 0%nat
  /\ count isArc (renderSpectrum config e h) = 0%nat
  /\ count isFill (renderSpectrum config e h) = 0%nat
  /\ strokes (renderSpectrum config e h) = 0%nat.
Proof.
  unfold renderSpectrum. cbv zeta.
  split.
  { rewrite count_app, count_flat_map with (k := 1%nat) by reflexivity.
    rewrite length_seq. unfold count. simpl. lia. }
  repeat split;
    try (rewrite count_app, count_flat_map with (k := 0%nat) by reflexivity;
         reflexivity).
  rewrite strokes_app, strokes_flat_map with (k := 0%nat) by reflexivity.
  reflexivity.
Qed.

Lemma nth_Forall (A : Type) (P : A -> Prop) (l : list A) (d : A) (i : nat) :
  Forall P l -> P d -> P (nth i l d).
Proof.
  intros Hl Hd. revert i. induction Hl as [|x l Hx Hl IH]; intros [|i];
    simpl; auto.
Qed.

(** A byte scaled to a height: between nothing and 80% of it. *)
Lemma scaled_height (z height : Z) :
  (0 <= z <= 255)%Z -> (0 <= height)%Z ->
  0 <= inject_Z z / 255 * inject_Z height * 0.8
  /\ inject_Z z / 255 * inject_Z height * 0.8 <= 0.8 * inject_Z height.
Proof.
  intros [Hz0 Hz1] Hh. rewrite Zle_Qle in Hz0, Hz1, Hh.
  change (inject_Z 0) with 0 in *. change (inject_Z 255) with 255 in *.
  generalize dependent (inject_Z z). generalize dependent (inject_Z height).
  intros H HH d Hd0 Hd1.
  assert (E : d / 255 * H * 0.8 == (d * (1 # 255)) * (0.8 * H))
    by (unfold Qdiv; change (/ 255) with (1 # 255); ring).
  rewrite E.
  assert (A0 : 0 <= d * (1 # 255)) by lra.
  assert (A1 : d * (1 # 255) <= 1) by lra.
  assert (A2 : 0 <= 0.8 * H) by lra.
  split.
  - apply Qmult_le_0_compat; assumption.
  - rewrite <- (Qmult_1_l (0.8 * H)) at 2.
    apply Qmult_le_compat_r; assumption.
Qed.

(** X2.  When the array holds bytes and the canvas has a height, a spectrum
    frame begins with the fade of the whole canvas, and every rectangle
    after it, the bars, stands on the bottom edge of the canvas and is at
    most 80% of the canvas high. *)
Theorem renderSpectrum_bars_inside (config : VisualizationConfig)
  (e : Engine) (h : Host) :
  Forall (fun b => (0 <= b <= 255)%Z) (dataArray e) ->
  (0 <= canvas_height h)%Z ->
  let height := inject_Z (canvas_height h) in
  firstn 2 (renderSpectrum config e h)
  = [fillStyle (css "rgba(15, 15, 35, 0.1)");
     fillRect 0 0 (inject_Z (canvas_width h)) height]
  /\ Forall (standsWithin (0.8 * height) height)
       (skipn 2 (renderSpectrum config e h)).
Proof.
  intros Hdata Hh. cbv zeta. unfold renderSpectrum. cbv zeta.
  split; [reflexivity|].
  cbn [skipn app].
  apply Forall_flat_map. rewrite Forall_forall. intros i _.
  assert (Hb : (0 <= nth i (dataArray e) 0 <= 255)%Z)
    by (apply nth_Forall; [exact Hdata|lia]).
  destruct (scaled_height Hb Hh) as [B0 B1].
  unfold byteAt. repeat constructor; simpl; lra.
Qed.

(** X3.  Whatever the data, a milkdrop frame plots one dot per bin, also
    for a bin of amplitude zero: [bufferLength] arcs, each filled, in
    [4 * bufferLength + 2] calls. *)
Theorem renderMilkdrop_one_dot_per_bin (config : VisualizationConfig)
  (e : Engine) (h : Host) :
  count isArc (renderMilkdrop config e h) = bufferLength e
  /\ count isFill (renderMilkdrop config e h) = bufferLength e
  /\ List.length (renderMilkdrop config e h) = (4 * bufferLength e + 2)%nat
  /\ count isFillRect (renderMilkdrop config e h) = 1%nat.
Proof.
  unfold renderMilkdrop. cbv zeta. repeat split.
  - rewrite count_app, count_flat_map with (k := 1%nat) by reflexivity.
    rewrite length_seq. unfold count. simpl. lia.
  - rewrite count_app, count_flat_map with (k := 1%nat) by reflexivity.
    rewrite length_seq. unfold count. simpl. lia.
  - rewrite length_app, length_flat_map_const with (k := 4%nat)
      by reflexivity.
    rewrite length_seq. simpl. lia.
  - rewrite count_app, count_flat_map with (k := 0%nat) by reflexivity.
    reflexivity.
Qed.

(** *** Particles *)

Lemma amplitude_below_threshold (z : Z) :
  Qlt_bool (inject_Z z / 255) 0.1 = (z * 10 <? 255)%Z.
Proof.
  unfold Qlt_bool, Qle_bool. cbn. rewrite Z.ltb_antisym.
  f_equal. f_equal. lia.
Qed.

Lemma amplitude_particles (z : Z) :
  Qfloor (inject_Z z / 255 * 10) = (z * 10 / 255)%Z.
Proof. unfold Qfloor. cbn. f_equal. lia. Qed.

Lemma drawParticles_count (k : nat) (width height amplitude hue : Q) :
  forall calls,
    count isArc (fst (drawParticles k width height amplitude hue calls)) = k
    /\ snd (drawParticles k width height amplitude hue calls)
       = (calls + 2 * k)%nat.
Proof.
  induction k as [|k IH]; intros calls; simpl.
  - split; [reflexivity|lia].
  - destruct (IH (S (S calls))) as [H1 H2].
    destruct (drawParticles k width height amplitude hue (S (S calls)))
      as [rest calls'].
    simpl in *. split; [|lia].
    unfold count in *. simpl. rewrite H1. reflexivity.
Qed.

Lemma particleBins_count (width height time n : Q) (data : list Z)
  (bins : list nat) :
  forall calls,
    count isArc (fst (particleBins width height time n data bins calls))
    = list_sum (map (fun i => particlesOf (nth i data 0%Z)) bins)
    /\ snd (particleBins width height time n data bins calls)
       = (calls
          + 2 * list_sum (map (fun i => particlesOf (nth i data 0%Z)) bins))%nat.
Proof.
  induction bins as [|i bins IH]; intros calls.
  - split; [reflexivity|simpl; lia].
  - cbn [particleBins map list_sum]. unfold byteAt.
    rewrite amplitude_below_threshold.
    assert (P : particlesOf (nth i data 0%Z)
                = if (nth i data 0%Z * 10 <? 255)%Z then 0%nat
                  else Z.to_nat (nth i data 0%Z * 10 / 255)%Z)
      by reflexivity.
    destruct (nth i data 0%Z * 10 <? 255)%Z.
    + rewrite P. destruct (IH calls) as [B1 B2]. rewrite B1, B2.
      split; reflexivity.
    + rewrite amplitude_particles, P.
      match goal with
      | |- context [drawParticles ?k ?w ?hh ?a ?hue calls] =>
          destruct (drawParticles_count k w hh a hue calls) as [D1 D2];
          destruct (drawParticles k w hh a hue calls) as [c1 calls1]
      end.
      cbn [fst snd] in D1, D2.
      destruct (IH calls1) as [B1 B2].
      destruct (particleBins width height time n data bins calls1)
        as [c2 calls2].
      cbn [fst snd] in *. rewrite count_app, D1, B1, B2, D2.
      repeat match goal with
             | |- context [list_sum (?a :: ?b)] =>
                 change (list_sum (a :: b)) with (a + list_sum b)%nat
             end.
      split; lia.
Qed.

(** X4.  A particles frame spawns, for each bin, no particle when the byte
    is below 26 (amplitude under 0.1) and otherwise the integer part of
    [byte * 10 / 255] particles, one arc each; every particle costs two calls
    of [Math.random()]. *)
Theorem renderParticles_spawns (config : VisualizationConfig) (e : Engine)
  (h : Host) :
  let spawned :=
    list_sum (map (fun i => particlesOf (nth i (dataArray e) 0%Z))
                (seq 0 (bufferLength e))) in
  count isArc (fst (renderParticles config e h)) = spawned
  /\ snd (renderParticles config e h) = (randomCalls h + 2 * spawned)%nat
  /\ (forall byte, (byte <= 25)%Z -> particlesOf byte = 0%nat)
  /\ particlesOf 26 = 1%nat /\ particlesOf 255 = 10%nat.
Proof.
  cbv zeta. unfold renderParticles.
  match goal with
  | |- context [particleBins ?w ?hh ?t ?n ?d ?b ?c] =>
      destruct (particleBins_count w hh t n d b c) as [B1 B2];
      destruct (particleBins w hh t n d b c) as [cs calls]
  end.
  cbn [fst snd] in *.
  split; [|split; [exact B2|split; [|split; reflexivity]]].
  - rewrite count_app, B1. reflexivity.
  - intros byte Hb. unfold particlesOf.
    destruct (Z.ltb_spec (byte * 10) 255); [reflexivity|lia].
Qed.

(** *** Waveform *)

Lemma copyInto_length (data array : list Z) :
  List.length (copyInto data array) = List.length array.
Proof.
  unfold copyInto. rewrite length_app, length_firstn, length_skipn. lia.
Qed.

Lemma In_firstn (A : Type) (n : nat) (l : list A) (x : A) :
  In x (firstn n l) -> In x l.
Proof.
  revert l. induction n as [|n IH]; intros [|y l]; simpl; try tauto.
  intros [H|H]; [left; exact H|right; apply IH, H].
Qed.

Lemma In_skipn (A : Type) (n : nat) (l : list A) (x : A) :
  In x (skipn n l) -> In x l.
Proof.
  revert l. induction n as [|n IH]; intros [|y l]; simpl; try tauto.
  intros H. right. apply IH, H.
Qed.

Lemma copyInto_Forall (P : Z -> Prop) (data array : list Z) :
  Forall P data -> Forall P array -> Forall P (copyInto data array).
Proof.
  intros Hd Ha. unfold copyInto. rewrite Forall_forall in *.
  intros b Hb. apply in_app_or in Hb. destruct Hb as [Hb|Hb].
  - apply Hd. eapply In_firstn, Hb.
  - apply Ha. eapply In_skipn, Hb.
Qed.

Lemma waveformPath_counts (height sliceWidth : Q) (timeData : list Z) :
  forall x first,
    count isMoveTo (waveformPath height sliceWidth x first timeData)
    = (if first then Nat.min 1 (List.length timeData) else 0)%nat
    /\ count isLineTo (waveformPath height sliceWidth x first timeData)
       = (List.length timeData - (if first then 1 else 0))%nat
    /\ strokes (waveformPath height sliceWidth x first timeData) = 0%nat.
Proof.
  induction timeData as [|sample rest IH]; intros x first.
  - destruct first; repeat split.
  - cbn [waveformPath].
    destruct (IH (x + sliceWidth) false) as (I1 & I2 & I3).
    unfold count, strokes in *.
    destruct first; cbn [filter isMoveTo isLineTo isStroke List.length];
      rewrite ?I1, ?I2, ?I3; repeat split; lia.
Qed.

Lemma waveformPath_length (height sliceWidth : Q) (timeData : list Z) :
  forall x first,
    List.length (waveformPath height sliceWidth x first timeData)
    = List.length timeData.
Proof.
  induction timeData as [|sample rest IH]; intros x first; [reflexivity|].
  cbn [waveformPath List.length]. rewrite IH. reflexivity.
Qed.

(** X5.  A waveform frame strokes one polyline through exactly [fftSize]
    points, however many samples the analyser delivers: one [moveTo], then
    [fftSize - 1] times [lineTo], then one [stroke]. *)
Theorem renderWaveform_single_polyline (config : VisualizationConfig)
  (e : Engine) (h : Host) :
  let n := fftSize (analyser h) in
  count isMoveTo (renderWaveform config e h) = Nat.min 1 n
  /\ count isLineTo (renderWaveform config e h) = (n - 1)%nat
  /\ strokes (renderWaveform config e h) = 1%nat
  /\ List.length (renderWaveform config e h) = (n + 6)%nat.
Proof.
  cbv zeta. unfold renderWaveform. cbv zeta.
  set (timeData := getByteTimeDomainData (analyser h)
                     (repeat 0%Z (fftSize (analyser h)))).
  assert (Hn : List.length timeData = fftSize (analyser h)).
  { unfold timeData, getByteTimeDomainData.
    rewrite copyInto_length, repeat_length. reflexivity. }
  match goal with
  | |- context [waveformPath ?hh ?sw ?x ?f timeData] =>
      destruct (waveformPath_counts hh sw timeData x f) as (W1 & W2 & W3);
      set (path := waveformPath hh sw x f timeData) in *
  end.
  assert (Hp : List.length path = fftSize (analyser h)).
  { rewrite <- Hn. apply waveformPath_length. }
  rewrite Hn in W1, W2.
  repeat split.
  - rewrite !count_app, W1. unfold count. simpl. lia.
  - rewrite !count_app, W2. unfold count. simpl. lia.
  - rewrite !strokes_app, W3. unfold strokes. simpl. lia.
  - rewrite !length_app, Hp. simpl. lia.
Qed.

Lemma waveformPath_inside (height sliceWidth : Q) (timeData : list Z) :
  0 <= height ->
  Forall (fun b => (0 <= b <= 255)%Z) timeData ->
  forall x first,
    Forall (insideHeight height)
      (waveformPath height sliceWidth x first timeData).
Proof.
  intros Hh Hd. induction Hd as [|sample rest Hs Hrest IH]; intros x first.
  - constructor.
  - cbn [waveformPath]. constructor; [|apply IH].
    destruct Hs as [S0 S1]. rewrite Zle_Qle in S0, S1.
    change (inject_Z 0) with 0 in S0. change (inject_Z 255) with 255 in S1.
    generalize dependent (inject_Z sample). intros q Q0 Q1.
    assert (E : q / 128 * height / 2 == (q * (1 # 256)) * height)
      by (unfold Qdiv; change (/ 128) with (1 # 128);
          change (/ 2) with (1 # 2); ring).
    assert (A0 : 0 <= q * (1 # 256)) by lra.
    assert (A1 : q * (1 # 256) <= 1) by lra.
    assert (B0 : 0 <= (q * (1 # 256)) * height)
      by (apply Qmult_le_0_compat; assumption).
    assert (B1 : (q * (1 # 256)) * height <= height).
    { rewrite <- (Qmult_1_l height) at 2.
      apply Qmult_le_compat_r; assumption. }
    destruct first; simpl; rewrite E; split; assumption.
Qed.

(** X6.  When the analyser delivers bytes and the canvas has a height, every
    point of the waveform polyline lies between the top and the bottom edge
    of the canvas. *)
Theorem renderWaveform_inside_canvas (config : VisualizationConfig)
  (e : Engine) (h : Host) :
  Forall (fun b => (0 <= b <= 255)%Z) (byteTimeDomainData (analyser h)) ->
  (0 <= canvas_height h)%Z ->
  Forall (insideHeight (inject_Z (canvas_height h)))
    (renderWaveform config e h).
Proof.
  intros Hd Hh. unfold renderWaveform. cbv zeta.
  apply Forall_app. split; [repeat constructor|].
  apply Forall_app. split; [|repeat constructor].
  apply waveformPath_inside.
  - rewrite Zle_Qle in Hh. exact Hh.
  - unfold getByteTimeDomainData. apply copyInto_Forall; [exact Hd|].
    apply Forall_forall. intros b Hb. apply repeat_spec in Hb. lia.
Qed.

(** *** Fire *)

(** X7.  Whatever the data, a fire frame fills one path per bin, each begun
    on the bottom edge and closed on it, and no point of any path lies below
    the bottom edge of the canvas: a flame has no negative height. *)
Theorem renderFire_one_flame_per_bin (config : VisualizationConfig)
  (e : Engine) (h : Host) :
  count isFill (renderFire config e h) = bufferLength e
  /\ count isMoveTo (renderFire config e h) = bufferLength e
  /\ (bufferLength e <= count isLineTo (renderFire config e h))%nat
  /\ Forall (notBelow (inject_Z (canvas_height h))) (renderFire config e h).
Proof.
  unfold renderFire. cbv zeta. repeat split.
  - rewrite count_app, count_flat_map with (k := 1%nat).
    + rewrite length_seq. unfold count. simpl. lia.
    + intros i. rewrite !count_app, count_map_none by reflexivity.
      reflexivity.
  - rewrite count_app, count_flat_map with (k := 1%nat).
    + rewrite length_seq. unfold count. simpl. lia.
    + intros i. rewrite !count_app, count_map_none by reflexivity.
      reflexivity.
  - rewrite count_app.
    match goal with
    | |- (_ <= _ + count isLineTo (flat_map ?f ?l))%nat =>
        pose proof (@count_flat_map_ge _ isLineTo f 1%nat l) as G
    end.
    rewrite length_seq in G. rewrite Nat.mul_1_l in G.
    etransitivity; [apply G|lia].
    intros i. rewrite !count_app, count_map_all by reflexivity.
    unfold count. simpl. lia.
  - apply Forall_app. split; [repeat constructor|].
    apply Forall_flat_map. rewrite Forall_forall. intros i _.
    apply Forall_app. split; [repeat constructor; simpl; lra|].
    apply Forall_app. split; [|repeat constructor; simpl; lra].
    rewrite Forall_forall. intros c Hc. apply in_map_iff in Hc.
    destruct Hc as (k & <- & _). simpl.
    assert (Hk : 0 <= inject_Z (Z.of_nat k))
      by (change 0 with (inject_Z 0); rewrite <- Zle_Qle; lia).
    generalize dependent (inject_Z (Z.of_nat k)). intros q Hq. lra.
Qed.

(** X8.  On silence (every byte zero) a fire frame draws no flame: each
    bin's path is only its base, one [lineTo] along the bottom edge. *)
Theorem renderFire_silent (config : VisualizationConfig) (e : Engine)
  (h : Host) :
  Forall (fun b => b = 0%Z) (dataArray e) ->
  count isLineTo (renderFire config e h) = bufferLength e.
Proof.
  intros Hd. unfold renderFire. cbv zeta.
  rewrite count_app, count_flat_map with (k := 1%nat).
  - rewrite length_seq. unfold count. simpl. lia.
  - intros i.
    assert (E : nth i (dataArray e) 0%Z = 0%Z)
      by (apply nth_Forall; [exact Hd|reflexivity]).
    unfold byteAt. rewrite E.
    assert (Z0 : inject_Z 0 / 255 * inject_Z (canvas_height h) * 0.8 / 5
                 == 0) by (unfold Qdiv; ring).
    rewrite Z0. change (Z.to_nat (Qceiling 0)) with 0%nat.
    reflexivity.
Qed.


(** *** Electricity *)

Lemma findPeaks_quiet (data : list Z) (n : nat) :
  Forall (fun b => (b <= 100)%Z) data -> findPeaks data n = [].
Proof.
  intros Hd. unfold findPeaks.
  induction (seq 1 (n - 2)) as [|i l IH]; [reflexivity|].
  cbn [flat_map]. rewrite IH.
  assert (E : isPeak data i = false).
  { unfold isPeak.
    destruct (nth_error data i) as [d|] eqn:Ed.
    - apply nth_error_In in Ed. rewrite Forall_forall in Hd.
      specialize (Hd d Ed). simpl gtElement at 3.
      destruct (Z.ltb_spec 100 d); [lia|]. apply andb_false_r.
    - reflexivity. }
  rewrite E. reflexivity.
Qed.

(** X10.  When no byte exceeds 100 an electricity frame draws no bolt: it
    strokes nothing, makes no call of [Math.random()], and consists of the
    fade and the stroke settings only. *)
Theorem renderElectricity_quiet (config : VisualizationConfig) (e : Engine)
  (h : Host) :
  Forall (fun b => (b <= 100)%Z) (dataArray e) ->
  strokes (fst (renderElectricity config e h)) = 0%nat
  /\ snd (renderElectricity config e h) = randomCalls h
  /\ List.length (fst (renderElectricity config e h)) = 7%nat.
Proof.
  intros Hd. unfold renderElectricity. cbv zeta.
  rewrite (findPeaks_quiet (bufferLength e) Hd). repeat split.
Qed.


End FrameFacts.

(** ** The engine over time *)

Section LoopFacts.

Context {M : JSMath}.

(** X11.  [stop] is idempotent, and on an engine that holds no handle, such
    as one that was never started, it changes nothing. *)
Theorem stop_idempotent (s : Engine * Host) :
  stop (stop s) = stop s
  /\ (forall e h, stop (setAnimationId None e, h) = (setAnimationId None e, h))
  /\ (forall h, stop (newVisualizationEngine h) = newVisualizationEngine h).
Proof.
  split; [|split; reflexivity].
  destruct s as [e h].
  destruct (animationId e) as [handle|] eqn:E.
  - destruct (handle =? 0)%Z eqn:E0.
    + assert (S : stop (e, h) = (e, h))
        by (unfold stop; rewrite E, E0; reflexivity).
      rewrite !S. reflexivity.
    + assert (S : stop (e, h)
                  = (setAnimationId None e, cancelAnimationFrame handle h))
        by (unfold stop; rewrite E, E0; reflexivity).
      rewrite S. reflexivity.
  - assert (S : stop (e, h) = (e, h)) by (unfold stop; rewrite E; reflexivity).
    rewrite !S. reflexivity.
Qed.

(** *** The array keeps its length *)

Lemma runCallbacks_engine (P : Engine -> Prop) :
  (forall type config s, P (fst s) -> P (fst (animate type config s))) ->
  forall todo s, P (fst s) -> P (fst (runCallbacks todo s)).
Proof.
  intros Ha. induction todo as [|[handle cb] todo IH]; intros s Hs;
    [exact Hs|].
  cbn [runCallbacks].
  destruct (existsb _ (frameRequests (snd s))); [|apply IH, Hs].
  apply IH. destruct cb as [type config|images playing data]; cbn [invoke].
  - apply Ha. exact Hs.
  - exact Hs.
Qed.

Lemma step_engine (P : Engine -> Prop) :
  (forall type config s, P (fst s) -> P (fst (animate type config s))) ->
  (forall s, P (fst s) -> P (fst (stop s))) ->
  forall s ev, P (fst s) -> P (fst (step s ev)).
Proof.
  intros Ha Hs s ev H.
  destruct ev as [type config| | |t frequency timeDomain]; cbn [step].
  - unfold start. apply Ha, Hs, H.
  - apply Hs, H.
  - unfold frame. apply runCallbacks_engine; assumption.
  - exact H.
Qed.

(** X12.  An engine keeps the array it was made with at its length: in
    every state it can reach, whatever amount of data the analyser delivers,
    [dataArray] holds exactly [bufferLength] = 256 elements, so the loops
    over the bins never read past its end. *)
Theorem dataArray_keeps_length (width height : Z) (events : list Event) :
  let s := run events (newVisualizationEngine (freshHost width height)) in
  List.length (dataArray (fst s)) = 256%nat
  /\ bufferLength (fst s) = 256%nat.
Proof.
  cbv zeta.
  set (P := fun e : Engine =>
              List.length (dataArray e) = 256%nat
              /\ bufferLength e = 256%nat).
  change (P (fst (run events
                    (newVisualizationEngine (freshHost width height))))).
  assert (H0 : P (fst (newVisualizationEngine (freshHost width height))))
    by (split; reflexivity).
  revert H0. generalize (newVisualizationEngine (freshHost width height)).
  unfold run. induction events as [|ev events IH]; intros s Hs; [exact Hs|].
  cbn [fold_left]. apply IH. apply step_engine; try assumption.
  - intros type config [e h] [H1 H2]. cbn [fst] in *.
    destruct (animate_fields type config e h) as (E1 & _). rewrite E1.
    split; [|exact H2].
    cbn [dataArray setDataArray]. unfold getByteFrequencyData.
    rewrite copyInto_length. exact H1.
  - intros s0 [H1 H2].
    destruct (stop_fields s0) as (_ & _ & _ & _ & _ & _ & _ & _ & F1 & F2).
    split; congruence.
Qed.

(** *** The loop re-arms itself *)

Lemma frame_Running (k : Z) (type : string) (config : VisualizationConfig)
  (s : Engine * Host) :
  Running k type config s ->
  Running (k + 1) type config (frame s)
  /\ executed (snd (frame s))
     = executed (snd s) ++ [(k, EngineAnimate type config)]
  /\ surface (snd (frame s))
     = surface (snd s) ++ fst (render type config (fst (frame s)) (snd s)).
Proof.
  destruct s as [e h]. intros (Hid & Hreq & Hnext). cbn [fst snd] in *.
  assert (F : frame (e, h)
              = animate type config
                  (e, takeRequest k (EngineAnimate type config) h)).
  { unfold frame. cbn [snd fst]. rewrite Hreq.
    unfold runCallbacks. cbn [snd fst]. rewrite Hreq.
    cbn [existsb fst]. rewrite Z.eqb_refl. reflexivity. }
  rewrite F.
  destruct (animate_fields type config e
              (takeRequest k (EngineAnimate type config) h))
    as (E1 & E2 & E3 & E4 & E5).
  unfold Running. rewrite E1, E2, E3, E4, E5.
  cbn [takeRequest frameRequests nextHandle executed surface animationId
       setDataArray setAnimationId fst snd].
  rewrite Hreq, otherHandle_self, Hnext. repeat split; reflexivity.
Qed.

Lemma frames_Running (n : nat) :
  forall k type config s,
    Running k type config s ->
    Running (k + Z.of_nat n) type config (run (repeat FrameFires n) s)
    /\ List.length (executed (snd (run (repeat FrameFires n) s)))
       = (List.length (executed (snd s)) + n)%nat.
Proof.
  induction n as [|n IH]; intros k type config s H.
  - cbn [repeat run fold_left Z.of_nat]. rewrite Z.add_0_r, Nat.add_0_r.
    split; [exact H|reflexivity].
  - destruct (frame_Running H) as (H1 & H2 & _).
    destruct (IH _ _ _ _ H1) as (I1 & I2).
    change (run (repeat FrameFires (S n)) s)
      with (run (repeat FrameFires n) (frame s)).
    replace (k + Z.of_nat (S n))%Z with (k + 1 + Z.of_nat n)%Z by lia.
    split; [exact I1|]. rewrite I2, H2, length_app. simpl. lia.
Qed.

(** X13.  Once started, the loop keeps itself going: after any number [n] of
    frames exactly one callback is scheduled again, still for the algorithm
    and configuration given to [start], the engine holds its handle, and the
    frames have run exactly [n] callbacks. *)
Theorem loop_rearms_every_frame (width height : Z) (events : list Event)
  (type : string) (config : VisualizationConfig) (n : nat) :
  let s := run events (newVisualizationEngine (freshHost width height)) in
  let s' := run (repeat FrameFires n) (start type config s) in
  let k := (nextHandle (snd s) + Z.of_nat n)%Z in
  animationId (fst s') = Some k
  /\ frameRequests (snd s') = [(k, EngineAnimate type config)]
  /\ List.length (executed (snd s'))
     = (List.length (executed (snd s)) + n)%nat.
Proof.
  cbv zeta.
  set (s := run events (newVisualizationEngine (freshHost width height))).
  assert (Hs : Inv 0 s) by apply reachable_Inv.
  destruct (stop_Quiet Hs) as ((_ & _ & Hq) & _).
  destruct (start_fields type config s) as (A1 & A2 & A3 & A4 & _).
  rewrite Hq in A2. cbn [app] in A2.
  assert (R : Running (nextHandle (snd s)) type config
                (start type config s)) by (repeat split; assumption).
  destruct (frames_Running n R) as ((R1 & R2 & _) & L).
  rewrite L, A4. auto.
Qed.

(** *** After [stop] *)

Lemma quiet_run (later : list Event) :
  forallb (fun ev => negb (isCallStart ev)) later = true ->
  forall s,
    animationId (fst s) = None -> frameRequests (snd s) = [] ->
    surface (snd (run later s)) = surface (snd s)
    /\ animationId (fst (run later s)) = None
    /\ frameRequests (snd (run later s)) = []
    /\ executed (snd (run later s)) = executed (snd s).
Proof.
  unfold run. induction later as [|ev later IH]; intros Hl s Hid Hreq.
  - auto.
  - cbn [forallb] in Hl. apply andb_true_iff in Hl. destruct Hl as [Hev Hl].
    cbn [fold_left].
    assert (Hstep : surface (snd (step s ev)) = surface (snd s)
                    /\ animationId (fst (step s ev)) = None
                    /\ frameRequests (snd (step s ev)) = []
                    /\ executed (snd (step s ev)) = executed (snd s)).
    { destruct ev as [type config| | |t frequency timeDomain];
        cbn [step]; [discriminate Hev| | |].
      - destruct s as [e h]. cbn [fst snd] in *. unfold stop. rewrite Hid.
        auto.
      - unfold frame. rewrite Hreq. auto.
      - destruct s as [e h]. cbn in *. auto. }
    destruct Hstep as (S1 & S2 & S3 & S4).
    destruct (IH Hl (step s ev) S2 S3) as (I1 & I2 & I3 & I4).
    rewrite I1, I4, S1, S4. auto.
Qed.

(** X14.  After [stop()] returns, in whatever state the engine was, nothing
    is drawn until [start] is called again: under any sequence of frames,
    further calls of [stop] and changes of audio and clock, the surface stays
    as [stop] left it, which is as it was before [stop], and no frame runs a
    callback. *)
Theorem stop_ends_drawing (width height : Z) (events later : list Event) :
  forallb (fun ev => negb (isCallStart ev)) later = true ->
  let s := run events (newVisualizationEngine (freshHost width height)) in
  surface (snd (run later (stop s))) = surface (snd s)
  /\ executed (snd (run later (stop s))) = executed (snd s)
  /\ frameRequests (snd (run later (stop s))) = [].
Proof.
  intros Hl. cbv zeta.
  set (s := run events (newVisualizationEngine (freshHost width height))).
  assert (Hs : Inv 0 s) by apply reachable_Inv.
  destruct (stop_Quiet Hs) as ((_ & _ & Hq) & Hid).
  destruct (stop_fields s) as (F1 & F2 & _).
  destruct (quiet_run later Hl (stop s) Hid Hq) as (Q1 & _ & Q3 & Q4).
  rewrite Q1, Q4, F1, F2. auto.
Qed.

(** *** The loop of the AI-image compositor *)

Lemma aiAnimate_playing (images : list string) (data : list Z) (h : Host) :
  exists data',
    frameRequests (aiAnimate images true data h)
    = frameRequests h ++ [(nextHandle h, AIAnimate images true data')]
    /\ nextHandle (aiAnimate images true data h) = (nextHandle h + 1)%Z
    /\ executed (aiAnimate images true data h) = executed h
    /\ List.length (surface (aiAnimate images true data h))
       = (List.length (surface h) + 12)%nat.
Proof.
  exists (getByteFrequencyData (analyser h) data).
  unfold aiAnimate, requestAnimationFrame, draw. cbn.
  rewrite length_app. repeat split; reflexivity.
Qed.

Lemma filter_other_single (k k' : Z) (cb : Callback) :
  k' <> k -> filter (otherHandle k) [(k', cb)] = [(k', cb)].
Proof.
  intros H. unfold otherHandle. cbn.
  destruct (Z.eqb_spec k' k); [contradiction|reflexivity].
Qed.

Lemma frame_CompositorLoop (images : list string) (e : Engine) (h : Host) :
  CompositorLoop images h ->
  fst (frame (e, h)) = e
  /\ CompositorLoop images (snd (frame (e, h)))
  /\ List.length (surface (snd (frame (e, h))))
     = (List.length (surface h) + 12)%nat
  /\ List.length (executed (snd (frame (e, h))))
     = S (List.length (executed h)).
Proof.
  intros (k & d & Hreq).
  assert (F : frame (e, h)
              = (e, aiAnimate images true d
                      (takeRequest k (AIAnimate images true d) h))).
  { unfold frame. cbn [snd fst]. rewrite Hreq.
    unfold runCallbacks. cbn [snd fst]. rewrite Hreq.
    cbn [existsb fst]. rewrite Z.eqb_refl. reflexivity. }
  rewrite F. cbn [fst snd].
  destruct (aiAnimate_playing images d
              (takeRequest k (AIAnimate images true d) h))
    as (d' & A1 & _ & A3 & A4).
  split; [reflexivity|]. split; [|split].
  - exists (nextHandle h), d'. rewrite A1.
    cbn [takeRequest frameRequests nextHandle].
    rewrite Hreq, otherHandle_self. reflexivity.
  - rewrite A4. reflexivity.
  - rewrite A3. cbn [takeRequest executed]. rewrite length_app. simpl. lia.
Qed.

Lemma frames_CompositorLoop (images : list string) (n : nat) :
  forall e h,
    CompositorLoop images h ->
    fst (run (repeat FrameFires n) (e, h)) = e
    /\ CompositorLoop images (snd (run (repeat FrameFires n) (e, h)))
    /\ List.length (surface (snd (run (repeat FrameFires n) (e, h))))
       = (List.length (surface h) + 12 * n)%nat.
Proof.
  induction n as [|n IH]; intros e h H.
  - cbn [repeat run fold_left fst snd]. rewrite Nat.mul_0_r, Nat.add_0_r.
    auto.
  - change (run (repeat FrameFires (S n)) (e, h))
      with (run (repeat FrameFires n) (frame (e, h))).
    destruct (frame_CompositorLoop e H) as (F1 & F2 & F3 & _).
    destruct (frame (e, h)) as [e1 h1]. cbn [fst snd] in *. subst e1.
    destruct (IH e h1 F2) as (I1 & I2 & I3).
    rewrite I1, I3, F3. split; [reflexivity|]. split; [exact I2|lia].
Qed.

(** X15.  [VisualizationEngine.stop] does not end the loop of the AI-image
    compositor.  Once the compositor has been invoked with a non-empty image
    sequence while playing, [stop] leaves its callback scheduled, and after
    any number [n] of frames the callback is scheduled again and the surface
    has received 12 more calls per frame, plus the 12 of the frame the
    compositor drew at once; the engine meanwhile holds no handle. *)
Theorem compositor_loop_survives_stop (width height : Z)
  (events : list Event) (image : string) (images : list string) (n : nat) :
  let s := run events (newVisualizationEngine (freshHost width height)) in
  let p :=
    renderAIVisualsInternal true (image :: images)
      {| visualizationEngineRef := Some (fst s); page := snd s |} in
  let s' := run (repeat FrameFires n) (stop (fst s, page p)) in
  visualizationEngineRef p = Some (fst s)
  /\ animationId (fst s') = None
  /\ CompositorLoop (image :: images) (snd s')
  /\ List.length (surface (snd s'))
     = (List.length (surface (snd s)) + 12 * (n + 1))%nat.
Proof.
  cbv zeta.
  set (s := run events (newVisualizationEngine (freshHost width height))).
  assert (Hs : Inv 0 s) by apply reachable_Inv.
  unfold renderAIVisualsInternal.
  cbn [List.length Nat.eqb visualizationEngineRef page].
  set (zeros := repeat 0%Z (frequencyBinCount (analyser (snd s)))).
  destruct (aiAnimate_playing (image :: images) zeros (snd s))
    as (d & A1 & A2 & A3 & A4).
  set (h1 := aiAnimate (image :: images) true zeros (snd s)) in *.
  assert (Hstop : animationId (fst (stop (fst s, h1))) = None
                  /\ CompositorLoop (image :: images)
                       (snd (stop (fst s, h1)))
                  /\ surface (snd (stop (fst s, h1))) = surface h1).
  { destruct Hs as (Hk & _ & Hreq). unfold stop. cbn [fst snd].
    destruct (animationId (fst s)) as [handle|] eqn:E.
    - destruct Hreq as (Hh & _ & type & config & Hreq).
      destruct (Z.eqb_spec handle 0) as [->|_]; [lia|].
      cbn [fst snd]. split; [reflexivity|]. split; [|reflexivity].
      exists (nextHandle (snd s)), d.
      cbn [cancelAnimationFrame frameRequests]. rewrite A1, Hreq.
      cbn [app filter]. unfold otherHandle at 1. cbn [fst].
      rewrite Z.eqb_refl. cbn [negb].
      apply filter_other_single. lia.
    - cbn [fst snd]. rewrite E. split; [reflexivity|].
      split; [|reflexivity].
      exists (nextHandle (snd s)), d. rewrite A1, Hreq. reflexivity. }
  destruct Hstop as (S1 & S2 & S3).
  destruct (stop (fst s, h1)) as [e2 h2]. cbn [fst snd] in *.
  destruct (frames_CompositorLoop n e2 S2) as (I1 & I2 & I3).
  rewrite I1, I3, S3, A4. repeat split; try assumption. lia.
Qed.

Lemma frame_TwoCompositorLoops (images : list string) (e : Engine)
  (h : Host) :
  TwoCompositorLoops images h ->
  fst (frame (e, h)) = e
  /\ TwoCompositorLoops images (snd (frame (e, h)))
  /\ List.length (surface (snd (frame (e, h))))
     = (List.length (surface h) + 24)%nat
  /\ List.length (executed (snd (frame (e, h))))
     = (List.length (executed h) + 2)%nat.
Proof.
  intros (k & d1 & d2 & Hreq & Hnext).
  set (cb1 := AIAnimate images true d1) in *.
  set (cb2 := AIAnimate images true d2) in *.
  set (h1 := aiAnimate images true d1 (takeRequest k cb1 h)).
  destruct (aiAnimate_playing images d1 (takeRequest k cb1 h))
    as (d1' & A1 & A2 & A3 & A4).
  fold h1 in A1, A2, A3, A4.
  cbn [takeRequest frameRequests nextHandle executed surface] in A1, A2,
    A3, A4.
  rewrite Hreq in A1. cbn [filter] in A1. unfold otherHandle in A1.
  cbn [fst] in A1. rewrite Z.eqb_refl in A1.
  assert (N1 : ((k + 1 =? k) = false)%Z) by (apply Z.eqb_neq; lia).
  rewrite N1 in A1. cbn [negb app] in A1.
  set (h2 := aiAnimate images true d2 (takeRequest (k + 1) cb2 h1)).
  destruct (aiAnimate_playing images d2 (takeRequest (k + 1) cb2 h1))
    as (d2' & B1 & B2 & B3 & B4).
  fold h2 in B1, B2, B3, B4.
  cbn [takeRequest frameRequests nextHandle executed surface] in B1, B2,
    B3, B4.
  rewrite A1 in B1. cbn [filter] in B1. unfold otherHandle in B1.
  cbn [fst] in B1. rewrite Z.eqb_refl in B1.
  assert (N2 : ((nextHandle h =? k + 1) = false)%Z)
    by (apply Z.eqb_neq; lia).
  rewrite N2 in B1. cbn [negb app] in B1.
  assert (F : frame (e, h) = (e, h2)).
  { unfold frame. cbn [snd fst]. rewrite Hreq.
    cbn [runCallbacks snd fst]. rewrite Hreq.
    cbn [existsb fst]. rewrite Z.eqb_refl. cbn [orb invoke snd fst].
    change (invoke cb1 (e, takeRequest k cb1 h)) with (e, h1).
    cbn [snd fst]. rewrite A1.
    cbn [existsb fst]. rewrite Z.eqb_refl. reflexivity. }
  rewrite F. cbn [fst snd].
  split; [reflexivity|]. split; [|split].
  - exists (nextHandle h), d1', d2'. rewrite B1, B2, A2, Hnext.
    split; [reflexivity|lia].
  - rewrite B4, A4. lia.
  - rewrite B3, length_app, A3, length_app. simpl. lia.
Qed.

Lemma frames_TwoCompositorLoops (images : list string) (n : nat) :
  forall e h,
    TwoCompositorLoops images h ->
    TwoCompositorLoops images (snd (run (repeat FrameFires n) (e, h)))
    /\ List.length (surface (snd (run (repeat FrameFires n) (e, h))))
       = (List.length (surface h) + 24 * n)%nat
    /\ List.length (executed (snd (run (repeat FrameFires n) (e, h))))
       = (List.length (executed h) + 2 * n)%nat.
Proof.
  induction n as [|n IH]; intros e h H.
  - cbn [repeat run fold_left fst snd].
    rewrite !Nat.mul_0_r, !Nat.add_0_r. auto.
  - change (run (repeat FrameFires (S n)) (e, h))
      with (run (repeat FrameFires n) (frame (e, h))).
    destruct (frame_TwoCompositorLoops e H) as (F1 & F2 & F3 & F4).
    destruct (frame (e, h)) as [e1 h1]. cbn [fst snd] in *.
    destruct (IH e1 h1 F2) as (I1 & I2 & I3).
    rewrite I2, I3, F3, F4. split; [exact I1|]. split; lia.
Qed.

(** X16.  Invoking the AI-image compositor again does not cancel its
    earlier loop: unlike [start], it keeps no handle.  After two invocations
    with a non-empty image sequence while playing, two callbacks are
    scheduled at every later time, every frame runs both, and the surface
    receives two compositor frames (24 calls) per frame. *)
Theorem compositor_loops_accumulate (width height : Z)
  (events : list Event) (image : string) (images : list string) (n : nat) :
  let s := stop (run events (newVisualizationEngine (freshHost width height)))
  in
  let twice :=
    renderAIVisualsInternal true (image :: images)
      (renderAIVisualsInternal true (image :: images)
         {| visualizationEngineRef := Some (fst s); page := snd s |}) in
  let s' := run (repeat FrameFires n) (fst s, page twice) in
  TwoCompositorLoops (image :: images) (snd s')
  /\ List.length (surface (snd s'))
     = (List.length (surface (snd s)) + 24 * (n + 1))%nat
  /\ List.length (executed (snd s'))
     = (List.length (executed (snd s)) + 2 * n)%nat.
Proof.
  cbv zeta.
  set (s0 := run events (newVisualizationEngine (freshHost width height))).
  assert (Hs : Inv 0 s0) by apply reachable_Inv.
  destruct (stop_Quiet Hs) as ((_ & _ & Hq) & _).
  set (s := stop s0) in *.
  unfold renderAIVisualsInternal.
  cbn [List.length Nat.eqb visualizationEngineRef page].
  set (zeros := repeat 0%Z (frequencyBinCount (analyser (snd s)))).
  destruct (aiAnimate_playing (image :: images) zeros (snd s))
    as (d1 & A1 & A2 & A3 & A4).
  set (h1 := aiAnimate (image :: images) true zeros (snd s)) in *.
  set (zeros1 := repeat 0%Z (frequencyBinCount (analyser h1))).
  destruct (aiAnimate_playing (image :: images) zeros1 h1)
    as (d2 & B1 & B2 & B3 & B4).
  set (h2 := aiAnimate (image :: images) true zeros1 h1) in *.
  assert (T : TwoCompositorLoops (image :: images) h2).
  { exists (nextHandle (snd s)), d1, d2.
    rewrite B1, B2, A1, A2, Hq. split; [reflexivity|lia]. }
  destruct (frames_TwoCompositorLoops n (fst s) T) as (I1 & I2 & I3).
  rewrite I2, I3, B3, B4, A3, A4. split; [exact I1|]. split; lia.
Qed.

End LoopFacts.

(** ** The caption timeline: further properties *)

Lemma trimStart_blank (s : jsstring) :
  Forall (fun c => isWhiteSpace c = true) s -> trimStart s = [].
Proof.
  induction 1 as [|c s Hc _ IH]; [reflexivity|].
  unfold trimStart in *. simpl. rewrite Hc. exact IH.
Qed.

Lemma trimStart_padding (ws s : jsstring) :
  Forall (fun c => isWhiteSpace c = true) ws ->
  trimStart (ws ++ s) = trimStart s.
Proof.
  induction 1 as [|c ws Hc _ IH]; [reflexivity|].
  unfold trimStart in *. simpl. rewrite Hc. exact IH.
Qed.

Lemma trimStart_nil (s : jsstring) :
  trimStart s = [] -> Forall (fun c => isWhiteSpace c = true) s.
Proof.
  unfold trimStart. induction s as [|c s IH]; [constructor|]. simpl.
  destruct (isWhiteSpace c) eqn:E; [|discriminate].
  intros H. constructor; [exact E|apply IH, H].
Qed.

Lemma trim_padding (before after s : jsstring) :
  Forall (fun c => isWhiteSpace c = true) before ->
  Forall (fun c => isWhiteSpace c = true) after ->
  trim (before ++ s ++ after) = trim s.
Proof.
  intros Hb Ha. unfold trim. rewrite (trimStart_padding _ Hb).
  assert (R : forall x,
            trimStart (rev (x ++ after)) = trimStart (rev x)).
  { intros x. rewrite rev_app_distr. apply trimStart_padding.
    apply Forall_rev, Ha. }
  assert (D : forall x, exists k, trimStart x = skipn k x).
  { induction x as [|c x IH]; [exists 0%nat; reflexivity|].
    unfold trimStart in *. simpl. destruct (isWhiteSpace c).
    - destruct IH as (k & ->). exists (S k). reflexivity.
    - exists 0%nat. reflexivity. }
  destruct (D s) as (k & Ek). rewrite Ek.
  destruct (Nat.le_gt_cases (List.length s) k) as [Hk|Hk].
  - (* nothing of [s] is left: what remains is a suffix of the padding *)
    rewrite (skipn_all2 s Hk).
    assert (Es : Forall (fun c => isWhiteSpace c = true) s).
    { rewrite (skipn_all2 s Hk) in Ek. apply trimStart_nil, Ek. }
    assert (Ew : Forall (fun c => isWhiteSpace c = true)
                   (trimStart (s ++ after))).
    { destruct (D (s ++ after)) as (j & ->).
      apply Forall_forall. intros c Hc.
      assert (Hin : In c (s ++ after)).
      { clear - Hc. revert Hc. generalize (s ++ after).
        induction j as [|j IH]; intros [|y l]; simpl; try tauto.
        intros H. right. apply IH, H. }
      apply in_app_or in Hin. rewrite Forall_forall in Es, Ha.
      destruct Hin; auto. }
    rewrite (trimStart_blank (Forall_rev Ew)). reflexivity.
  - (* some code unit of [s] is no white space: the front trim stops in [s] *)
    assert (E2 : trimStart (s ++ after) = skipn k s ++ after).
    { clear - Ek Hk. revert k Ek Hk. unfold trimStart.
      induction s as [|c s IH]; intros k Ek Hk; [simpl in Hk; lia|].
      simpl in *. destruct (isWhiteSpace c) eqn:E.
      - destruct k as [|k].
        + simpl in Ek.
          (* the trimmed string is shorter than the string itself *)
          assert (L : forall x, (List.length (dropWhile isWhiteSpace x)
                                 <= List.length x)%nat).
          { induction x as [|y x IHx]; simpl; [lia|].
            destruct (isWhiteSpace y); simpl; lia. }
          pose proof (L s) as Ls. rewrite Ek in Ls. simpl in Ls. lia.
        + simpl. apply IH; [exact Ek|lia].
      - destruct k as [|k]; [reflexivity|].
        simpl in Ek.
        assert (L : (List.length (skipn k s) <= List.length s)%nat)
          by (rewrite length_skipn; lia).
        rewrite <- Ek in L. simpl in L. lia. }
    rewrite E2. rewrite R. reflexivity.
Qed.

Lemma blocks_of_padding (before after s : jsstring) :
  Forall (fun c => isWhiteSpace c = true) before ->
  Forall (fun c => isWhiteSpace c = true) after ->
  blocks_of (before ++ s ++ after) = blocks_of s.
Proof.
  intros Hb Ha. unfold blocks_of. rewrite (trim_padding s Hb Ha).
  reflexivity.
Qed.

(** X17.  A file that holds nothing but white space (spaces, tabs, line
    feeds, ..., or nothing at all) parses to the empty timeline: after
    [trim] there is one empty block, which has fewer than three lines. *)
Theorem parseSRT_blank (content : string)
  (H : Forall (fun c => isWhiteSpace c = true)
         (list_ascii_of_string content)) :
  parseSRT content = [].
Proof.
  unfold parseSRT.
  rewrite <- (app_nil_r (list_ascii_of_string content)).
  change (list_ascii_of_string content ++ [])
    with (list_ascii_of_string content ++ [] ++ []).
  rewrite (blocks_of_padding [] H (Forall_nil _)).
  vm_compute. reflexivity.
Qed.

(** X18.  White space around the file does not change the timeline:
    [parseSRT] of the content with any white space put before and after it
    is [parseSRT] of the content itself. *)
Theorem parseSRT_ignores_padding (before after : jsstring) (content : string)
  (Hb : Forall (fun c => isWhiteSpace c = true) before)
  (Ha : Forall (fun c => isWhiteSpace c = true) after) :
  parseSRT (string_of_list_ascii
              (before ++ list_ascii_of_string content ++ after))
  = parseSRT content.
Proof.
  unfold parseSRT. rewrite list_ascii_of_string_of_list_ascii.
  rewrite (blocks_of_padding _ Hb Ha). reflexivity.
Qed.

Lemma sorted_split (A : Type) (R : A -> A -> Prop) (l1 l2 : list A) (e : A) :
  StronglySorted R (l1 ++ e :: l2) -> Forall (R e) l2.
Proof.
  induction l1 as [|x l1 IH]; simpl; intros H.
  - apply StronglySorted_inv in H. tauto.
  - apply StronglySorted_inv in H. apply IH. tauto.
Qed.

Lemma first_match_least (p : SRTEntry -> bool) (l : list SRTEntry)
  (e x : SRTEntry) :
  StronglySorted notLater l -> find p l = Some e ->
  In x l -> p x = true -> startTime e <= startTime x.
Proof.
  intros Hs Hf Hx Hp.
  pose proof (find_first p l) as F. rewrite Hf in F.
  destruct F as (l1 & l2 & -> & _ & Hall).
  apply in_app_or in Hx. destruct Hx as [Hx|[Hx|Hx]].
  - rewrite Forall_forall in Hall. rewrite (Hall x Hx) in Hp. discriminate.
  - subst x. apply Qle_refl.
  - apply sorted_split in Hs. rewrite Forall_forall in Hs.
    apply (Hs x Hx).
Qed.

(** X19.  On a timeline produced by [parseSRT] the two lookups are lookups
    by time: the entry [getUpcomingLyric] returns starts no later than any
    other entry that starts after [t], the entry [getCurrentLyric] returns
    starts no later than any other entry that is active at [t], and when
    both exist the current entry starts at or before [t] and the upcoming
    one strictly after it. *)
Theorem lookups_on_parsed_timeline (content : string) (t : Q) :
  let timeline := parseSRT content in
  match getUpcomingLyric timeline t with
  | Some e =>
      t < startTime e
      /\ forall x, In x timeline -> t < startTime x ->
                   startTime e <= startTime x
  | None => forall x, In x timeline -> startTime x <= t
  end
  /\ match getCurrentLyric timeline t with
     | Some e =>
         (startTime e <= t /\ t <= endTime e)
         /\ forall x, In x timeline -> startTime x <= t -> t <= endTime x ->
                      startTime e <= startTime x
     | None => forall x, In x timeline -> ~ (startTime x <= t /\ t <= endTime x)
     end
  /\ match getCurrentLyric timeline t, getUpcomingLyric timeline t with
     | Some c, Some u => startTime c < startTime u
     | _, _ => True
     end.
Proof.
  cbv zeta.
  pose proof (sortBy_sorted
    (collectEntries (blocks_of (list_ascii_of_string content)))) as Hs.
  fold (parseSRT content) in Hs.
  assert (U : match getUpcomingLyric (parseSRT content) t with
              | Some e =>
                  t < startTime e
                  /\ forall x, In x (parseSRT content) -> t < startTime x ->
                               startTime e <= startTime x
              | None => forall x, In x (parseSRT content) -> startTime x <= t
              end).
  { unfold getUpcomingLyric.
    destruct (find _ (parseSRT content)) as [e|] eqn:Hf.
    - split.
      + apply find_some in Hf. destruct Hf as [_ Hf].
        apply negb_true_iff, Qle_bool_false in Hf. exact Hf.
      + intros x Hx Hlt.
        eapply first_match_least; [exact Hs|exact Hf|exact Hx|].
        apply negb_true_iff, Qle_bool_false, Hlt.
    - intros x Hx. pose proof (find_none _ _ Hf x Hx) as N. simpl in N.
      apply negb_false_iff, Qle_bool_iff in N. exact N. }
  assert (C : match getCurrentLyric (parseSRT content) t with
              | Some e =>
                  (startTime e <= t /\ t <= endTime e)
                  /\ forall x, In x (parseSRT content) ->
                               startTime x <= t -> t <= endTime x ->
                               startTime e <= startTime x
              | None => forall x, In x (parseSRT content) ->
                                  ~ (startTime x <= t /\ t <= endTime x)
              end).
  { unfold getCurrentLyric.
    destruct (find _ (parseSRT content)) as [e|] eqn:Hf.
    - split.
      + apply find_some in Hf. destruct Hf as [_ Hf].
        apply andb_true_iff in Hf. destruct Hf as [H1 H2].
        apply Qle_bool_iff in H1, H2. split; assumption.
      + intros x Hx H1 H2.
        eapply first_match_least; [exact Hs|exact Hf|exact Hx|].
        apply andb_true_iff. split; apply Qle_bool_iff; assumption.
    - intros x Hx [H1 H2]. pose proof (find_none _ _ Hf x Hx) as N.
      simpl in N. apply Qle_bool_iff in H1, H2. rewrite H1, H2 in N.
      discriminate. }
  split; [exact U|]. split; [exact C|].
  destruct (getCurrentLyric (parseSRT content) t) as [c|]; [|exact I].
  destruct (getUpcomingLyric (parseSRT content) t) as [u|]; [|exact I].
  destruct C as [[C1 _] _]. destruct U as [U1 _].
  apply (Qle_lt_trans _ _ _ C1 U1).
Qed.

(** ** Tag removal *)

(** X20.  Text without a tag is kept as it is: when no [<] of the text is
    followed, anywhere later, by a [>], [replace(/<[^>]*>/g, '')] returns
    the text unchanged. *)
Theorem removeTags_keeps_untagged (s : jsstring)
  (H : hasTag s = false) :
  removeTags false s = s.
Proof.
  induction s as [|c s IH]; [reflexivity|].
  simpl in *. apply orb_false_iff in H. destruct H as [H1 H2].
  rewrite H1. f_equal. apply IH, H2.
Qed.

(** X21.  Removing tags twice is removing them once, and removing tags
    never makes a text longer. *)
Theorem removeTags_idempotent (s : jsstring) :
  removeTags false (removeTags false s) = removeTags false s
  /\ (List.length (removeTags false s) <= List.length s)%nat.
Proof.
  split.
  - assert (K : forall x, hasTag x = false -> removeTags false x = x).
    { induction x as [|c x IH]; [reflexivity|].
      simpl. intros H. apply orb_false_iff in H. destruct H as [H1 H2].
      rewrite H1. f_equal. apply IH, H2. }
    apply K, removeTags_clean.
  - assert (L : forall b, (List.length (removeTags b s) <= List.length s)%nat).
    { induction s as [|c s IH]; intros b; simpl; [lia|].
      destruct b.
      - specialize (IH (negb (isGt c))). lia.
      - destruct (isLt c && existsb isGt s); simpl.
        + specialize (IH true). lia.
        + specialize (IH false). lia. }
    apply L.
Qed.

(** ** The lyric lines *)

Lemma isSpace_true (c : ascii) : isSpace c = true <-> c = SPACE.
Proof. unfold isSpace. apply Ascii.eqb_eq. Qed.

Lemma isSpace_false (c : ascii) : isSpace c = false <-> c <> SPACE.
Proof. unfold isSpace. apply Ascii.eqb_neq. Qed.

Lemma splitSpace_word (w cur : jsstring) :
  ~ In SPACE w -> splitSpace cur w = [rev cur ++ w].
Proof.
  revert cur. induction w as [|c w IH]; intros cur H; simpl.
  - rewrite app_nil_r. reflexivity.
  - assert (E : isSpace c = false).
    { apply isSpace_false. intros ->. apply H. left. reflexivity. }
    rewrite E, IH.
    + simpl. rewrite <- app_assoc. reflexivity.
    + intros Hin. apply H. right. exact Hin.
Qed.

Lemma splitSpace_app (a b cur : jsstring) :
  splitSpace cur (a ++ SPACE :: b) = splitSpace cur a ++ splitSpace [] b.
Proof.
  revert cur. induction a as [|c a IH]; intros cur; simpl.
  - reflexivity.
  - destruct (isSpace c).
    + rewrite IH. reflexivity.
    + apply IH.
Qed.

Lemma splitSpace_pieces (s cur : jsstring) :
  ~ In SPACE cur -> Forall (fun w => ~ In SPACE w) (splitSpace cur s).
Proof.
  revert cur. induction s as [|c s IH]; intros cur H; simpl.
  - constructor; [|constructor]. intros Hin. apply H, in_rev, Hin.
  - destruct (isSpace c) eqn:E.
    + constructor.
      * intros Hin. apply H, in_rev, Hin.
      * apply IH. intros [].
    + apply IH. intros [Hin|Hin]; [|exact (H Hin)].
      apply isSpace_false in E. congruence.
Qed.

Section LyricFacts.

Variable measureText : jsstring -> Q.

Lemma wrapWords_lines (limit : Q) (words lines : list jsstring)
  (currentLine : jsstring) :
  let good line :=
    startsWithWord line /\ (measureText line <= limit \/ ~ In SPACE line) in
  Forall (fun w => ~ In SPACE w) words ->
  Forall good lines ->
  (currentLine = [] \/ good currentLine) ->
  Forall good (wrapWords measureText limit lines currentLine words).
Proof.
  intros good. revert lines currentLine.
  induction words as [|word rest IH]; intros lines cur Hw Hl Hc; simpl.
  - destruct cur as [|c cur]; simpl; [exact Hl|].
    apply Forall_app. split; [exact Hl|].
    constructor; [|constructor].
    destruct Hc as [Hc|Hc]; [discriminate|exact Hc].
  - inversion Hw as [|w r Hword Hrest]; subst.
    assert (Gw : word = [] \/ good word).
    { destruct word as [|c word]; [left; reflexivity|right].
      split; [|right; exact Hword].
      simpl. intros ->. apply Hword. left. reflexivity. }
    destruct cur as [|c cur].
    + (* the line is empty: the word starts it, whatever its width *)
      simpl. rewrite andb_false_r. apply IH; assumption.
    + destruct Hc as [Hc|Hc]; [discriminate|].
      simpl nonEmpty. rewrite andb_true_r.
      destruct (Qgt_bool (measureText ((c :: cur) ++ [SPACE] ++ word)) limit)
        eqn:E.
      * apply IH; [exact Hrest| |exact Gw].
        apply Forall_app. split; [exact Hl|]. constructor; [exact Hc|constructor].
      * apply IH; [exact Hrest|exact Hl|]. right. split.
        -- destruct Hc as [Hc _]. exact Hc.
        -- left. unfold Qgt_bool in E. apply negb_false_iff in E.
           apply Qle_bool_iff in E. exact E.
Qed.

Lemma wrapWords_words (limit : Q) (words lines : list jsstring)
  (currentLine : jsstring) :
  Forall (fun w => ~ In SPACE w) words ->
  flat_map wordsOf (wrapWords measureText limit lines currentLine words)
  = flat_map wordsOf lines ++ wordsOf currentLine ++ filter nonEmpty words.
Proof.
  revert lines currentLine.
  induction words as [|word rest IH]; intros lines cur Hw;
    [simpl|cbn [wrapWords]].
  - destruct cur as [|c cur]; simpl.
    + rewrite app_nil_r. reflexivity.
    + rewrite flat_map_app. simpl. rewrite !app_nil_r. reflexivity.
  - inversion Hw as [|w r Hword Hrest]; subst.
    assert (W : wordsOf word = filter nonEmpty [word]).
    { unfold wordsOf. rewrite (@splitSpace_word word [] Hword). reflexivity. }
    assert (T : wordsOf (cur ++ (if nonEmpty cur then [SPACE] else []) ++ word)
                = wordsOf cur ++ filter nonEmpty [word]).
    { destruct cur as [|c cur]; [exact W|].
      cbn [nonEmpty]. unfold wordsOf at 1 2.
      change ((c :: cur) ++ [SPACE] ++ word)
        with ((c :: cur) ++ SPACE :: word).
      rewrite splitSpace_app, filter_app. f_equal. exact W. }
    assert (F : filter nonEmpty (word :: rest)
                = filter nonEmpty [word] ++ filter nonEmpty rest).
    { simpl. destruct (nonEmpty word); reflexivity. }
    destruct (Qgt_bool _ limit && nonEmpty cur).
    + rewrite (IH _ _ Hrest), flat_map_app. cbn [flat_map].
      rewrite app_nil_r, W, F, <- !app_assoc. reflexivity.
    + rewrite (IH _ _ Hrest), T, F, <- !app_assoc. reflexivity.
Qed.

Lemma lyricLines_start (h : Host) (lyric : SRTEntry) :
  Forall startsWithWord (lyricLines measureText h lyric).
Proof.
  eapply Forall_impl;
    [|apply (@wrapWords_lines (inject_Z (canvas_width h) * 0.8))].
  - intros line [H _]. exact H.
  - apply splitSpace_pieces. intros [].
  - constructor.
  - left. reflexivity.
Qed.

Lemma splitSpace_head (s cur : jsstring) :
  cur <> [] ->
  exists piece rest, splitSpace cur s = piece :: rest /\ piece <> [].
Proof.
  revert cur. induction s as [|c s IH]; intros cur H; simpl.
  - exists (rev cur), []. split; [reflexivity|].
    intros E. apply H. rewrite <- (rev_involutive cur), E. reflexivity.
  - destruct (isSpace c).
    + exists (rev cur), (splitSpace [] s). split; [reflexivity|].
      intros E. apply H. rewrite <- (rev_involutive cur), E. reflexivity.
    + apply IH. discriminate.
Qed.

Lemma startsWithWord_words (line : jsstring) :
  startsWithWord line -> wordsOf line <> [].
Proof.
  destruct line as [|c line]; simpl; [tauto|]. intros H.
  apply isSpace_false in H. unfold wordsOf. simpl. rewrite H.
  destruct (@splitSpace_head line [c]) as (piece & rest & -> & Hp);
    [discriminate|].
  destruct piece; [congruence|]. simpl. discriminate.
Qed.

(** X22.  Every line drawn for a lyric starts with a word (it is neither
    empty nor does it begin with a space), and it either is no wider than
    eight tenths of the canvas or consists of a single word, which cannot be
    broken. *)
Theorem lyric_lines_fit (h : Host) (lyric : SRTEntry) :
  Forall (fun line =>
            startsWithWord line
            /\ (measureText line <= inject_Z (canvas_width h) * 0.8
                \/ ~ In SPACE line))
    (lyricLines measureText h lyric).
Proof.
  unfold lyricLines. apply wrapWords_lines.
  - (* the pieces of [split(' ')] hold no space *)
    apply splitSpace_pieces. intros [].
  - (* no line is finished before the loop *)
    constructor.
  - (* the loop starts on an empty line *)
    left. reflexivity.
Qed.

(** X23.  Wrapping loses nothing and reorders nothing: the words of the
    lines, read line after line, are the words of the lyric's text.  In
    particular a text without a word (empty, or spaces only) draws no
    line. *)
Theorem lyric_lines_keep_words (h : Host) (lyric : SRTEntry) :
  flat_map wordsOf (lyricLines measureText h lyric)
  = wordsOf (list_ascii_of_string (text lyric))
  /\ (wordsOf (list_ascii_of_string (text lyric)) = [] ->
      lyricLines measureText h lyric = []).
Proof.
  assert (E : flat_map wordsOf (lyricLines measureText h lyric)
              = wordsOf (list_ascii_of_string (text lyric))).
  { unfold lyricLines. rewrite wrapWords_words.
    - reflexivity.
    - apply splitSpace_pieces. intros []. }
  split; [exact E|]. intros Hn. rewrite Hn in E.
  pose proof (lyricLines_start h lyric) as G.
  destruct (lyricLines measureText h lyric) as [|line rest];
    [reflexivity|exfalso].
  inversion G as [|x r Hline _]; subst.
  simpl in E. apply app_eq_nil in E. destruct E as [E _].
  exact (startsWithWord_words _ Hline E).
Qed.

End LyricFacts.

(** ** Instances of the properties that have a precondition *)

(** A silent engine of two bins on a fresh page. *)
Lemma renderFire_silent_witness :
  Forall (fun b => b = 0%Z) [0; 0]%Z
  /\ count isLineTo
       (renderFire (M := stillMath) previewConfig
          {| dataArray := [0; 0]%Z; bufferLength := 2;
             animationId := None |} (freshHost 800 450)) = 2%nat.
Proof.
  split; [repeat constructor|].
  apply (renderFire_silent (M := stillMath) previewConfig
           {| dataArray := [0; 0]%Z; bufferLength := 2;
              animationId := None |} (freshHost 800 450)).
  repeat constructor.
Defined.

Lemma renderElectricity_quiet_witness :
  Forall (fun b => (b <= 100)%Z) [0; 100; 0]%Z
  /\ strokes
       (fst (renderElectricity (M := stillMath) previewConfig
               {| dataArray := [0; 100; 0]%Z; bufferLength := 3;
                  animationId := None |} (freshHost 800 450))) = 0%nat.
Proof.
  split; [repeat constructor; lia|].
  apply (renderElectricity_quiet (M := stillMath) previewConfig
           {| dataArray := [0; 100; 0]%Z; bufferLength := 3;
              animationId := None |} (freshHost 800 450)).
  repeat constructor; lia.
Defined.

(** A silent and a saturated bin on a canvas 450 high. *)
Lemma renderSpectrum_bars_inside_witness :
  let engine :=
    {| dataArray := [0; 255]%Z; bufferLength := 2; animationId := None |} in
  let height := inject_Z (canvas_height (freshHost 800 450)) in
  Forall (fun b => (0 <= b <= 255)%Z) (dataArray engine)
  /\ (0 <= canvas_height (freshHost 800 450))%Z
  /\ firstn 2 (renderSpectrum previewConfig engine (freshHost 800 450))
     = [fillStyle (css "rgba(15, 15, 35, 0.1)");
        fillRect 0 0 (inject_Z (canvas_width (freshHost 800 450))) height]
  /\ Forall (standsWithin (0.8 * height) height)
       (skipn 2 (renderSpectrum previewConfig engine (freshHost 800 450))).
Proof.
  cbv zeta.
  split; [repeat constructor; lia|]. split; [simpl; lia|].
  apply (renderSpectrum_bars_inside previewConfig
           {| dataArray := [0; 255]%Z; bufferLength := 2;
              animationId := None |} (freshHost 800 450)).
  - repeat constructor; lia.
  - simpl. lia.
Defined.

(** An analyser that delivers the lowest, the middle and the highest
    sample. *)
Lemma renderWaveform_inside_canvas_witness :
  let host :=
    setAnalyser {| fftSize := 8; byteFrequencyData := [];
                   byteTimeDomainData := [0; 128; 255]%Z |}
      (freshHost 800 450) in
  let engine :=
    {| dataArray := [0; 0; 0]%Z; bufferLength := 3; animationId := None |} in
  Forall (fun b => (0 <= b <= 255)%Z) (byteTimeDomainData (analyser host))
  /\ (0 <= canvas_height host)%Z
  /\ Forall (insideHeight (inject_Z (canvas_height host)))
       (renderWaveform previewConfig engine host).
Proof.
  cbv zeta.
  split; [simpl; repeat constructor; lia|]. split; [simpl; lia|].
  apply (renderWaveform_inside_canvas previewConfig
           {| dataArray := [0; 0; 0]%Z; bufferLength := 3;
              animationId := None |}
           (setAnalyser {| fftSize := 8; byteFrequencyData := [];
                           byteTimeDomainData := [0; 128; 255]%Z |}
              (freshHost 800 450))).
  - simpl. repeat constructor; lia.
  - simpl. lia.
Defined.

(** A running spectrum loop is stopped; a frame, a second [stop] and another
    frame follow. *)
Lemma stop_ends_drawing_witness :
  let events := [CallStart "spectrum" previewConfig; FrameFires] in
  let later := [FrameFires; CallStop; FrameFires] in
  let s := run (M := stillMath) events
             (newVisualizationEngine (freshHost 800 450)) in
  forallb (fun ev => negb (isCallStart ev)) later = true
  /\ surface (snd (run (M := stillMath) later (stop s))) = surface (snd s)
  /\ executed (snd (run (M := stillMath) later (stop s))) = executed (snd s)
  /\ frameRequests (snd (run (M := stillMath) later (stop s))) = [].
Proof.
  cbv zeta. split; [reflexivity|].
  apply (stop_ends_drawing (M := stillMath) 800 450
           [CallStart "spectrum" previewConfig; FrameFires]
           [FrameFires; CallStop; FrameFires]).
  reflexivity.
Defined.

(** A file of a space, a line feed and a tab. *)
Lemma parseSRT_blank_witness :
  Forall (fun c => isWhiteSpace c = true)
    (list_ascii_of_string (" " ++ nl ++ String (ascii_of_nat 9) "")%string)
  /\ parseSRT (" " ++ nl ++ String (ascii_of_nat 9) "")%string = [].
Proof.
  split; [simpl; repeat constructor|].
  apply (parseSRT_blank (" " ++ nl ++ String (ascii_of_nat 9) "")%string).
  simpl. repeat constructor.
Defined.

(** The sample file between a blank line and two trailing line feeds. *)
Lemma parseSRT_ignores_padding_witness :
  Forall (fun c => isWhiteSpace c = true) [SPACE; LF]
  /\ Forall (fun c => isWhiteSpace c = true) [LF; LF]
  /\ parseSRT (string_of_list_ascii
                 ([SPACE; LF] ++ list_ascii_of_string reversedSample
                  ++ [LF; LF]))
     = parseSRT reversedSample.
Proof.
  split; [repeat constructor|]. split; [repeat constructor|].
  apply (@parseSRT_ignores_padding [SPACE; LF] [LF; LF] reversedSample);
    repeat constructor.
Defined.

(** A text with a [<] that no [>] follows. *)
Lemma removeTags_keeps_untagged_witness :
  hasTag (list_ascii_of_string "a < b") = false
  /\ removeTags false (list_ascii_of_string "a < b")
     = list_ascii_of_string "a < b".
Proof.
  split; [reflexivity|].
  apply (@removeTags_keeps_untagged (list_ascii_of_string "a < b")).
  reflexivity.
Defined.
